(** * cross-stitch: the image-to-pattern pipeline

    A shallow embedding of [src/utils/colorUtils.js], of
    [src/utils/patternGenerator.js] (background detection, conversion,
    colour limiting, colour merging, shape masking, statistics, shopping
    list, symbols) and of the post-processing of [src/components/App.js],
    followed by the properties of the pipeline.

    Conventions of the embedding.
    - A JavaScript number is a [JS.num]: the three special values a double
      can take, or a finite value kept as an exact fraction in lowest terms.
      Finite arithmetic is exact: the rounding of binary64 and the sign of
      zero are not modelled.  Loop counters, stitch coordinates and usage
      counts are integers and are kept in [nat] or [Z].
    - [undefined] read from an array or typed array only ever flows into
      arithmetic and comparisons, where it behaves as [NaN].
    - A plain object used as a dictionary is an [Obj.t]: its properties in
      the order [Object.keys] lists them.
    - An uncaught [TypeError] is the [None] of an [option] result. *)

From Stdlib Require Import List ZArith QArith Qround Qabs Qcanon String Ascii Bool.
From Stdlib Require Import Lia Lqa Permutation Sorted PeanoNat.
Import ListNotations.

Close Scope Qc_scope.
Close Scope Q_scope.

(* ================================================================= *)
(** ** JavaScript numbers *)

Module JS.

Inductive num : Type :=
| NaN
| PInf
| NInf
| Fin (q : Q).

Definition of_Z (z : Z) : num := Fin (inject_Z z).
Definition of_nat (n : nat) : num := of_Z (Z.of_nat n).

(** A finite result, reduced to lowest terms. *)
Definition fin (q : Q) : num := Fin (Qred q).

Definition Qltb (x y : Q) : bool :=
  match (x ?= y)%Q with Lt => true | _ => false end.

(** Sign of a number; [Eq] for zero and for [NaN]. *)
Definition sign (a : num) : comparison :=
  match a with
  | NaN => Eq
  | PInf => Gt
  | NInf => Lt
  | Fin q => (q ?= 0)%Q
  end.

Definition sign_mul (s t : comparison) : comparison :=
  match s, t with
  | Eq, _ | _, Eq => Eq
  | Lt, Lt | Gt, Gt => Gt
  | _, _ => Lt
  end.

(** The infinity of a given sign; an undetermined sign gives [NaN]. *)
Definition inf (s : comparison) : num :=
  match s with Gt => PInf | Lt => NInf | Eq => NaN end.

Definition neg (a : num) : num :=
  match a with
  | NaN => NaN
  | PInf => NInf
  | NInf => PInf
  | Fin q => fin (- q)
  end.

Definition add (a b : num) : num :=
  match a, b with
  | NaN, _ | _, NaN => NaN
  | PInf, NInf | NInf, PInf => NaN
  | PInf, _ | _, PInf => PInf
  | NInf, _ | _, NInf => NInf
  | Fin x, Fin y => fin (x + y)
  end.

Definition sub (a b : num) : num :=
  match a, b with
  | NaN, _ | _, NaN => NaN
  | PInf, PInf | NInf, NInf => NaN
  | PInf, _ | _, NInf => PInf
  | NInf, _ | _, PInf => NInf
  | Fin x, Fin y => fin (x - y)
  end.

Definition mul (a b : num) : num :=
  match a, b with
  | NaN, _ | _, NaN => NaN
  | Fin x, Fin y => fin (x * y)
  | _, _ => inf (sign_mul (sign a) (sign b))
  end.

(** [a / b].  A zero divisor is the positive zero. *)
Definition div (a b : num) : num :=
  match a, b with
  | NaN, _ | _, NaN => NaN
  | Fin x, Fin y => if Qeq_bool y 0 then inf (x ?= 0)%Q else fin (x / y)
  | Fin _, _ => Fin 0
  | _, Fin y => inf (sign_mul (sign a) (if Qltb y 0 then Lt else Gt))
  | _, _ => NaN
  end.

(** [a < b], [a <= b]: false as soon as an operand is [NaN]. *)
Definition lt (a b : num) : bool :=
  match a, b with
  | NaN, _ | _, NaN => false
  | Fin x, Fin y => Qltb x y
  | NInf, NInf | PInf, _ | _, NInf => false
  | NInf, _ | _, PInf => true
  end.

Definition le (a b : num) : bool :=
  match a, b with
  | NaN, _ | _, NaN => false
  | Fin x, Fin y => Qle_bool x y
  | NInf, _ | _, PInf => true
  | PInf, _ | _, NInf => false
  end.

Definition gt (a b : num) : bool := lt b a.
Definition ge (a b : num) : bool := le b a.

Definition is_nan (a : num) : bool :=
  match a with NaN => true | _ => false end.

(** [Math.min], [Math.max]: [NaN] if either argument is. *)
Definition min (a b : num) : num :=
  match a, b with
  | NaN, _ | _, NaN => NaN
  | _, _ => if lt b a then b else a
  end.

Definition max (a b : num) : num :=
  match a, b with
  | NaN, _ | _, NaN => NaN
  | _, _ => if lt a b then b else a
  end.

Definition abs (a : num) : num :=
  match a with
  | NaN => NaN
  | PInf | NInf => PInf
  | Fin q => fin (Qabs q)
  end.

(** [Math.floor]. *)
Definition floor (a : num) : num :=
  match a with
  | Fin q => of_Z (Qfloor q)
  | _ => a
  end.

(** [Math.round]: the nearest integer, halves towards [+Infinity]. *)
Definition round (a : num) : num :=
  match a with
  | Fin q => of_Z (Qfloor (q + (1 # 2)))
  | _ => a
  end.

(** [a % b]: the remainder has the sign of the dividend. *)
Definition trunc (q : Q) : Z :=
  if Qltb q 0 then (- Qfloor (- q))%Z else Qfloor q.

Definition rem (a b : num) : num :=
  match a, b with
  | Fin x, Fin y =>
      if Qeq_bool y 0 then NaN else fin (x - y * inject_Z (trunc (x / y)))
  | Fin x, (PInf | NInf) => a
  | _, _ => NaN
  end.

(** Conversion of a number on a store into a [Uint8ClampedArray]:
    [NaN] becomes 0, the value is clamped to [0, 255] and rounded to the
    nearest integer, halves to the even neighbour. *)
Definition to_uint8_clamp (a : num) : Z :=
  match a with
  | NaN | NInf => 0
  | PInf => 255
  | Fin q =>
      if Qle_bool q 0 then 0
      else if Qle_bool 255 q then 255
      else
        let f := Qfloor q in
        match (q - inject_Z f ?= 1 # 2)%Q with
        | Lt => f
        | Gt => f + 1
        | Eq => if Z.even f then f else f + 1
        end
  end%Z.

(** The index denoted by a number used as a property key of an array:
    a non-negative integer, or nothing. *)
Definition to_index (a : num) : option nat :=
  match a with
  | Fin q =>
      if Qeq_bool q (inject_Z (Qfloor q)) && Qle_bool 0 q
      then Some (Z.to_nat (Qfloor q))
      else None
  | _ => None
  end.

(** [Math.sqrt] is only ever compared in this code base.  Its result is
    kept as the root of its argument, and the two comparisons are decided
    on the squares. *)
Inductive root : Type := Sqrt (radicand : num).

(** [Math.sqrt(d) < t] *)
Definition root_lt (s : root) (t : num) : bool :=
  match s with
  | Sqrt (Fin d) =>
      if Qltb d 0 then false
      else match t with
           | PInf => true
           | Fin u => Qltb 0 u && Qltb d (u * u)
           | _ => false
           end
  | Sqrt _ => false
  end.

(** [Math.sqrt(d) <= t] *)
Definition root_le (s : root) (t : num) : bool :=
  match s with
  | Sqrt (Fin d) =>
      if Qltb d 0 then false
      else match t with
           | PInf => true
           | Fin u => Qle_bool 0 u && Qle_bool d (u * u)
           | _ => false
           end
  | Sqrt PInf => match t with PInf => true | _ => false end
  | Sqrt _ => false
  end.

(** [Math.ceil]. *)
Definition ceil (a : num) : num :=
  match a with
  | Fin q => of_Z (Qceiling q)
  | _ => a
  end.

(** [a === b] on numbers. *)
Definition eq (a b : num) : bool :=
  match a, b with
  | Fin x, Fin y => Qeq_bool x y
  | PInf, PInf | NInf, NInf => true
  | _, _ => false
  end.

(** [ToInt32] of an integer. *)
Definition to_int32 (z : Z) : Z := ((z + 2 ^ 31) mod 2 ^ 32 - 2 ^ 31)%Z.

(** [a << k] on integers, for [0 <= k < 32]. *)
Definition shl (a k : Z) : Z := to_int32 (Z.shiftl (to_int32 a) k).

End JS.

Declare Scope js_scope.
Delimit Scope js_scope with js.
Bind Scope js_scope with JS.num.
Infix "+" := JS.add : js_scope.
Infix "-" := JS.sub : js_scope.
Infix "*" := JS.mul : js_scope.
Infix "/" := JS.div : js_scope.
Infix "<?" := JS.lt : js_scope.
Infix "<=?" := JS.le : js_scope.
Infix ">?" := JS.gt : js_scope.
Infix ">=?" := JS.ge : js_scope.

(* ================================================================= *)
(** ** Strings *)

Module Str.

(** [s.slice(a, b)] for [0 <= a <= b]. *)
Definition slice (a b : nat) (s : string) : string := substring a (b - a) s.

(** White space skipped by [parseInt], among the code units below 256. *)
Definition is_space (c : ascii) : bool :=
  let n := nat_of_ascii c in
  ((9 <=? n) && (n <=? 13) || (n =? 32) || (n =? 160))%nat.

Fixpoint trim_start (s : string) : string :=
  match s with
  | String c s' => if is_space c then trim_start s' else s
  | EmptyString => s
  end.

Definition hex_digit (c : ascii) : option Z :=
  let n := Z.of_nat (nat_of_ascii c) in
  (if (48 <=? n) && (n <=? 57) then Some (n - 48)
   else if (97 <=? n) && (n <=? 102) then Some (n - 87)
   else if (65 <=? n) && (n <=? 70) then Some (n - 55)
   else None)%Z.

(** Value of the longest prefix of hexadecimal digits; [acc] is the value
    of the digits read so far, if any. *)
Fixpoint hex_prefix (s : string) (acc : option Z) : option Z :=
  match s with
  | String c s' =>
      match hex_digit c with
      | Some d =>
          hex_prefix s' (Some (16 * match acc with Some a => a | None => 0 end + d)%Z)
      | None => acc
      end
  | EmptyString => acc
  end.

(** [parseInt(s, 16)] *)
Definition parseInt16 (s : string) : JS.num :=
  let s1 := trim_start s in
  let '(negative, s2) :=
    match s1 with
    | String c t =>
        if Ascii.eqb c "-" then (true, t)
        else if Ascii.eqb c "+" then (false, t)
        else (false, s1)
    | EmptyString => (false, s1)
    end in
  let s3 :=
    match s2 with
    | String c (String d t) =>
        if Ascii.eqb c "0" && (Ascii.eqb d "x" || Ascii.eqb d "X") then t else s2
    | _ => s2
    end in
  match hex_prefix s3 None with
  | Some v => JS.of_Z (if negative then (- v)%Z else v)
  | None => JS.NaN
  end.

(** The digit of value [d] in the notation of [Number.prototype.toString]:
    [0-9], then [a-z]. *)
Definition digit_char (d : Z) : ascii :=
  ascii_of_nat (Z.to_nat (if d <? 10 then 48 + d else 87 + d)%Z).

(** The digits of [n >= 0] in the given radix, most significant first,
    put in front of [acc]; [fuel] bounds their number. *)
Fixpoint digits (fuel : nat) (radix n : Z) (acc : string) : string :=
  match fuel with
  | O => acc
  | S fuel' =>
      let acc' := String (digit_char (n mod radix)) acc in
      if (n / radix =? 0)%Z then acc' else digits fuel' radix (n / radix) acc'
  end.

(** [z.toString(radix)] for an integer [z]; in radix 10 this is also
    [String(z)] and the text a template literal inserts, as long as
    [|z| < 10^21]. *)
Definition of_Z (radix z : Z) : string :=
  if (z <? 0)%Z
  then String "-" (digits (S (Z.to_nat (Z.log2 (- z)))) radix (- z) EmptyString)
  else digits (S (Z.to_nat (Z.log2 z))) radix z EmptyString.

(** [String(a)] for a number that is not finite or is an integer below
    [10^21] in magnitude, the only numbers this code base converts. *)
Definition of_num (a : JS.num) : string :=
  match a with
  | JS.NaN => "NaN"
  | JS.PInf => "Infinity"
  | JS.NInf => "-Infinity"
  | JS.Fin q => of_Z 10 (Qfloor q)
  end.

(** [s.slice(1)] *)
Definition tail (s : string) : string :=
  match s with
  | String _ s' => s'
  | EmptyString => EmptyString
  end.

(** [s.toUpperCase()] for a string of ASCII characters. *)
Definition upper (c : ascii) : ascii :=
  let n := nat_of_ascii c in
  if ((97 <=? n) && (n <=? 122))%nat then ascii_of_nat (n - 32) else c.

Fixpoint toUpperCase (s : string) : string :=
  match s with
  | String c s' => String (upper c) (toUpperCase s')
  | EmptyString => EmptyString
  end.

(** [a.toFixed(1)] for [|a| < 10^21]: the nearest multiple of a tenth, the
    larger one of two, written with one digit after the point. *)
Definition toFixed1 (a : JS.num) : string :=
  match a with
  | JS.NaN => "NaN"
  | JS.PInf => "Infinity"
  | JS.NInf => "-Infinity"
  | JS.Fin q =>
      let x := if JS.Qltb q 0 then (- q)%Q else q in
      let n := Qfloor (x * inject_Z 10 + (1 # 2))%Q in
      ((if JS.Qltb q 0 then "-" else "")
       ++ of_Z 10 (n / 10) ++ "." ++ of_Z 10 (n mod 10))%string
  end.

End Str.

(* ================================================================= *)
(** ** Plain objects used as dictionaries *)

Module Obj.

(** The own properties of an object, in the order [Object.keys],
    [Object.values] and [for ... in] enumerate them: first the keys that
    are array indices, in ascending numeric order, then the other keys in
    the order they were created. *)
Definition t (V : Type) : Type := list (string * V).

Definition empty {V : Type} : t V := [].

Definition keys {V : Type} (o : t V) : list string := map fst o.
Definition values {V : Type} (o : t V) : list V := map snd o.

Fixpoint get {V : Type} (k : string) (o : t V) : option V :=
  match o with
  | [] => None
  | (k', v) :: o' => if String.eqb k k' then Some v else get k o'
  end.

Definition has {V : Type} (k : string) (o : t V) : bool :=
  match get k o with Some _ => true | None => false end.

Definition is_digit (c : ascii) : bool :=
  let n := nat_of_ascii c in ((48 <=? n) && (n <=? 57))%nat.

Fixpoint decimal (s : string) (acc : N) : option N :=
  match s with
  | EmptyString => Some acc
  | String c s' =>
      if is_digit c
      then decimal s' (10 * acc + (N_of_ascii c - 48))%N
      else None
  end.

(** A key is an array index when it is the canonical decimal form of an
    integer below [2^32 - 1]. *)
Definition array_index (k : string) : option N :=
  match k with
  | EmptyString => None
  | String c rest =>
      if Ascii.eqb c "0"
      then match rest with EmptyString => Some 0%N | _ => None end
      else match decimal k 0 with
           | Some n => if (n <? 4294967295)%N then Some n else None
           | None => None
           end
  end.

Fixpoint replace {V : Type} (k : string) (v : V) (o : t V) : t V :=
  match o with
  | [] => []
  | (k', v') :: o' =>
      if String.eqb k k' then (k', v) :: o' else (k', v') :: replace k v o'
  end.

Fixpoint insert_index {V : Type} (n : N) (k : string) (v : V) (o : t V) : t V :=
  match o with
  | [] => [(k, v)]
  | (k', v') :: o' =>
      match array_index k' with
      | Some n' =>
          if (n' <? n)%N then (k', v') :: insert_index n k v o'
          else (k, v) :: o
      | None => (k, v) :: o
      end
  end.

(** Creation of a property that the object does not have yet. *)
Definition create {V : Type} (k : string) (v : V) (o : t V) : t V :=
  match array_index k with
  | Some n => insert_index n k v o
  | None => o ++ [(k, v)]
  end.

(** [o[k] = v] *)
Definition set {V : Type} (k : string) (v : V) (o : t V) : t V :=
  if has k o then replace k v o else create k v o.

(** [o[k].f = ...]: an update of the object stored under [k]; a
    [TypeError] when [o[k]] is [undefined]. *)
Definition modify {V : Type} (k : string) (f : V -> V) (o : t V) : option (t V) :=
  match get k o with
  | Some v => Some (replace k (f v) o)
  | None => None
  end.

(** The representation invariant: no key is listed twice. *)
Definition wf {V : Type} (o : t V) : Prop := NoDup (keys o).

End Obj.

(* ================================================================= *)
(** ** Data model *)

(** An entry of the thread table, [{ id, hex, name }]. *)
Module DMC.
Record t : Type := { id : string; hex : string; name : string }.
End DMC.

(** A colour, [{ r, g, b }]. *)
Module RGB.
Record t : Type := { r : JS.num; g : JS.num; b : JS.num }.
End RGB.

(** An image as the canvas hands it over: [{ data, width, height }], the
    samples of [data] being bytes in row-major RGBA order. *)
Module Image.
Record t : Type := { data : list Z; width : nat; height : nat }.
End Image.

(** [{ x, y, color }] *)
Module Stitch.
Record t : Type := { x : Z; y : Z; color : DMC.t }.
End Stitch.

(** A value of [colorCounts]: [{ ...dmc, count }]. *)
Module Usage.
Record t : Type := { color : DMC.t; count : Z }.
Definition id (u : t) : string := DMC.id (color u).
Definition hex (u : t) : string := DMC.hex (color u).
Definition incr (u : t) : t := {| color := color u; count := count u + 1 |}.
End Usage.

(** [{ stitches, width, height, colorCounts }] *)
Module Pattern.
Record t : Type := {
  stitches : list Stitch.t;
  width : JS.num;
  height : JS.num;
  colorCounts : Obj.t Usage.t
}.
End Pattern.

(** The options object of [convertToPattern], every field supplied. *)
Module Options.
Record t : Type := {
  removeBackground : bool;
  backgroundColor : option RGB.t;
  tolerance : JS.num;
  useDithering : bool;
  ditheringAlgorithm : string
}.
End Options.

(** The functions of [Math] whose values are not rational; they belong to
    the host. *)
Module Math.
Record t : Type := {
  atan2 : JS.num -> JS.num -> JS.num;
  sin : JS.num -> JS.num;
  cos : JS.num -> JS.num;
  log : JS.num -> JS.num;
  PI : JS.num
}.
End Math.

(** The state of a promise that is never rejected. *)
Inductive outcome (A : Type) : Type :=
| Resolved (a : A)
| Pending
| Thrown.
Arguments Resolved {A} a.
Arguments Pending {A}.
Arguments Thrown {A}.

(** A loop whose body can throw. *)
Fixpoint foldM {A S : Type} (f : A -> S -> option S) (l : list A) (s : S) : option S :=
  match l with
  | [] => Some s
  | a :: l' =>
      match f a s with
      | Some s' => foldM f l' s'
      | None => None
      end
  end.

(** [arr.map(f)] where [f] updates a captured variable and can throw. *)
Fixpoint mapM {A B S : Type} (f : A -> S -> option (B * S)) (l : list A) (s : S)
  : option (list B * S) :=
  match l with
  | [] => Some ([], s)
  | a :: l' =>
      match f a s with
      | Some (b, s') =>
          match mapM f l' s' with
          | Some (bs, s'') => Some (b :: bs, s'')
          | None => None
          end
      | None => None
      end
  end.

Definition n03 : JS.num := JS.Fin (3 # 10).
Definition n059 : JS.num := JS.Fin (59 # 100).
Definition n011 : JS.num := JS.Fin (11 # 100).

(* ================================================================= *)
(** ** colorUtils.js *)

(** [parseInt(hex.slice(a, b), 16)] *)
Definition channel (a b : nat) (hex : string) : JS.num :=
  Str.parseInt16 (Str.slice a b hex).

(** [dr * dr * 0.3 + dg * dg * 0.59 + db * db * 0.11] *)
Definition weighted (dr dg db : JS.num) : JS.num :=
  (dr * dr * n03 + dg * dg * n059 + db * db * n011)%js.

(** The distance computed in the body of a nearest-colour scan, from the
    colour with the given [hex] to [(r, g, b)]. *)
Definition distance (hex : string) (r g b : JS.num) : JS.num :=
  let dr := (channel 1 3 hex - r)%js in
  let dg := (channel 3 5 hex - g)%js in
  let db := (channel 5 7 hex - b)%js in
  weighted dr dg db.

(** The body of the scan in [findClosestDMC] and in [limitColors]: [acc]
    holds [minDistance] and [closestColor]. *)
Definition closer {A : Type} (hex : A -> string) (r g b : JS.num)
    (acc : JS.num * option A) (c : A) : JS.num * option A :=
  if (distance (hex c) r g b <? fst acc)%js
  then (distance (hex c) r g b, Some c)
  else acc.

(** The whole scan: [closestColor] starts as the first element of the
    array, [minDistance] as [Infinity]. *)
Definition closest {A : Type} (hex : A -> string) (r g b : JS.num) (l : list A)
  : option A :=
  snd (fold_left (closer hex r g b) l (JS.PInf, hd_error l)).

Section colorUtils.

(** The table exported by [src/data/dmcColors.js]. *)
Variable DMC_COLORS : list DMC.t.

Definition findClosestDMC (r g b : JS.num) : option DMC.t :=
  closest DMC.hex r g b DMC_COLORS.

End colorUtils.

Definition colorDistance (color1 color2 : RGB.t) : JS.root :=
  let dr := (RGB.r color1 - RGB.r color2)%js in
  let dg := (RGB.g color1 - RGB.g color2)%js in
  let db := (RGB.b color1 - RGB.b color2)%js in
  JS.Sqrt (weighted dr dg db).

Definition isSimilarColor (color1 color2 : RGB.t) (tolerance : JS.num) : bool :=
  JS.root_lt (colorDistance color1 color2) tolerance.

(* ================================================================= *)
(** ** patternGenerator.js: conversion *)

(** [data[idx]] read as a number. *)
Definition load (data : list Z) (idx : JS.num) : JS.num :=
  match JS.to_index idx with
  | Some i =>
      match nth_error data i with
      | Some v => JS.of_Z v
      | None => JS.NaN
      end
  | None => JS.NaN
  end.

Fixpoint update (data : list Z) (i : nat) (v : Z) : list Z :=
  match data, i with
  | [], _ => []
  | _ :: data', O => v :: data'
  | w :: data', S i' => w :: update data' i' v
  end.

(** [data[idx] = v] on a [Uint8ClampedArray]; a store outside the array
    is ignored. *)
Definition store (data : list Z) (idx : JS.num) (v : JS.num) : list Z :=
  match JS.to_index idx with
  | Some i => update data i (JS.to_uint8_clamp v)
  | None => data
  end.

(** [new Uint8ClampedArray(data)] *)
Definition Uint8ClampedArray_from (data : list Z) : list Z :=
  map (fun v => JS.to_uint8_clamp (JS.of_Z v)) data.

Definition n0 : JS.num := JS.of_Z 0.
Definition n1 : JS.num := JS.of_Z 1.
Definition n2 : JS.num := JS.of_Z 2.
Definition n4 : JS.num := JS.of_Z 4.
Definition n255 : JS.num := JS.of_Z 255.

Definition distributeError (data : list Z) (width height : JS.num)
    (x y errorR errorG errorB factor : JS.num) : list Z :=
  if ((x <? n0) || (x >=? width) || (y <? n0) || (y >=? height))%js then data
  else
    let idx := ((y * width + x) * n4)%js in
    let data := store data idx
      (JS.max n0 (JS.min n255 (load data idx + errorR * factor)%js)) in
    let data := store data (idx + n1)%js
      (JS.max n0 (JS.min n255 (load data (idx + n1) + errorG * factor)%js)) in
    store data (idx + n2)%js
      (JS.max n0 (JS.min n255 (load data (idx + n2) + errorB * factor)%js)).

Definition chunkSize : Z := 5.

(** The values taken by [y] in [for (let y = startY; y < endY; y++)], at
    most [n] of them. *)
Fixpoint rows (n : nat) (y : Z) (endY : JS.num) : list Z :=
  match n with
  | O => []
  | S n' => if (JS.of_Z y <? endY)%js then y :: rows n' (y + 1)%Z endY else []
  end.

(** The variables captured by [processChunk]. *)
Record State : Type := {
  workingData : list Z;
  stitches : list Stitch.t;
  colorCounts : Obj.t Usage.t;
  processed : Z;
  skipped : Z
}.

Section convertToPattern.

Variable DMC_COLORS : list DMC.t.
Variable imageData : Image.t.
Variable gridSize : nat.
Variable options : Options.t.

Definition width : JS.num := JS.of_nat (Image.width imageData).
Definition height : JS.num := JS.of_nat (Image.height imageData).
Definition aspectRatio : JS.num := (height / width)%js.
Definition gridWidth : JS.num := JS.of_nat gridSize.
Definition gridHeight : JS.num := JS.round (gridWidth * aspectRatio)%js.
Definition cellWidth : JS.num := (width / gridWidth)%js.
Definition cellHeight : JS.num := (height / gridHeight)%js.
Definition total : JS.num := (gridWidth * gridHeight)%js.

Definition initial : State :=
  {| workingData :=
       if Options.useDithering options
       then Uint8ClampedArray_from (Image.data imageData)
       else Image.data imageData;
     stitches := [];
     colorCounts := Obj.empty;
     processed := 0;
     skipped := 0 |}.

(** The dithering step after a stitch of colour [dmc] was made from the
    sample [(r, g, b)] at [(sampleX, sampleY)]. *)
Definition dither (data : list Z) (sampleX sampleY r g b : JS.num) (dmc : DMC.t)
  : list Z :=
  let errorR := (r - channel 1 3 (DMC.hex dmc))%js in
  let errorG := (g - channel 3 5 (DMC.hex dmc))%js in
  let errorB := (b - channel 5 7 (DMC.hex dmc))%js in
  let spread data x y factor :=
    distributeError data width height x y errorR errorG errorB factor in
  let sixteenth k := (JS.of_Z k / JS.of_Z 16)%js in
  let eighth := (n1 / JS.of_Z 8)%js in
  if String.eqb (Options.ditheringAlgorithm options) "floyd-steinberg" then
    let data := spread data (sampleX + n1)%js sampleY (sixteenth 7%Z) in
    let data := spread data (sampleX - n1)%js (sampleY + n1)%js (sixteenth 3%Z) in
    let data := spread data sampleX (sampleY + n1)%js (sixteenth 5%Z) in
    spread data (sampleX + n1)%js (sampleY + n1)%js (sixteenth 1%Z)
  else if String.eqb (Options.ditheringAlgorithm options) "atkinson" then
    let data := spread data (sampleX + n1)%js sampleY eighth in
    let data := spread data (sampleX + n2)%js sampleY eighth in
    let data := spread data (sampleX - n1)%js (sampleY + n1)%js eighth in
    let data := spread data sampleX (sampleY + n1)%js eighth in
    let data := spread data (sampleX + n1)%js (sampleY + n1)%js eighth in
    spread data sampleX (sampleY + n2)%js eighth
  else data.

(** [colorCounts[dmc.id] = colorCounts[dmc.id] || { ...dmc, count: 0 };
     colorCounts[dmc.id].count++] *)
Definition tally (dmc : DMC.t) (counts : Obj.t Usage.t) : option (Obj.t Usage.t) :=
  let entry :=
    match Obj.get (DMC.id dmc) counts with
    | Some u => u
    | None => {| Usage.color := dmc; Usage.count := 0 |}
    end in
  Obj.modify (DMC.id dmc) Usage.incr (Obj.set (DMC.id dmc) entry counts).

(** The body of the inner loop, for the cell [(x, y)]. *)
Definition cell (y : Z) (x : nat) (st : State) : option State :=
  let sampleX := JS.floor (JS.of_nat x * cellWidth + cellWidth / n2)%js in
  let sampleY := JS.floor (JS.of_Z y * cellHeight + cellHeight / n2)%js in
  let idx := ((sampleY * width + sampleX) * n4)%js in
  let r := load (workingData st) idx in
  let g := load (workingData st) (idx + n1)%js in
  let b := load (workingData st) (idx + n2)%js in
  let a := load (workingData st) (idx + JS.of_Z 3)%js in
  let skip :=
    match Options.backgroundColor options with
    | Some backgroundColor =>
        Options.removeBackground options
        && isSimilarColor {| RGB.r := r; RGB.g := g; RGB.b := b |}
             backgroundColor (Options.tolerance options)
    | None => false
    end in
  if (a >? JS.of_Z 128)%js then
    if skip then
      Some {| workingData := workingData st;
              stitches := stitches st;
              colorCounts := colorCounts st;
              processed := processed st + 1;
              skipped := skipped st + 1 |}
    else
      match findClosestDMC DMC_COLORS r g b with
      | None => None
      | Some dmc =>
          match tally dmc (colorCounts st) with
          | None => None
          | Some counts =>
              Some {| workingData :=
                        if Options.useDithering options
                        then dither (workingData st) sampleX sampleY r g b dmc
                        else workingData st;
                      stitches :=
                        stitches st ++
                        [{| Stitch.x := Z.of_nat x; Stitch.y := y; Stitch.color := dmc |}];
                      colorCounts := counts;
                      processed := processed st + 1;
                      skipped := skipped st |}
          end
      end
  else
    Some {| workingData := workingData st;
            stitches := stitches st;
            colorCounts := colorCounts st;
            processed := processed st + 1;
            skipped := skipped st |}.

(** One pass of the outer loop over the rows [startY <= y < endY]. *)
Definition sweep (startY : Z) (endY : JS.num) (st : State) : option State :=
  foldM (fun y => foldM (cell y) (seq 0 gridSize))
        (rows (Z.to_nat chunkSize) startY endY) st.

(** [processChunk(startY)] and the chunks it schedules, [fuel] animation
    frames being granted.  The second component of the result lists the
    arguments [onProgress] was called with, oldest first. *)
Fixpoint processChunk (fuel : nat) (startY : Z) (st : State) (reports : list JS.num)
  : outcome (Pattern.t * list JS.num) :=
  match fuel with
  | O => Pending
  | S fuel' =>
      let endY := JS.min (JS.of_Z (startY + chunkSize)) gridHeight in
      match sweep startY endY st with
      | None => Thrown
      | Some st' =>
          let reports' :=
            reports ++ [JS.round (JS.of_Z (processed st') / total * JS.of_Z 100)%js] in
          if (endY <? gridHeight)%js
          then processChunk fuel' (startY + chunkSize) st' reports'
          else Resolved ({| Pattern.stitches := stitches st';
                            Pattern.width := gridWidth;
                            Pattern.height := gridHeight;
                            Pattern.colorCounts := colorCounts st' |},
                         reports')
      end
  end.

Definition convertToPattern (fuel : nat) : outcome (Pattern.t * list JS.num) :=
  processChunk fuel 0 initial [].

End convertToPattern.

(* ================================================================= *)
(** ** patternGenerator.js: colour reduction *)

(** [arr.sort((a, b) => b.count - a.count)]: the sort of an array is
    stable, so the result is the one of a stable insertion sort. *)
Fixpoint insert_by_count (a : Usage.t) (l : list Usage.t) : list Usage.t :=
  match l with
  | [] => [a]
  | b :: l' =>
      if (Usage.count a <? Usage.count b)%Z
      then b :: insert_by_count a l'
      else a :: l
  end.

Definition sort_by_count (l : list Usage.t) : list Usage.t :=
  fold_right insert_by_count [] l.

(** [new Set(ids).has(id)] *)
Definition set_has (ids : list string) (id : string) : bool :=
  existsb (String.eqb id) ids.

(** The callback of [pattern.stitches.map] in [limitColors]; the state is
    [newColorCounts]. *)
Definition limit_stitch (topColors : list Usage.t) (topColorIds : list string)
    (stitch : Stitch.t) (newColorCounts : Obj.t Usage.t)
  : option (Stitch.t * Obj.t Usage.t) :=
  if set_has topColorIds (DMC.id (Stitch.color stitch)) then
    match Obj.modify (DMC.id (Stitch.color stitch)) Usage.incr newColorCounts with
    | Some counts => Some (stitch, counts)
    | None => None
    end
  else
    let r := channel 1 3 (DMC.hex (Stitch.color stitch)) in
    let g := channel 3 5 (DMC.hex (Stitch.color stitch)) in
    let b := channel 5 7 (DMC.hex (Stitch.color stitch)) in
    match closest Usage.hex r g b topColors with
    | None => None
    | Some closestColor =>
        match Obj.modify (Usage.id closestColor) Usage.incr newColorCounts with
        | Some counts =>
            Some ({| Stitch.x := Stitch.x stitch;
                     Stitch.y := Stitch.y stitch;
                     Stitch.color := Usage.color closestColor |}, counts)
        | None => None
        end
    end.

(** [{ ...c, count: 0 }] *)
Definition reset (c : Usage.t) : Usage.t :=
  {| Usage.color := Usage.color c; Usage.count := 0 |}.

(** [limitColors(pattern, maxColors)].  [pattern.colorCounts] is always an
    object here, so the test [!pattern.colorCounts] is false.  A replaced
    stitch receives the kept entry as its colour; the entry's [count]
    property is not part of a stitch colour and is left out. *)
Definition limitColors (pattern : Pattern.t) (maxColors : Z) : option Pattern.t :=
  if (maxColors <=? 0)%Z then Some pattern
  else
    let sortedColors := sort_by_count (Obj.values (Pattern.colorCounts pattern)) in
    if (Z.of_nat (List.length sortedColors) <=? maxColors)%Z then Some pattern
    else
      let topColors := firstn (Z.to_nat maxColors) sortedColors in
      let topColorIds := map Usage.id topColors in
      let newColorCounts :=
        fold_left (fun counts c => Obj.set (Usage.id c) (reset c) counts)
                  topColors Obj.empty in
      match mapM (limit_stitch topColors topColorIds)
                 (Pattern.stitches pattern) newColorCounts with
      | Some (newStitches, newColorCounts) =>
          Some {| Pattern.stitches := newStitches;
                  Pattern.width := Pattern.width pattern;
                  Pattern.height := Pattern.height pattern;
                  Pattern.colorCounts := newColorCounts |}
      | None => None
      end.

(** An element of [colorGroups]. *)
Module Group.
Record t : Type := {
  representative : RGB.t;
  colors : list Usage.t;
  totalCount : Z
}.
End Group.

(** The search of the inner loop of [mergeColors]: the first group whose
    representative is similar takes the colour. *)
Fixpoint join (rgb : RGB.t) (color : Usage.t) (mergeTolerance : JS.num)
    (groups : list Group.t) : option (list Group.t) :=
  match groups with
  | [] => None
  | group :: groups' =>
      if isSimilarColor rgb (Group.representative group) mergeTolerance
      then Some ({| Group.representative := Group.representative group;
                    Group.colors := Group.colors group ++ [color];
                    Group.totalCount := Group.totalCount group + Usage.count color |}
                 :: groups')
      else match join rgb color mergeTolerance groups' with
           | Some groups'' => Some (group :: groups'')
           | None => None
           end
  end.

Definition rgb_of (color : Usage.t) : RGB.t :=
  {| RGB.r := channel 1 3 (Usage.hex color);
     RGB.g := channel 3 5 (Usage.hex color);
     RGB.b := channel 5 7 (Usage.hex color) |}.

(** The body of [for (const color of colors)]. *)
Definition group_color (mergeTolerance : JS.num) (groups : list Group.t)
    (color : Usage.t) : list Group.t :=
  match join (rgb_of color) color mergeTolerance groups with
  | Some groups' => groups'
  | None =>
      groups ++ [{| Group.representative := rgb_of color;
                    Group.colors := [color];
                    Group.totalCount := Usage.count color |}]
  end.

Definition colorGroups (mergeTolerance : JS.num) (colors : list Usage.t)
  : list Group.t :=
  fold_left (group_color mergeTolerance) colors [].

(** [colors.reduce((prev, curr) => curr.count > prev.count ? curr : prev)];
    a [TypeError] on an empty array. *)
Definition most_used (colors : list Usage.t) : option Usage.t :=
  match colors with
  | [] => None
  | first :: rest =>
      Some (fold_left
              (fun prev curr =>
                 if (Usage.count curr >? Usage.count prev)%Z then curr else prev)
              rest first)
  end.

(** The body of [for (const group of colorGroups)]; the state is
    [colorMapping] and [newColorCounts]. *)
Definition map_group (group : Group.t)
    (st : Obj.t Usage.t * Obj.t Usage.t) : option (Obj.t Usage.t * Obj.t Usage.t) :=
  match most_used (Group.colors group) with
  | None => None
  | Some representative =>
      let colorMapping :=
        fold_left (fun m color => Obj.set (Usage.id color) representative m)
                  (Group.colors group) (fst st) in
      Some (colorMapping,
            Obj.set (Usage.id representative) (reset representative) (snd st))
  end.

(** The callback of [pattern.stitches.map] in [mergeColors]. *)
Definition merge_stitch (colorMapping : Obj.t Usage.t) (stitch : Stitch.t)
    (newColorCounts : Obj.t Usage.t) : option (Stitch.t * Obj.t Usage.t) :=
  match Obj.get (DMC.id (Stitch.color stitch)) colorMapping with
  | None => None
  | Some newColor =>
      match Obj.modify (Usage.id newColor) Usage.incr newColorCounts with
      | Some counts =>
          Some ({| Stitch.x := Stitch.x stitch;
                   Stitch.y := Stitch.y stitch;
                   Stitch.color := Usage.color newColor |}, counts)
      | None => None
      end
  end.

(** [mergeColors(pattern, mergeTolerance)], with the same reading of
    [!pattern.colorCounts] and of the colour given to a stitch. *)
Definition mergeColors (pattern : Pattern.t) (mergeTolerance : JS.num)
  : option Pattern.t :=
  if (mergeTolerance <=? n0)%js then Some pattern
  else
    let colors := Obj.values (Pattern.colorCounts pattern) in
    if (List.length colors <=? 1)%nat then Some pattern
    else
      match foldM map_group (colorGroups mergeTolerance colors)
                  (Obj.empty, Obj.empty) with
      | None => None
      | Some (colorMapping, newColorCounts) =>
          match mapM (merge_stitch colorMapping)
                     (Pattern.stitches pattern) newColorCounts with
          | Some (newStitches, newColorCounts) =>
              Some {| Pattern.stitches := newStitches;
                      Pattern.width := Pattern.width pattern;
                      Pattern.height := Pattern.height pattern;
                      Pattern.colorCounts := newColorCounts |}
          | None => None
          end
      end.

(* ================================================================= *)
(** ** patternGenerator.js: shape masks *)

Section applyShapeMask.

Variable M : Math.t.

(** The predicate handed to [stitches.filter]. *)
Definition inside (width height : JS.num) (shape : string) (stitch : Stitch.t)
  : bool :=
  let centerX := (width / n2)%js in
  let centerY := (height / n2)%js in
  let x := JS.of_Z (Stitch.x stitch) in
  let y := JS.of_Z (Stitch.y stitch) in
  let dx := ((x - centerX) / (width / n2))%js in
  let dy := ((y - centerY) / (height / n2))%js in
  if String.eqb shape "circle" then
    JS.root_le (JS.Sqrt (dx * dx + dy * dy)%js) n1
  else if String.eqb shape "oval" then
    JS.root_le (JS.Sqrt (dx * dx + dy * dy)%js) n1
  else if String.eqb shape "heart" then
    let t := Math.atan2 M dy dx in
    let r := JS.Sqrt (dx * dx + dy * dy)%js in
    let heartR :=
      JS.abs (Math.sin M t * Math.cos M t * Math.log M (JS.abs t)
              / JS.Fin (5 # 2))%js in
    JS.root_le r (JS.Fin (4 # 5) + heartR)%js
  else if String.eqb shape "diamond" then
    (JS.abs dx + JS.abs dy <=? n1)%js
  else if String.eqb shape "star" then
    let angle := Math.atan2 M dy dx in
    let radius := JS.Sqrt (dx * dx + dy * dy)%js in
    let pointAngle :=
      JS.rem (angle + Math.PI M)%js (n2 * Math.PI M / JS.of_Z 5)%js in
    let starRadius :=
      (JS.Fin (1 # 2) + JS.Fin (1 # 2) * Math.cos M (JS.of_Z 5 * pointAngle))%js in
    JS.root_le radius starRadius
  else true.

(** The body of the loop that recalculates the colour counts. *)
Definition recount (stitch : Stitch.t) (newColorCounts : Obj.t Usage.t)
  : option (Obj.t Usage.t) :=
  let colorId := DMC.id (Stitch.color stitch) in
  let counts :=
    if Obj.has colorId newColorCounts then newColorCounts
    else Obj.set colorId
           {| Usage.color := Stitch.color stitch; Usage.count := 0 |}
           newColorCounts in
  Obj.modify colorId Usage.incr counts.

(** [applyShapeMask(pattern, shape)]; the only falsy string is the empty
    one. *)
Definition applyShapeMask (pattern : Pattern.t) (shape : string)
  : option Pattern.t :=
  if String.eqb shape "rectangle" || String.eqb shape "" then Some pattern
  else
    let filteredStitches :=
      filter (inside (Pattern.width pattern) (Pattern.height pattern) shape)
             (Pattern.stitches pattern) in
    match foldM recount filteredStitches Obj.empty with
    | Some newColorCounts =>
        Some {| Pattern.stitches := filteredStitches;
                Pattern.width := Pattern.width pattern;
                Pattern.height := Pattern.height pattern;
                Pattern.colorCounts := newColorCounts |}
    | None => None
    end.

End applyShapeMask.

(* ================================================================= *)
(** ** colorUtils.js: hex strings *)

Definition is_hex (c : ascii) : bool :=
  match Str.hex_digit c with Some _ => true | None => false end.

(** [hexToRgb(hex)]: the match of
    [/^#?([a-f\d]{2})([a-f\d]{2})([a-f\d]{2})$/i], or [null]. *)
Definition hexToRgb (hex : string) : option RGB.t :=
  let body :=
    match hex with
    | String c t => if Ascii.eqb c "#" then t else hex
    | EmptyString => hex
    end in
  match body with
  | String c1 (String c2 (String c3 (String c4 (String c5 (String c6 EmptyString))))) =>
      if forallb is_hex [c1; c2; c3; c4; c5; c6] then
        Some {| RGB.r := Str.parseInt16 (String c1 (String c2 EmptyString));
                RGB.g := Str.parseInt16 (String c3 (String c4 EmptyString));
                RGB.b := Str.parseInt16 (String c5 (String c6 EmptyString)) |}
      else None
  | _ => None
  end.

(** [rgbToHex(r, g, b)] on integers:
    ["#" + ((1 << 24) + (r << 16) + (g << 8) + b).toString(16).slice(1).toUpperCase()] *)
Definition rgbToHex (r g b : Z) : string :=
  String "#"
    (Str.toUpperCase
       (Str.tail (Str.of_Z 16 (JS.shl 1 24 + JS.shl r 16 + JS.shl g 8 + b)%Z))).

(* ================================================================= *)
(** ** patternGenerator.js: background detection *)

(** A sample position, [{ x, y }]. *)
Module Point.
Record t : Type := { x : JS.num; y : JS.num }.
End Point.

(** An element of the [colorGroups] of [detectBackgroundColor],
    [{ color, count }]. *)
Module Vote.
Record t : Type := { color : RGB.t; count : Z }.
End Vote.

(** [arr.sort((a, b) => key(b) - key(a))] on integer keys: a stable sort
    in descending order. *)
Fixpoint insert_desc {A : Type} (key : A -> Z) (a : A) (l : list A) : list A :=
  match l with
  | [] => [a]
  | b :: l' =>
      if (key a <? key b)%Z then b :: insert_desc key a l' else a :: l
  end.

Definition sort_desc {A : Type} (key : A -> Z) (l : list A) : list A :=
  fold_right (insert_desc key) [] l.

Definition tenths : list Z := [1; 2; 3; 4; 5; 6; 7; 8; 9]%Z.

(** The inner loop over the groups: the first group whose colour is
    similar to the sample counts it. *)
Fixpoint vote (sample : RGB.t) (tolerance : JS.num) (groups : list Vote.t)
  : option (list Vote.t) :=
  match groups with
  | [] => None
  | group :: groups' =>
      if isSimilarColor sample (Vote.color group) tolerance
      then Some ({| Vote.color := Vote.color group;
                    Vote.count := Vote.count group + 1 |} :: groups')
      else match vote sample tolerance groups' with
           | Some groups'' => Some (group :: groups'')
           | None => None
           end
  end.

(** The body of [for (const sample of samples)]. *)
Definition count_sample (tolerance : JS.num) (groups : list Vote.t)
    (sample : RGB.t) : list Vote.t :=
  match vote sample tolerance groups with
  | Some groups' => groups'
  | None => groups ++ [{| Vote.color := sample; Vote.count := 1 |}]
  end.

Section detectBackgroundColor.

Variable imageData : Image.t.

Local Abbreviation data := (Image.data imageData).
Local Abbreviation width := (width imageData).
Local Abbreviation height := (height imageData).

(** The four corners and the four edge midpoints, then the points at
    every tenth of the four edges.  By the convention on numbers the
    products [width * offset] are exact; binary64 rounds [i / 10] before
    the product, and where the exact product is a whole number (a width
    of 90 and [i = 7], say) the code can floor to the pixel before the
    one listed here, on the same edge. *)
Definition positions : list Point.t :=
  [ {| Point.x := n0; Point.y := n0 |};
    {| Point.x := (width - n1)%js; Point.y := n0 |};
    {| Point.x := n0; Point.y := (height - n1)%js |};
    {| Point.x := (width - n1)%js; Point.y := (height - n1)%js |};
    {| Point.x := JS.floor (width / n2)%js; Point.y := n0 |};
    {| Point.x := JS.floor (width / n2)%js; Point.y := (height - n1)%js |};
    {| Point.x := n0; Point.y := JS.floor (height / n2)%js |};
    {| Point.x := (width - n1)%js; Point.y := JS.floor (height / n2)%js |} ]
  ++ flat_map
       (fun i =>
          let offset := (JS.of_Z i / JS.of_Z 10)%js in
          [ {| Point.x := JS.floor (width * offset)%js; Point.y := n0 |};
            {| Point.x := JS.floor (width * offset)%js; Point.y := (height - n1)%js |};
            {| Point.x := n0; Point.y := JS.floor (height * offset)%js |};
            {| Point.x := (width - n1)%js; Point.y := JS.floor (height * offset)%js |} ])
       tenths.

(** The colour read at a position. *)
Definition sample_at (pos : Point.t) : RGB.t :=
  let idx := ((Point.y pos * width + Point.x pos) * n4)%js in
  {| RGB.r := load data idx;
     RGB.g := load data (idx + n1)%js;
     RGB.b := load data (idx + n2)%js |}.

Definition samples : list RGB.t := map sample_at positions.

(** The groups of similar samples, before they are sorted. *)
Definition edge_groups : list Vote.t :=
  fold_left (count_sample (JS.of_Z 20)) samples [].

(** [colorGroups[0].color] after the sort; a [TypeError] if there is no
    group. *)
Definition detectBackgroundColor : option RGB.t :=
  match sort_desc Vote.count edge_groups with
  | group :: _ => Some (Vote.color group)
  | [] => None
  end.

End detectBackgroundColor.

(* ================================================================= *)
(** ** patternGenerator.js: statistics, shopping list and symbols *)

(** The result of [calculatePatternStats]. *)
Module Stats.
Record t : Type := {
  difficulty : string;
  estimatedHours : string;
  timeEstimate : string;
  stitchesPerHour : JS.num
}.
End Stats.

Section calculatePatternStats.

Variables stitchCount colorCount : JS.num.

Definition stitchesPerHour : JS.num := JS.of_Z 250.
Definition estimatedHours : JS.num := (stitchCount / stitchesPerHour)%js.

Definition difficultyScore : JS.num :=
  let difficultyScore := n0 in
  let difficultyScore :=
    if (stitchCount <? JS.of_Z 2000)%js then (difficultyScore + n1)%js
    else if (stitchCount <? JS.of_Z 5000)%js then (difficultyScore + n2)%js
    else if (stitchCount <? JS.of_Z 10000)%js then (difficultyScore + JS.of_Z 3)%js
    else if (stitchCount <? JS.of_Z 20000)%js then (difficultyScore + n4)%js
    else (difficultyScore + JS.of_Z 5)%js in
  if (colorCount >? JS.of_Z 30)%js then (difficultyScore + n2)%js
  else if (colorCount >? JS.of_Z 20)%js then (difficultyScore + n1)%js
  else difficultyScore.

Definition difficulty : string :=
  if (difficultyScore <=? n2)%js then "Beginner"
  else if (difficultyScore <=? n4)%js then "Easy"
  else if (difficultyScore <=? JS.of_Z 6)%js then "Intermediate"
  else if (difficultyScore <=? JS.of_Z 8)%js then "Advanced"
  else "Expert".

Definition timeEstimate : string :=
  if (estimatedHours <? n1)%js then
    (Str.of_num (JS.round (estimatedHours * JS.of_Z 60)%js) ++ " minutes")%string
  else if (estimatedHours <? JS.of_Z 10)%js then
    (Str.toFixed1 estimatedHours ++ " hours")%string
  else
    let days := JS.floor (estimatedHours / JS.of_Z 8)%js in
    let remainingHours := JS.round (JS.rem estimatedHours (JS.of_Z 8)) in
    if JS.eq days n0 then
      (Str.of_num (JS.round estimatedHours) ++ " hours")%string
    else if JS.eq remainingHours n0 then
      (Str.of_num days ++ " " ++ (if JS.eq days n1 then "day" else "days"))%string
    else
      (Str.of_num days ++ " " ++ (if JS.eq days n1 then "day" else "days")
       ++ ", " ++ Str.of_num remainingHours ++ " hrs")%string.

Definition calculatePatternStats : Stats.t :=
  {| Stats.difficulty := difficulty;
     Stats.estimatedHours := Str.toFixed1 estimatedHours;
     Stats.timeEstimate := timeEstimate;
     Stats.stitchesPerHour := stitchesPerHour |}.

End calculatePatternStats.

(** An entry of the shopping list. *)
Module Item.
Record t : Type := {
  dmcNumber : string;
  name : string;
  hex : string;
  stitches : Z;
  skeinsNeeded : JS.num
}.
End Item.

Definition stitchesPerSkein : JS.num := JS.of_Z 1600.

(** The callback of [Object.values(colorCounts).map]. *)
Definition shopping_item (color : Usage.t) : Item.t :=
  {| Item.dmcNumber := Usage.id color;
     Item.name := DMC.name (Usage.color color);
     Item.hex := Usage.hex color;
     Item.stitches := Usage.count color;
     Item.skeinsNeeded := JS.ceil (JS.of_Z (Usage.count color) / stitchesPerSkein)%js |}.

Definition generateThreadShoppingList (colorCounts : Obj.t Usage.t) : list Item.t :=
  sort_desc Item.stitches (map shopping_item (Obj.values colorCounts)).

(** [STITCH_SYMBOLS]: each symbol is a string of one UTF-16 code unit and
    is kept as that code unit. *)
Definition STITCH_SYMBOLS : list N :=
  [0x2022; 0x25cb; 0x25a0; 0x25a1; 0x25b2; 0x25b3; 0x25bc; 0x25bd; 0x25c6; 0x25c7;
   0x2605; 0x2606; 0x25cf; 0x25d0; 0x25d1; 0x25d2; 0x25d3; 0x2660; 0x2663; 0x2665;
   0x2666; 0x2295; 0x2297; 0x2299; 0x229a; 0x229b; 0x229c; 0x229d; 0x229e; 0x229f;
   0x22a0; 0x22a1; 0x25aa; 0x25ab; 0x25ac; 0x25ad; 0x25ae; 0x25af; 0x25ca; 0x25c8;
   0x25c9; 0x25ce; 0x25ef; 0x25ec; 0x25ed; 0x25ee; 0x25f0; 0x25f1; 0x25f2; 0x25f3;
   0x25f4; 0x25f5; 0x25f6; 0x25f7; 0x2600; 0x2601; 0x2602; 0x2603; 0x2604; 0x2609;
   0x263c; 0x263d; 0x263e; 0x2640; 0x2642; 0x266a; 0x266b; 0x2713; 0x2717; 0x271a;
   0x271b; 0x271c; 0x271d; 0x271e; 0x271f; 0x2720; 0x2721; 0x2722; 0x2723; 0x2724]%N.

(** The symbol [STITCH_SYMBOLS[index % STITCH_SYMBOLS.length]]. *)
Definition symbol_at (index : nat) : N :=
  nth (index mod List.length STITCH_SYMBOLS) STITCH_SYMBOLS 0%N.

(** The callback of [sortedColors.forEach((color, index) => ...)], with
    the index of the next call carried along. *)
Definition assign_symbol (st : Obj.t N * nat) (color : Usage.t) : Obj.t N * nat :=
  (Obj.set (Usage.id color) (symbol_at (snd st)) (fst st), S (snd st)).

Definition assignSymbolsToColors (colorCounts : Obj.t Usage.t) : Obj.t N :=
  let sortedColors := sort_by_count (Obj.values colorCounts) in
  fst (fold_left assign_symbol sortedColors (Obj.empty, O)).

(* ================================================================= *)
(** ** App.js: from the conversion to the displayed pattern *)

(** The settings of [App] read by the callback that receives the result
    of [convertToPattern]. *)
Module Settings.
Record t : Type := {
  useMaxColors : bool;
  maxColors : Z;
  useMergeColors : bool;
  mergeTolerance : JS.num;
  patternShape : string
}.
End Settings.

(** [finalResult], as that callback computes it from [result]. *)
Definition finalResult (M : Math.t) (settings : Settings.t) (result : Pattern.t)
  : option Pattern.t :=
  match (if Settings.useMaxColors settings
         then limitColors result (Settings.maxColors settings)
         else Some result) with
  | None => None
  | Some limited =>
      match (if Settings.useMergeColors settings
             then mergeColors limited (Settings.mergeTolerance settings)
             else Some limited) with
      | None => None
      | Some merged =>
          if negb (String.eqb (Settings.patternShape settings) "rectangle")
          then applyShapeMask M merged (Settings.patternShape settings)
          else Some merged
      end
  end.

(* ================================================================= *)
(** ** Notions used by the properties *)

Definition stitch_id (s : Stitch.t) : string := DMC.id (Stitch.color s).

(** Number of stitches whose colour has the given id. *)
Definition count_id (id : string) (ss : list Stitch.t) : Z :=
  Z.of_nat (List.length (filter (fun s => String.eqb id (stitch_id s)) ss)).

(** Sum of the [count] fields of [Object.values(counts)]. *)
Definition sum_counts (counts : Obj.t Usage.t) : Z :=
  fold_right Z.add 0%Z (map Usage.count (Obj.values counts)).

(** The invariant that ties the stitches of a pattern to its colour
    counts. *)
Definition palette_coverage (p : Pattern.t) : Prop :=
  (forall s, In s (Pattern.stitches p) ->
     Obj.has (stitch_id s) (Pattern.colorCounts p) = true) /\
  (forall id u, Obj.get id (Pattern.colorCounts p) = Some u ->
     Usage.count u = count_id id (Pattern.stitches p)) /\
  sum_counts (Pattern.colorCounts p) = Z.of_nat (List.length (Pattern.stitches p)).

(** The same invariant on the variables of a conversion under way. *)
Definition tallied (ss : list Stitch.t) (counts : Obj.t Usage.t) : Prop :=
  Obj.wf counts /\
  (forall s, In s ss -> Obj.has (stitch_id s) counts = true) /\
  (forall id u, Obj.get id counts = Some u -> Usage.count u = count_id id ss).

Definition coords (s : Stitch.t) : Z * Z := (Stitch.x s, Stitch.y s).

(** The pattern [processChunk] resolves with from a final state. *)
Definition pattern_of (gridWidth gridHeight : JS.num) (st : State) : Pattern.t :=
  {| Pattern.stitches := stitches st;
     Pattern.width := gridWidth;
     Pattern.height := gridHeight;
     Pattern.colorCounts := colorCounts st |}.

(** A callback of [stitches.map] that keeps the coordinates of the stitch
    and counts the stitch it returns. *)
Definition reassigns (f : Stitch.t -> Obj.t Usage.t -> option (Stitch.t * Obj.t Usage.t))
  : Prop :=
  forall a s b s', f a s = Some (b, s') ->
    Obj.modify (stitch_id b) Usage.incr s = Some s' /\ coords b = coords a.

(** An object of counts that are all zero. *)
Definition zeroed (counts : Obj.t Usage.t) : Prop :=
  forall k u, Obj.get k counts = Some u -> Usage.count u = 0%Z.

(** Every value of the object is stored under its own id. *)
Definition keyed_by_id (counts : Obj.t Usage.t) : Prop :=
  forall k u, In (k, u) counts -> Usage.id u = k.

(** All the colours of a list of groups, group after group. *)
Definition members (groups : list Group.t) : list Usage.t :=
  List.concat (map Group.colors groups).



(** [c], found after [pre] and before [post], is the first element of
    least [q]. *)
Definition first_min {A : Type} (q : A -> Q) (pre : list A) (c : A) (post : list A)
  : Prop :=
  (forall e, In e (pre ++ c :: post) -> (q c <= q e)%Q) /\
  (forall e, In e pre -> (q c < q e)%Q).

(** A [hex] string whose three channels parse. *)
Definition valid_hex (hex : string) : bool :=
  negb (JS.is_nan (channel 1 3 hex)) &&
  negb (JS.is_nan (channel 3 5 hex)) &&
  negb (JS.is_nan (channel 5 7 hex)).

(** The integer a channel parses to. *)
Definition channel_value (a b : nat) (hex : string) : Z :=
  match channel a b hex with
  | JS.Fin q => Qfloor q
  | _ => 0%Z
  end.

(** The weighted distance of the specification, between the colour
    written [hex] and the integers [(r, g, b)]. *)
Definition weighted_distance (hex : string) (r g b : Z) : Q :=
  let dr := inject_Z (channel_value 1 3 hex - r) in
  let dg := inject_Z (channel_value 3 5 hex - g) in
  let db := inject_Z (channel_value 5 7 hex - b) in
  (dr * dr * (3 # 10) + dg * dg * (59 # 100) + db * db * (11 # 100))%Q.

(** Numbers that are integers when they are finite. *)
Definition intlike (a : JS.num) : Prop :=
  match a with JS.Fin q => exists z, a = JS.of_Z z | _ => True end.

(** Numbers of the form [4 z + c] when they are finite. *)
Definition offset4 (c : Z) (a : JS.num) : Prop :=
  match a with JS.Fin q => exists z, a = JS.of_Z (4 * z + c) | _ => True end.

(** Two buffers that agree on every alpha sample. *)
Definition same_alpha (d1 d2 : list Z) : Prop :=
  List.length d1 = List.length d2 /\
  forall i, (i mod 4 = 3)%nat -> nth_error d1 i = nth_error d2 i.

(** The same options with background removal switched off. *)
Definition without_background (o : Options.t) : Options.t :=
  {| Options.removeBackground := false;
     Options.backgroundColor := Options.backgroundColor o;
     Options.tolerance := Options.tolerance o;
     Options.useDithering := Options.useDithering o;
     Options.ditheringAlgorithm := Options.ditheringAlgorithm o |}.

(** A state of the run with background removal against a state of the
    run without: same alpha samples, no more stitches. *)
Definition fewer (st1 st2 : State) : Prop :=
  same_alpha (workingData st1) (workingData st2) /\
  (List.length (stitches st1) <= List.length (stitches st2))%nat.

(** The nearest integer to [a / b], halves upwards, for [b > 0]. *)
Definition nearest (a b : Z) : Z := ((2 * a + b) / (2 * b))%Z.

(** The percentage reported for [p] cells out of [t]. *)
Definition pct (p t : Z) : Z := nearest (100 * p) t.

(** The values the host must give to the functions of [Math] at the
    arguments met on the positive horizontal axis:
    [atan2(0, x) = 0] for [x > 0], [sin(0) = 0], [cos(0) = 1] and
    [log(0) = -Infinity]. *)
Definition special_values (M : Math.t) : Prop :=
  (forall q, (0 < q)%Q -> Math.atan2 M (JS.Fin 0) (JS.Fin q) = JS.Fin 0) /\
  Math.sin M (JS.Fin 0) = JS.Fin 0 /\
  Math.cos M (JS.Fin 0) = JS.Fin 1 /\
  Math.log M (JS.Fin 0) = JS.NInf.

(* ================================================================= *)
(** ** Sample data *)

Definition red : DMC.t := {| DMC.id := "321"; DMC.hex := "#FF0000"; DMC.name := "Red" |}.
Definition rose : DMC.t := {| DMC.id := "666"; DMC.hex := "#FA0505"; DMC.name := "Bright Red" |}.
Definition blue : DMC.t := {| DMC.id := "B5200"; DMC.hex := "#0000FF"; DMC.name := "Blue" |}.

Definition sample_palette : list DMC.t := [red; rose; blue].

Definition plain_options : Options.t :=
  {| Options.removeBackground := false;
     Options.backgroundColor := None;
     Options.tolerance := JS.of_Z 30;
     Options.useDithering := false;
     Options.ditheringAlgorithm := "floyd-steinberg" |}.

(** Dithering, and removal of a blue background. *)
Definition removal_options : Options.t :=
  {| Options.removeBackground := true;
     Options.backgroundColor :=
       Some {| RGB.r := JS.of_Z 0; RGB.g := JS.of_Z 0; RGB.b := JS.of_Z 250 |};
     Options.tolerance := JS.of_Z 30;
     Options.useDithering := true;
     Options.ditheringAlgorithm := "floyd-steinberg" |}.

(** One column of six pixels, red and blue, the last one transparent. *)
Definition column_image : Image.t :=
  {| Image.data := [250; 4; 4; 255;  0; 0; 255; 255;  255; 0; 0; 255;
                    0; 0; 250; 255;  252; 3; 3; 255;  255; 0; 0; 100]%Z;
     Image.width := 1;
     Image.height := 6 |}.



Definition stitch_at (x y : Z) (c : DMC.t) : Stitch.t :=
  {| Stitch.x := x; Stitch.y := y; Stitch.color := c |}.

Definition used (c : DMC.t) (n : Z) : string * Usage.t :=
  (DMC.id c, {| Usage.color := c; Usage.count := n |}).

(** Three colours: the two reds are close to each other, the blue is far
    from both; the second red is the more used one. *)
Definition sample_pattern : Pattern.t :=
  {| Pattern.stitches :=
       [stitch_at 0 0 red; stitch_at 1 0 rose; stitch_at 2 0 blue;
        stitch_at 0 1 rose; stitch_at 1 1 red; stitch_at 2 1 rose]%Z;
     Pattern.width := JS.of_Z 3;
     Pattern.height := JS.of_Z 2;
     Pattern.colorCounts := [used red 2; used rose 3; used blue 1]%Z |}.

(** A 4 x 4 pattern with one stitch on the horizontal axis, right of the
    centre. *)
Definition axis_pattern : Pattern.t :=
  {| Pattern.stitches := [stitch_at 3 2 red]%Z;
     Pattern.width := JS.of_Z 4;
     Pattern.height := JS.of_Z 4;
     Pattern.colorCounts := [used red 1]%Z |}.

(** A host whose functions take the special values and are otherwise
    left flat. *)
Definition flat_math : Math.t :=
  {| Math.atan2 := fun _ _ => JS.Fin 0;
     Math.sin := fun _ => JS.Fin 0;
     Math.cos := fun _ => JS.Fin 1;
     Math.log := fun _ => JS.NInf;
     Math.PI := JS.Fin (355 # 113) |}.

(* ================================================================= *)
(** ** Further notions *)


(** The colours [limitColors] keeps: the [maxColors] most used ones. *)
Definition topColors (p : Pattern.t) (maxColors : Z) : list Usage.t :=
  firstn (Z.to_nat maxColors) (sort_by_count (Obj.values (Pattern.colorCounts p))).





(** Row-major order on the cells [(x, y)] of a grid. *)
Definition before (c1 c2 : Z * Z) : Prop :=
  (snd c1 < snd c2)%Z \/ (snd c1 = snd c2 /\ (fst c1 < fst c2)%Z).

(** The cells of a grid of [h] rows, row after row. *)
Definition grid_row (gridSize : nat) (y : Z) : list (Z * Z) :=
  map (fun x => (Z.of_nat x, y)) (seq 0 gridSize).

Definition grid_cells (gridSize : nat) (h : Z) : list (Z * Z) :=
  flat_map (fun y => grid_row gridSize (Z.of_nat y)) (seq 0 (Z.to_nat h)).

(** The index [idx] of the sample [convertToPattern] takes for the cell
    [(x, y)]: the pixel under the centre of the cell.  The centre is
    computed exactly, by the convention on numbers; where it falls on
    the boundary of two pixels, binary64 can round it into the pixel
    before. *)
Definition cell_index (imageData : Image.t) (gridSize : nat) (x y : Z) : JS.num :=
  let sampleX :=
    JS.floor (JS.of_Z x * cellWidth imageData gridSize
              + cellWidth imageData gridSize / n2)%js in
  let sampleY :=
    JS.floor (JS.of_Z y * cellHeight imageData gridSize
              + cellHeight imageData gridSize / n2)%js in
  ((sampleY * width imageData + sampleX) * n4)%js.

(** The colour stored at an index of a buffer. *)
Definition pixel (data : list Z) (idx : JS.num) : RGB.t :=
  {| RGB.r := load data idx;
     RGB.g := load data (idx + n1)%js;
     RGB.b := load data (idx + n2)%js |}.

(** The test [a > 128] on the sample at an index. *)
Definition opaque (data : list Z) (idx : JS.num) : bool :=
  (load data (idx + JS.of_Z 3) >? JS.of_Z 128)%js.

(** The test that makes [convertToPattern] skip a sample as background. *)
Definition is_background (options : Options.t) (c : RGB.t) : bool :=
  match Options.backgroundColor options with
  | Some backgroundColor =>
      Options.removeBackground options
      && isSimilarColor c backgroundColor (Options.tolerance options)
  | None => false
  end.

(** The cells of the image that get a stitch. *)
Definition stitched (imageData : Image.t) (gridSize : nat) (options : Options.t)
    (c : Z * Z) : bool :=
  let idx := cell_index imageData gridSize (fst c) (snd c) in
  opaque (Image.data imageData) idx
  && negb (is_background options (pixel (Image.data imageData) idx)).

(** A buffer of [width * height] pixels of four samples. *)
Definition well_formed (imageData : Image.t) : Prop :=
  (1 <= Image.width imageData)%nat /\ (1 <= Image.height imageData)%nat /\
  List.length (Image.data imageData)
    = (4 * Image.width imageData * Image.height imageData)%nat.

(** Every alpha sample of the buffer satisfies [P]. *)
Definition alpha_all (P : Z -> Prop) (data : list Z) : Prop :=
  forall i v, (i mod 4 = 3)%nat -> nth_error data i = Some v -> P v.

(** The stitches made so far lie in the grid, in row-major order, before
    the cell [(x0, y0)]. *)
Definition placed (imageData : Image.t) (gridSize : nat) (x0 y0 : Z) (st : State)
  : Prop :=
  StronglySorted before (map coords (stitches st)) /\
  forall s, In s (stitches st) ->
    (0 <= Stitch.x s < Z.of_nat gridSize)%Z /\ (0 <= Stitch.y s)%Z /\
    JS.lt (JS.of_Z (Stitch.y s)) (gridHeight imageData gridSize) = true /\
    before (coords s) (x0, y0).


(** The colours in use all come from the table. *)
Definition from_table (DMC_COLORS : list DMC.t) (st : State) : Prop :=
  (forall s, In s (stitches st) -> In (Stitch.color s) DMC_COLORS) /\
  (forall k u, Obj.get k (colorCounts st) = Some u ->
     Usage.id u = k /\ In (Usage.color u) DMC_COLORS).

(** The cells [l] have been visited: the working copy still has the alpha
    samples of the buffer, it is the buffer when dithering is off, and the
    stitches made are those of the cells of [l] that get one. *)
Definition covered (imageData : Image.t) (gridSize : nat) (options : Options.t)
    (l : list (Z * Z)) (st : State) : Prop :=
  same_alpha (workingData st)
    (if Options.useDithering options
     then Uint8ClampedArray_from (Image.data imageData)
     else Image.data imageData) /\
  (Options.useDithering options = false ->
   workingData st = Image.data imageData) /\
  map coords (stitches st) = filter (stitched imageData gridSize options) l.

(** Background removal is off. *)
Definition keeps_background (options : Options.t) : Prop :=
  Options.removeBackground options = false \/
  Options.backgroundColor options = None.

(** A square of four opaque pixels: red, rose, blue, red. *)
Definition square_image : Image.t :=
  {| Image.data := [255; 0; 0; 255;  250; 5; 5; 255;
                    0; 0; 255; 200;  255; 0; 0; 129]%Z;
     Image.width := 2;
     Image.height := 2 |}.

(** Two pixels that are not opaque enough to be stitched. *)
Definition clear_image : Image.t :=
  {| Image.data := [255; 0; 0; 0;  0; 0; 255; 128]%Z;
     Image.width := 1;
     Image.height := 2 |}.

(** A sample of a [Uint8ClampedArray]. *)
Definition byte (v : Z) : Prop := (0 <= v <= 255)%Z.

(** The test that lets [distributeError] write: the pixel [(x, y)] is
    inside the image. *)
Definition inside_image (width height x y : JS.num) : bool :=
  negb ((x <? n0) || (x >=? width) || (y <? n0) || (y >=? height))%js.

(** A string without its leading ["#"], if it has one. *)
Definition hex_body (hex : string) : string :=
  match hex with
  | String c t => if Ascii.eqb c "#" then t else hex
  | EmptyString => hex
  end.

(** The colour of three integer channels. *)
Definition rgb (r g b : Z) : RGB.t :=
  {| RGB.r := JS.of_Z r; RGB.g := JS.of_Z g; RGB.b := JS.of_Z b |}.

(** A colour whose channels are finite numbers. *)
Definition finite_rgb (c : RGB.t) : Prop :=
  (exists x, RGB.r c = JS.Fin x) /\ (exists y, RGB.g c = JS.Fin y) /\
  (exists z, RGB.b c = JS.Fin z).

(** The pixel [(x, y)] lies on the border of the image. *)
Definition on_border (imageData : Image.t) (x y : nat) : Prop :=
  (x < Image.width imageData)%nat /\ (y < Image.height imageData)%nat /\
  (x = 0 \/ x = Image.width imageData - 1 \/
   y = 0 \/ y = Image.height imageData - 1)%nat.

(** The colour of the pixel [(x, y)] of an image. *)
Definition pixel_at (imageData : Image.t) (x y : nat) : RGB.t :=
  pixel (Image.data imageData) (JS.of_nat (4 * (y * Image.width imageData + x))).

(** [g], found after [pre] and before [post], is the first element of
    greatest key. *)
Definition first_max {A : Type} (key : A -> Z) (pre : list A) (g : A) (post : list A)
  : Prop :=
  (forall e, In e pre -> (key e < key g)%Z) /\
  (forall e, In e post -> (key e <= key g)%Z).

(** A sample position that is a pixel of the border. *)
Definition border_point (imageData : Image.t) (pos : Point.t) : Prop :=
  exists x y,
    on_border imageData x y /\
    pos = {| Point.x := JS.of_nat x; Point.y := JS.of_nat y |}.

(** Two pixels of one colour. *)
Definition plain_image : Image.t :=
  {| Image.data := [10; 20; 30; 255;  10; 20; 30; 0]%Z;
     Image.width := 2;
     Image.height := 1 |}.

(** The ratings of [calculatePatternStats], from the easiest on. *)
Definition difficulty_rank (difficulty : string) : Z :=
  if String.eqb difficulty "Beginner" then 0
  else if String.eqb difficulty "Easy" then 1
  else if String.eqb difficulty "Intermediate" then 2
  else if String.eqb difficulty "Advanced" then 3
  else 4.

(** No number occurs twice in the list. *)
Fixpoint distinct (l : list N) : bool :=
  match l with
  | [] => true
  | a :: l' => negb (existsb (N.eqb a) l') && distinct l'
  end.

(** Two entries whose [hex] fields hold the same three channels. *)
Definition same_channels (c d : DMC.t) : Prop :=
  channel_value 1 3 (DMC.hex c) = channel_value 1 3 (DMC.hex d) /\
  channel_value 3 5 (DMC.hex c) = channel_value 3 5 (DMC.hex d) /\
  channel_value 5 7 (DMC.hex c) = channel_value 5 7 (DMC.hex d).

(* ================================================================= *)
(** * Properties *)

(* ----------------------------------------------------------------- *)
(** ** Numbers *)

Lemma Qred_inject_Z (z : Z) : Qred (inject_Z z) = inject_Z z.
Proof. apply Qred_identity. simpl. apply Z.gcd_1_r. Qed.

Lemma fin_inject_Z (q : Q) (z : Z) : (q == inject_Z z)%Q -> JS.fin q = JS.of_Z z.
Proof.
  intros H. unfold JS.fin, JS.of_Z. f_equal.
  rewrite (Qred_complete _ _ H). apply Qred_inject_Z.
Qed.

Lemma add_of_Z (a b : Z) : JS.add (JS.of_Z a) (JS.of_Z b) = JS.of_Z (a + b).
Proof. simpl. apply fin_inject_Z. rewrite inject_Z_plus. reflexivity. Qed.

Lemma sub_of_Z (a b : Z) : JS.sub (JS.of_Z a) (JS.of_Z b) = JS.of_Z (a - b).
Proof.
  simpl. apply fin_inject_Z. unfold Z.sub. rewrite inject_Z_plus, inject_Z_opp. reflexivity.
Qed.

Lemma mul_of_Z (a b : Z) : JS.mul (JS.of_Z a) (JS.of_Z b) = JS.of_Z (a * b).
Proof. simpl. apply fin_inject_Z. rewrite inject_Z_mult. reflexivity. Qed.

Lemma Qltb_lt (x y : Q) : JS.Qltb x y = true <-> (x < y)%Q.
Proof.
  unfold JS.Qltb. rewrite Qlt_alt. destruct (x ?= y)%Q; split; congruence.
Qed.

Lemma Qltb_ge (x y : Q) : JS.Qltb x y = false <-> (y <= x)%Q.
Proof.
  unfold JS.Qltb.
  destruct (Qcompare_spec x y) as [H|H|H]; split; intros H0;
    try reflexivity; try discriminate.
  - rewrite H. apply Qle_refl.
  - exfalso. apply (Qlt_not_le _ _ H). exact H0.
  - apply Qlt_le_weak. exact H.
Qed.

Lemma lt_of_Z (a b : Z) : JS.lt (JS.of_Z a) (JS.of_Z b) = (a <? b)%Z.
Proof.
  simpl. destruct (Z.ltb_spec a b) as [H|H].
  - apply Qltb_lt. rewrite <- Zlt_Qlt. exact H.
  - apply Qltb_ge. rewrite <- Zle_Qle. exact H.
Qed.

Lemma le_of_Z (a b : Z) : JS.le (JS.of_Z a) (JS.of_Z b) = (a <=? b)%Z.
Proof.
  simpl. destruct (Z.leb_spec a b) as [H|H].
  - apply Qle_bool_iff. rewrite <- Zle_Qle. exact H.
  - apply not_true_is_false. rewrite Qle_bool_iff, <- Zle_Qle. lia.
Qed.

Lemma to_index_of_Z (z : Z) :
  JS.to_index (JS.of_Z z) = if (0 <=? z)%Z then Some (Z.to_nat z) else None.
Proof.
  unfold JS.to_index, JS.of_Z. rewrite Qfloor_Z.
  replace (Qeq_bool (inject_Z z) (inject_Z z)) with true
    by (symmetry; apply Qeq_bool_iff; reflexivity).
  simpl. destruct (Z.leb_spec 0 z) as [H|H].
  - replace (Qle_bool 0 (inject_Z z)) with true; [reflexivity|].
    symmetry. apply Qle_bool_iff. change 0%Q with (inject_Z 0). rewrite <- Zle_Qle. exact H.
  - replace (Qle_bool 0 (inject_Z z)) with false; [reflexivity|].
    symmetry. apply not_true_is_false. rewrite Qle_bool_iff.
    change 0%Q with (inject_Z 0). rewrite <- Zle_Qle. lia.
Qed.

(* ----------------------------------------------------------------- *)
(** ** Objects *)

Section ObjFacts.

Context {V : Type}.
Implicit Types (o : Obj.t V) (k : string) (v : V).

Lemma get_In k o v : Obj.get k o = Some v -> In (k, v) o.
Proof.
  induction o as [|[k' v'] o IH]; simpl; [discriminate|].
  destruct (String.eqb_spec k k') as [->|Hne]; intros H.
  - injection H as ->. now left.
  - right. auto.
Qed.

Lemma get_None k o : Obj.get k o = None <-> ~ In k (Obj.keys o).
Proof.
  induction o as [|[k' v'] o IH]; simpl.
  - tauto.
  - destruct (String.eqb_spec k k') as [->|Hne].
    + split; [discriminate|]. intros H. exfalso. apply H. now left.
    + rewrite IH. split; intros H; [intros [H1|H1]; [congruence|tauto]|tauto].
Qed.

Lemma has_In k o : Obj.has k o = true <-> In k (Obj.keys o).
Proof.
  unfold Obj.has. destruct (Obj.get k o) eqn:E.
  - split; [intros _|reflexivity]. apply get_In in E.
    apply (in_map fst) in E. exact E.
  - apply get_None in E. split; [discriminate|tauto].
Qed.

Lemma In_get k o v : Obj.wf o -> In (k, v) o -> Obj.get k o = Some v.
Proof.
  unfold Obj.wf. induction o as [|[k' v'] o IH]; simpl; [tauto|].
  intros Hnd [H|H].
  - injection H as -> ->. now rewrite String.eqb_refl.
  - inversion Hnd as [|? ? Hn Hnd']; subst.
    destruct (String.eqb_spec k k') as [->|Hne]; [|auto].
    exfalso. apply Hn. apply (in_map fst) in H. exact H.
Qed.

Lemma keys_replace k v o : Obj.keys (Obj.replace k v o) = Obj.keys o.
Proof.
  induction o as [|[k' v'] o IH]; simpl; [reflexivity|].
  destruct (String.eqb k k'); simpl; [reflexivity|]. now rewrite IH.
Qed.

Lemma get_replace_same k v o :
  Obj.get k (Obj.replace k v o) = match Obj.get k o with Some _ => Some v | None => None end.
Proof.
  induction o as [|[k' v'] o IH]; simpl; [reflexivity|].
  destruct (String.eqb k k') eqn:E; simpl; rewrite E; [reflexivity|exact IH].
Qed.

Lemma get_replace_other k k' v o :
  k' <> k -> Obj.get k' (Obj.replace k v o) = Obj.get k' o.
Proof.
  intros Hne. induction o as [|[k0 v0] o IH]; simpl; [reflexivity|].
  destruct (String.eqb_spec k k0) as [->|H0]; simpl.
  - destruct (String.eqb_spec k' k0); [contradiction|reflexivity].
  - now rewrite IH.
Qed.

Lemma get_app k o1 o2 :
  Obj.get k (o1 ++ o2) = match Obj.get k o1 with Some v => Some v | None => Obj.get k o2 end.
Proof.
  induction o1 as [|[k' v'] o1 IH]; simpl; [reflexivity|].
  destruct (String.eqb k k'); [reflexivity|exact IH].
Qed.

Lemma get_insert_index n k k' v o :
  Obj.get k o = None ->
  Obj.get k' (Obj.insert_index n k v o) =
    if String.eqb k' k then Some v else Obj.get k' o.
Proof.
  induction o as [|[k0 v0] o IH]; simpl; [reflexivity|].
  destruct (String.eqb_spec k k0) as [->|Hk]; [discriminate|]. intros Hnone.
  destruct (Obj.array_index k0) as [n'|]; [destruct (n' <? n)%N|]; simpl;
    try reflexivity.
  rewrite (IH Hnone).
  destruct (String.eqb_spec k' k0) as [->|H0]; [|reflexivity].
  destruct (String.eqb_spec k0 k) as [->|H1]; [congruence|reflexivity].
Qed.

Lemma keys_insert_index n k v o :
  Permutation (Obj.keys (Obj.insert_index n k v o)) (k :: Obj.keys o).
Proof.
  induction o as [|[k0 v0] o IH]; simpl; [reflexivity|].
  destruct (Obj.array_index k0) as [n'|]; [destruct (n' <? n)%N|]; simpl;
    try reflexivity.
  rewrite IH. apply perm_swap.
Qed.

Lemma get_create k k' v o :
  Obj.get k o = None ->
  Obj.get k' (Obj.create k v o) = if String.eqb k' k then Some v else Obj.get k' o.
Proof.
  intros Hnone. unfold Obj.create. destruct (Obj.array_index k) as [n|].
  - now apply get_insert_index.
  - rewrite get_app. simpl.
    destruct (String.eqb_spec k' k) as [->|Hne].
    + now rewrite Hnone.
    + now destruct (Obj.get k' o).
Qed.

Lemma keys_create k v o :
  Permutation (Obj.keys (Obj.create k v o)) (k :: Obj.keys o).
Proof.
  unfold Obj.create. destruct (Obj.array_index k) as [n|].
  - apply keys_insert_index.
  - unfold Obj.keys. rewrite map_app. simpl.
    symmetry. apply Permutation_cons_append.
Qed.

Lemma get_set k k' v o :
  Obj.get k' (Obj.set k v o) = if String.eqb k' k then Some v else Obj.get k' o.
Proof.
  unfold Obj.set, Obj.has. destruct (Obj.get k o) as [v0|] eqn:E.
  - destruct (String.eqb_spec k' k) as [->|Hne].
    + now rewrite get_replace_same, E.
    + now apply get_replace_other.
  - now apply get_create.
Qed.

Lemma get_set_same k v o : Obj.get k (Obj.set k v o) = Some v.
Proof. now rewrite get_set, String.eqb_refl. Qed.

Lemma keys_set k v o :
  Permutation (Obj.keys (Obj.set k v o))
    (if Obj.has k o then Obj.keys o else k :: Obj.keys o).
Proof.
  unfold Obj.set. destruct (Obj.has k o).
  - now rewrite keys_replace.
  - apply keys_create.
Qed.

Lemma In_keys_set k k' v o :
  In k' (Obj.keys (Obj.set k v o)) <-> k' = k \/ In k' (Obj.keys o).
Proof.
  rewrite <- !has_In. unfold Obj.has. rewrite get_set.
  destruct (String.eqb_spec k' k) as [->|Hne].
  - tauto.
  - destruct (Obj.get k' o); split; auto. intros [H|H]; [contradiction|exact H].
Qed.

Lemma wf_set k v o : Obj.wf o -> Obj.wf (Obj.set k v o).
Proof.
  unfold Obj.wf. intros Hnd.
  apply (Permutation_NoDup (l := if Obj.has k o then Obj.keys o else k :: Obj.keys o)).
  - symmetry. apply keys_set.
  - destruct (Obj.has k o) eqn:E; [exact Hnd|].
    constructor; [|exact Hnd]. rewrite <- has_In, E. discriminate.
Qed.

Lemma length_set k v o : (List.length (Obj.set k v o) <= S (List.length o))%nat.
Proof.
  pose proof (Permutation_length (keys_set k v o)) as H.
  unfold Obj.keys in H. rewrite length_map in H. rewrite H.
  destruct (Obj.has k o); simpl; rewrite length_map; lia.
Qed.

Lemma modify_spec k (f : V -> V) o o' :
  Obj.modify k f o = Some o' ->
  Obj.keys o' = Obj.keys o /\
  exists v, Obj.get k o = Some v /\
    forall k', Obj.get k' o' = if String.eqb k' k then Some (f v) else Obj.get k' o.
Proof.
  unfold Obj.modify. destruct (Obj.get k o) as [v|] eqn:E; [|discriminate].
  intros H. injection H as <-. split; [apply keys_replace|].
  exists v. split; [reflexivity|]. intros k'.
  destruct (String.eqb_spec k' k) as [->|Hne].
  - now rewrite get_replace_same, E.
  - now apply get_replace_other.
Qed.

Lemma modify_Some k (f : V -> V) o :
  Obj.has k o = true -> exists o', Obj.modify k f o = Some o'.
Proof.
  unfold Obj.has, Obj.modify. destruct (Obj.get k o); [eauto|discriminate].
Qed.

Lemma wf_modify k (f : V -> V) o o' :
  Obj.modify k f o = Some o' -> Obj.wf o -> Obj.wf o'.
Proof.
  intros H. apply modify_spec in H as [Hk _]. unfold Obj.wf. now rewrite Hk.
Qed.

End ObjFacts.

(* ----------------------------------------------------------------- *)
(** ** Counting stitches *)

Lemma count_id_nil id : count_id id [] = 0%Z.
Proof. reflexivity. Qed.

Lemma count_id_cons id s ss :
  count_id id (s :: ss) =
    ((if String.eqb id (stitch_id s) then 1 else 0) + count_id id ss)%Z.
Proof.
  unfold count_id. cbn [filter].
  destruct (String.eqb id (stitch_id s)); cbn [List.length]; lia.
Qed.

Lemma count_id_app id ss1 ss2 :
  count_id id (ss1 ++ ss2) = (count_id id ss1 + count_id id ss2)%Z.
Proof.
  unfold count_id. rewrite filter_app, length_app. lia.
Qed.

Lemma count_id_nonneg id ss : (0 <= count_id id ss)%Z.
Proof. unfold count_id. lia. Qed.

Lemma count_id_absent id ss :
  (forall s, In s ss -> stitch_id s <> id) -> count_id id ss = 0%Z.
Proof.
  induction ss as [|s ss IH]; intros H; [reflexivity|].
  rewrite count_id_cons, IH by (intros; apply H; now right).
  destruct (String.eqb_spec id (stitch_id s)) as [->|_]; [|reflexivity].
  exfalso. now apply (H s); [left|].
Qed.

(** Summing, over a duplicate-free list of ids that covers the stitches,
    the number of stitches of each id counts every stitch once. *)
Lemma sum_count_id (ks : list string) (ss : list Stitch.t) :
  NoDup ks ->
  (forall s, In s ss -> In (stitch_id s) ks) ->
  fold_right Z.add 0%Z (map (fun k => count_id k ss) ks) = Z.of_nat (List.length ss).
Proof.
  intros Hnd. induction ss as [|s ss IH]; intros Hin.
  - clear. induction ks as [|k ks IHk]; [reflexivity|]. simpl in *.
    rewrite IHk. reflexivity.
  - assert (Hs : In (stitch_id s) ks) by (apply Hin; now left).
    specialize (IH (fun s' H => Hin s' (or_intror H))).
    assert (Hone : forall l, NoDup l ->
      fold_right Z.add 0%Z (map (fun k => count_id k (s :: ss)) l) =
      ((if in_dec string_dec (stitch_id s) l then 1 else 0)
       + fold_right Z.add 0%Z (map (fun k => count_id k ss) l))%Z).
    { clear. induction l as [|k l IHl]; intros Hnd; [reflexivity|].
      inversion Hnd as [|? ? Hk Hnd']; subst. simpl map. simpl fold_right.
      rewrite (IHl Hnd'), count_id_cons.
      destruct (String.eqb_spec k (stitch_id s)) as [->|Hne].
      - destruct (in_dec string_dec (stitch_id s) l) as [Hc|_]; [contradiction|].
        destruct (in_dec string_dec (stitch_id s) (stitch_id s :: l)) as [_|Hc];
          [lia|exfalso; apply Hc; now left].
      - destruct (in_dec string_dec (stitch_id s) l) as [H1|H1];
        destruct (in_dec string_dec (stitch_id s) (k :: l)) as [H2|H2]; try lia.
        + exfalso. apply H2. now right.
        + exfalso. destruct H2 as [H2|H2]; [congruence|contradiction]. }
    rewrite (Hone ks Hnd), IH.
    destruct (in_dec string_dec (stitch_id s) ks); [|contradiction].
    simpl List.length. lia.
Qed.

Lemma tallied_sum ss counts :
  tallied ss counts -> sum_counts counts = Z.of_nat (List.length ss).
Proof.
  intros (Hwf & Hhas & Hcnt).
  rewrite <- (@sum_count_id (Obj.keys counts) ss).
  - unfold sum_counts, Obj.values, Obj.keys. rewrite !map_map.
    f_equal. apply map_ext_in. intros [k u] Hin. simpl.
    apply Hcnt. now apply In_get.
  - exact Hwf.
  - intros s Hs. apply has_In. auto.
Qed.

Lemma tallied_coverage gw gh ss counts :
  tallied ss counts ->
  palette_coverage {| Pattern.stitches := ss; Pattern.width := gw;
                      Pattern.height := gh; Pattern.colorCounts := counts |}.
Proof.
  intros H. pose proof (tallied_sum _ _ H) as Hs. destruct H as (Hwf & Hhas & Hcnt).
  repeat split; simpl; auto.
Qed.

Lemma coverage_tallied p :
  Obj.wf (Pattern.colorCounts p) -> palette_coverage p ->
  tallied (Pattern.stitches p) (Pattern.colorCounts p).
Proof. intros Hwf (H1 & H2 & _). repeat split; auto. Qed.

Lemma tallied_empty : tallied [] Obj.empty.
Proof.
  repeat split.
  - constructor.
  - intros s [].
  - intros id u H. discriminate.
Qed.

(** Recording one more stitch of colour [c] under its id. *)
Lemma tallied_step ss counts (c : DMC.t) s counts' :
  tallied ss counts ->
  stitch_id s = DMC.id c ->
  Obj.modify (DMC.id c) Usage.incr
    (Obj.set (DMC.id c)
       match Obj.get (DMC.id c) counts with
       | Some u => u
       | None => {| Usage.color := c; Usage.count := 0 |}
       end counts) = Some counts' ->
  tallied (ss ++ [s]) counts'.
Proof.
  intros (Hwf & Hhas & Hcnt) Hid Hm.
  pose proof (wf_modify _ _ _ _ Hm (wf_set _ _ _ Hwf)) as Hwf'.
  apply modify_spec in Hm as (Hkeys & v & Hv & Hget).
  rewrite get_set_same in Hv. injection Hv as <-.
  repeat split.
  - exact Hwf'.
  - intros s' Hs'. apply has_In. rewrite Hkeys. apply In_keys_set.
    apply in_app_or in Hs' as [Hs'|[<-|[]]].
    + right. apply has_In. auto.
    + now left.
  - intros id u Hu. rewrite Hget, get_set in Hu. rewrite count_id_app.
    rewrite count_id_cons, count_id_nil, Hid.
    destruct (String.eqb_spec id (DMC.id c)) as [->|Hne].
    + injection Hu as <-. simpl.
      destruct (Obj.get (DMC.id c) counts) as [u0|] eqn:E.
      * rewrite (Hcnt _ _ E). lia.
      * simpl. rewrite count_id_absent; [lia|].
        intros s' Hs' Heq. apply Hhas in Hs'. unfold Obj.has in Hs'.
        rewrite Heq, E in Hs'. discriminate.
    + rewrite (Hcnt _ _ Hu). lia.
Qed.

(* ----------------------------------------------------------------- *)
(** ** Invariants of the conversion *)

Lemma foldM_inv {A S : Type} (P : S -> Prop) (f : A -> S -> option S) l :
  (forall a s s', In a l -> P s -> f a s = Some s' -> P s') ->
  forall s s', P s -> foldM f l s = Some s' -> P s'.
Proof.
  induction l as [|a l IH]; intros Hf s s' Hs H; simpl in H.
  - now injection H as <-.
  - destruct (f a s) as [s1|] eqn:E; [|discriminate].
    apply (IH (fun a0 s0 s0' Hin => Hf a0 s0 s0' (or_intror Hin)) s1 s');
      [|exact H].
    apply (Hf a s s1); auto. now left.
Qed.

Lemma foldM_app {A S : Type} (f : A -> S -> option S) l1 l2 s :
  foldM f (l1 ++ l2) s =
    match foldM f l1 s with Some s' => foldM f l2 s' | None => None end.
Proof.
  revert s. induction l1 as [|a l1 IH]; intros s; simpl; [reflexivity|].
  destruct (f a s); [apply IH|reflexivity].
Qed.

Section Conversion.

Variable DMC_COLORS : list DMC.t.
Variable imageData : Image.t.
Variable gridSize : nat.
Variable options : Options.t.

Local Abbreviation cell' := (cell DMC_COLORS imageData gridSize options).
Local Abbreviation sweep' := (sweep DMC_COLORS imageData gridSize options).
Local Abbreviation processChunk' := (processChunk DMC_COLORS imageData gridSize options).
Local Abbreviation gridHeight' := (gridHeight imageData gridSize).
Local Abbreviation gridWidth' := (gridWidth gridSize).

Lemma tally_total dmc counts : exists counts', tally dmc counts = Some counts'.
Proof.
  unfold tally. apply modify_Some. unfold Obj.has. now rewrite get_set_same.
Qed.

Lemma sweep_inv (P : State -> Prop) :
  (forall y x st st', P st -> cell' y x st = Some st' -> P st') ->
  forall startY endY st st', P st -> sweep' startY endY st = Some st' -> P st'.
Proof.
  intros Hcell startY endY. unfold sweep.
  apply foldM_inv. intros y s s' _. apply foldM_inv. intros x s0 s0' _. apply Hcell.
Qed.

(** Whatever the cells preserve holds of the state a conversion resolves
    with. *)
Lemma processChunk_inv (P : State -> Prop) :
  (forall y x st st', P st -> cell' y x st = Some st' -> P st') ->
  forall fuel startY st reports p tr,
    P st ->
    processChunk' fuel startY st reports = Resolved (p, tr) ->
    exists st', P st' /\ p = pattern_of gridWidth' gridHeight' st'.
Proof.
  intros Hcell. induction fuel as [|fuel IH]; intros startY st reports p tr Hst H;
    simpl in H; [discriminate|].
  destruct (sweep' startY _ st) as [st'|] eqn:E; [|discriminate].
  pose proof (sweep_inv P Hcell _ _ _ _ Hst E) as Hst'.
  destruct (JS.lt _ gridHeight').
  - eapply IH; eauto.
  - injection H as <- <-. exists st'. split; [exact Hst'|reflexivity].
Qed.

Lemma cell_tallied y x st st' :
  tallied (stitches st) (colorCounts st) ->
  cell' y x st = Some st' ->
  tallied (stitches st') (colorCounts st').
Proof.
  intros Hst. unfold cell.
  destruct (JS.gt _ _); [|intros H; injection H as <-; exact Hst].
  match goal with |- context [if ?c then _ else _] => destruct c end;
    [intros H; injection H as <-; exact Hst|].
  destruct (findClosestDMC _ _ _ _) as [dmc|]; [|discriminate].
  destruct (tally dmc (colorCounts st)) as [counts|] eqn:E; [|discriminate].
  intros H. injection H as <-. simpl.
  eapply tallied_step; [exact Hst|reflexivity|exact E].
Qed.

End Conversion.

Lemma convertToPattern_coverage DMC_COLORS imageData gridSize options fuel p tr :
  convertToPattern DMC_COLORS imageData gridSize options fuel = Resolved (p, tr) ->
  Obj.wf (Pattern.colorCounts p) /\ palette_coverage p.
Proof.
  intros H. unfold convertToPattern in H.
  apply (processChunk_inv DMC_COLORS imageData gridSize options
           (fun st => tallied (stitches st) (colorCounts st))) in H.
  - destruct H as (st' & Hst' & ->). split.
    + apply Hst'.
    + now apply tallied_coverage.
  - intros y x st st'. apply cell_tallied.
  - apply tallied_empty.
Qed.

(* ----------------------------------------------------------------- *)
(** ** Recounting *)

Lemma mapM_length {A B S : Type} (f : A -> S -> option (B * S)) l :
  forall s bs s', mapM f l s = Some (bs, s') -> List.length bs = List.length l.
Proof.
  induction l as [|a l IH]; intros s bs s' H; simpl in H.
  - now injection H as <- <-.
  - destruct (f a s) as [[b s1]|]; [|discriminate].
    destruct (mapM f l s1) as [[bs1 s2]|] eqn:E; [|discriminate].
    injection H as <- <-. simpl. f_equal. eauto.
Qed.

Lemma mapM_reassign f l :
  reassigns f ->
  forall s bs s', mapM f l s = Some (bs, s') ->
    Obj.keys s' = Obj.keys s /\
    map coords bs = map coords l /\
    (forall b, In b bs -> Obj.has (stitch_id b) s' = true) /\
    (forall k u', Obj.get k s' = Some u' ->
       exists u, Obj.get k s = Some u /\
                 Usage.count u' = (Usage.count u + count_id k bs)%Z).
Proof.
  intros Hf. induction l as [|a l IH]; intros s bs s' H; simpl in H.
  - injection H as <- <-. split; [reflexivity|split; [reflexivity|split]].
    + intros b [].
    + intros k u' Hu. exists u'. rewrite count_id_nil. split; [exact Hu|lia].
  - destruct (f a s) as [[b s1]|] eqn:Ea; [|discriminate].
    destruct (mapM f l s1) as [[bs1 s2]|] eqn:El; [|discriminate].
    injection H as <- <-.
    destruct (Hf _ _ _ _ Ea) as [Hm Hc].
    apply modify_spec in Hm as (Hk1 & v & Hv & Hget).
    destruct (IH _ _ _ El) as (Hk2 & Hco & Hhas & Hcnt).
    split; [|split; [|split]].
    + congruence.
    + simpl. now rewrite Hc, Hco.
    + intros b' [<-|Hb']; [|auto].
      apply has_In. rewrite Hk2, Hk1. apply has_In. unfold Obj.has. now rewrite Hv.
    + intros k u' Hu. destruct (Hcnt _ _ Hu) as (u1 & Hu1 & Hc1).
      rewrite Hget in Hu1. rewrite count_id_cons.
      destruct (String.eqb_spec k (stitch_id b)) as [->|Hne].
      * injection Hu1 as <-. exists v. split; [exact Hv|]. rewrite Hc1.
        unfold Usage.incr. cbn [Usage.count]. lia.
      * exists u1. split; [exact Hu1|]. rewrite Hc1. lia.
Qed.

Lemma mapM_tallied f l s bs s' :
  reassigns f -> Obj.wf s -> zeroed s ->
  mapM f l s = Some (bs, s') -> tallied bs s'.
Proof.
  intros Hf Hwf Hz H.
  destruct (mapM_reassign f l Hf _ _ _ H) as (Hk & _ & Hhas & Hcnt).
  repeat split.
  - unfold Obj.wf. now rewrite Hk.
  - exact Hhas.
  - intros k u' Hu. destruct (Hcnt _ _ Hu) as (u & Hu0 & ->).
    rewrite (Hz _ _ Hu0). lia.
Qed.

Lemma limit_stitch_reassigns topColors topColorIds :
  reassigns (limit_stitch topColors topColorIds).
Proof.
  intros a s b s'. unfold limit_stitch.
  destruct (set_has _ _).
  - destruct (Obj.modify _ _ s) as [c|] eqn:E; [|discriminate].
    intros H. injection H as <- <-. split; [exact E|reflexivity].
  - destruct (closest _ _ _ _ _) as [c|]; [|discriminate].
    destruct (Obj.modify _ _ s) as [c'|] eqn:E; [|discriminate].
    intros H. injection H as <- <-. split; [exact E|reflexivity].
Qed.

Lemma merge_stitch_reassigns colorMapping : reassigns (merge_stitch colorMapping).
Proof.
  intros a s b s'. unfold merge_stitch.
  destruct (Obj.get _ colorMapping) as [c|]; [|discriminate].
  destruct (Obj.modify _ _ s) as [c'|] eqn:E; [|discriminate].
  intros H. injection H as <- <-. split; [exact E|reflexivity].
Qed.

Lemma zeroed_set k u counts :
  zeroed counts -> Usage.count u = 0%Z -> zeroed (Obj.set k u counts).
Proof.
  intros Hz Hu k' u' H. rewrite get_set in H.
  destruct (String.eqb k' k); [now injection H as <-|eauto].
Qed.

Lemma zeroed_empty : zeroed Obj.empty.
Proof. intros k u H. discriminate. Qed.

Lemma wf_empty {V : Type} : Obj.wf (@Obj.empty V).
Proof. constructor. Qed.

(** The object [limitColors] starts counting from. *)
Lemma limit_init (topColors : list Usage.t) (counts : Obj.t Usage.t) :
  Obj.wf counts -> zeroed counts ->
  let counts' :=
    fold_left (fun counts c => Obj.set (Usage.id c) (reset c) counts) topColors counts in
  Obj.wf counts' /\ zeroed counts' /\
  (forall k, In k (Obj.keys counts') <->
             In k (Obj.keys counts) \/ In k (map Usage.id topColors)) /\
  (List.length counts' <= List.length counts + List.length topColors)%nat.
Proof.
  revert counts. induction topColors as [|c l IH]; intros counts Hwf Hz; simpl.
  - split; [exact Hwf|split; [exact Hz|split; [intros k; tauto|lia]]].
  - destruct (IH (Obj.set (Usage.id c) (reset c) counts)) as (H1 & H2 & H3 & H4).
    + now apply wf_set.
    + now apply zeroed_set.
    + split; [exact H1|split; [exact H2|split]].
      * intros k. rewrite H3, In_keys_set. simpl. intuition auto.
      * pose proof (length_set (Usage.id c) (reset c) counts). lia.
Qed.

Lemma limitColors_coverage p maxColors p' :
  limitColors p maxColors = Some p' ->
  Obj.wf (Pattern.colorCounts p) -> palette_coverage p ->
  Obj.wf (Pattern.colorCounts p') /\ palette_coverage p'.
Proof.
  unfold limitColors. intros H Hwf Hcov.
  destruct (maxColors <=? 0)%Z; [injection H as <-; auto|].
  destruct (_ <=? maxColors)%Z; [injection H as <-; auto|].
  destruct (mapM _ _ _) as [[bs s']|] eqn:E; [|discriminate].
  injection H as <-. simpl.
  destruct (limit_init (firstn (Z.to_nat maxColors)
              (sort_by_count (Obj.values (Pattern.colorCounts p)))) Obj.empty
              wf_empty zeroed_empty) as (H1 & H2 & _).
  pose proof (mapM_tallied _ _ _ _ _ (limit_stitch_reassigns _ _) H1 H2 E) as Ht.
  split; [apply Ht|now apply tallied_coverage].
Qed.

Lemma replace_same {V : Type} k (v : V) o :
  Obj.get k o = Some v -> Obj.replace k v o = o.
Proof.
  induction o as [|[k' v'] o IH]; simpl; [reflexivity|].
  destruct (String.eqb_spec k k') as [->|Hne]; intros H.
  - now injection H as ->.
  - now rewrite IH.
Qed.

Lemma recount_tally stitch counts :
  recount stitch counts = tally (Stitch.color stitch) counts.
Proof.
  unfold recount, tally, Obj.has.
  destruct (Obj.get _ counts) as [u|] eqn:E; [|reflexivity].
  f_equal. unfold Obj.set, Obj.has. rewrite E. symmetry. now apply replace_same.
Qed.

Lemma recount_tallied l :
  forall pre counts counts',
    tallied pre counts -> foldM recount l counts = Some counts' ->
    tallied (pre ++ l) counts'.
Proof.
  induction l as [|s l IH]; intros pre counts counts' Ht H; simpl in H.
  - injection H as <-. now rewrite app_nil_r.
  - destruct (recount s counts) as [c1|] eqn:E; [|discriminate].
    rewrite recount_tally in E.
    replace (pre ++ s :: l) with ((pre ++ [s]) ++ l) by (now rewrite <- app_assoc).
    apply (IH _ c1); [|exact H].
    eapply tallied_step; [exact Ht|reflexivity|exact E].
Qed.

Lemma recount_total l :
  forall counts, exists counts', foldM recount l counts = Some counts'.
Proof.
  induction l as [|s l IH]; intros counts; simpl; [eauto|].
  rewrite recount_tally. destruct (tally_total (Stitch.color s) counts) as [c ->].
  apply IH.
Qed.

Lemma applyShapeMask_coverage M p shape p' :
  applyShapeMask M p shape = Some p' ->
  Obj.wf (Pattern.colorCounts p) -> palette_coverage p ->
  Obj.wf (Pattern.colorCounts p') /\ palette_coverage p'.
Proof.
  unfold applyShapeMask. intros H Hwf Hcov.
  destruct (_ || _); [injection H as <-; auto|].
  destruct (foldM recount _ _) as [counts|] eqn:E; [|discriminate].
  injection H as <-. simpl.
  pose proof (recount_tallied _ [] _ _ tallied_empty E) as Ht. simpl in Ht.
  split; [apply Ht|now apply tallied_coverage].
Qed.

Lemma applyShapeMask_total M p shape : exists p', applyShapeMask M p shape = Some p'.
Proof.
  unfold applyShapeMask. destruct (_ || _); [eauto|].
  destruct (recount_total
    (filter (inside M (Pattern.width p) (Pattern.height p) shape) (Pattern.stitches p))
    Obj.empty) as [c ->]. eauto.
Qed.

(* ----------------------------------------------------------------- *)
(** ** Groups of colours *)

Lemma join_members rgb color tol groups groups' :
  join rgb color tol groups = Some groups' ->
  Permutation (members groups') (color :: members groups) /\
  (Forall (fun G => Group.colors G <> []) groups ->
   Forall (fun G => Group.colors G <> []) groups').
Proof.
  revert groups'. induction groups as [|G groups IH]; intros groups' H; simpl in H;
    [discriminate|].
  destruct (isSimilarColor _ _ _).
  - injection H as <-. unfold members. simpl. split.
    + rewrite <- app_assoc. simpl.
      rewrite <- Permutation_middle. reflexivity.
    + intros HF. inversion HF; subst. constructor; [|assumption].
      simpl. intros Hnil. apply app_eq_nil in Hnil as [_ Hnil]. discriminate.
  - destruct (join _ _ _ groups) as [g2|]; [|discriminate].
    injection H as <-. destruct (IH _ eq_refl) as [IH1 IH2].
    unfold members in *. simpl. split.
    + rewrite IH1. rewrite Permutation_middle. reflexivity.
    + intros HF. inversion HF; subst. constructor; auto.
Qed.

Lemma group_color_members tol groups color :
  Permutation (members (group_color tol groups color)) (color :: members groups) /\
  (Forall (fun G => Group.colors G <> []) groups ->
   Forall (fun G => Group.colors G <> []) (group_color tol groups color)).
Proof.
  unfold group_color. destruct (join _ _ _ _) as [g|] eqn:E.
  - now apply join_members in E.
  - split.
    + unfold members. rewrite map_app, concat_app. simpl.
      symmetry. apply Permutation_cons_append.
    + intros HF. apply Forall_app. split; [exact HF|].
      constructor; [simpl; discriminate|constructor].
Qed.

Lemma colorGroups_members_gen tol colors :
  forall groups,
    Forall (fun G => Group.colors G <> []) groups ->
    Permutation (members (fold_left (group_color tol) colors groups))
                (members groups ++ colors) /\
    Forall (fun G => Group.colors G <> [])
           (fold_left (group_color tol) colors groups).
Proof.
  induction colors as [|c colors IH]; intros groups HF; simpl.
  - rewrite app_nil_r. auto.
  - destruct (group_color_members tol groups c) as [H1 H2].
    destruct (IH _ (H2 HF)) as [H3 H4]. split; [|exact H4].
    rewrite H3, H1. simpl. apply Permutation_middle.
Qed.

(** The groups partition the colours, and no group is empty. *)
Lemma colorGroups_members tol colors :
  Permutation (members (colorGroups tol colors)) colors /\
  Forall (fun G => Group.colors G <> []) (colorGroups tol colors).
Proof.
  destruct (colorGroups_members_gen tol colors [] (Forall_nil _)) as [H1 H2].
  split; [exact H1|exact H2].
Qed.


Lemma most_used_total colors : colors <> [] -> exists rep, most_used colors = Some rep.
Proof. destruct colors; [congruence|simpl; eauto]. Qed.

Lemma get_fold_set (rep : Usage.t) (cs : list Usage.t) :
  forall m k,
    Obj.get k (fold_left (fun m color => Obj.set (Usage.id color) rep m) cs m) =
      if existsb (fun c => String.eqb k (Usage.id c)) cs then Some rep
      else Obj.get k m.
Proof.
  induction cs as [|c cs IH]; intros m k; simpl; [reflexivity|].
  rewrite IH, get_set.
  destruct (existsb _ cs); [now rewrite orb_true_r|].
  now rewrite orb_false_r.
Qed.

Lemma wf_fold_set (rep : Usage.t) (cs : list Usage.t) :
  forall m, Obj.wf m ->
    Obj.wf (fold_left (fun m color => Obj.set (Usage.id color) rep m) cs m).
Proof.
  induction cs as [|c cs IH]; intros m Hm; simpl; [exact Hm|].
  apply IH. now apply wf_set.
Qed.

Lemma existsb_id k cs :
  existsb (fun c => String.eqb k (Usage.id c)) cs = true <-> In k (map Usage.id cs).
Proof.
  rewrite existsb_exists, in_map_iff. split.
  - intros (c & Hc & He). apply String.eqb_eq in He. eauto.
  - intros (c & He & Hc). exists c. split; [exact Hc|]. now apply String.eqb_eq.
Qed.

Lemma NoDup_app_disjoint {A : Type} (l1 l2 : list A) (a : A) :
  NoDup (l1 ++ l2) -> In a l1 -> In a l2 -> False.
Proof.
  induction l1 as [|b l1 IH]; simpl; intros Hnd H1 H2; [contradiction|].
  inversion Hnd as [|? ? Hb Hnd']; subst. destruct H1 as [->|H1].
  - apply Hb. apply in_or_app. now right.
  - now apply IH.
Qed.

(** What the loop over the groups builds. *)
Lemma map_groups_spec groups :
  Forall (fun G => Group.colors G <> []) groups ->
  NoDup (map Usage.id (members groups)) ->
  forall cm0 ncc0, Obj.wf ncc0 -> zeroed ncc0 ->
  exists cm ncc,
    foldM map_group groups (cm0, ncc0) = Some (cm, ncc) /\
    Obj.wf ncc /\ zeroed ncc /\
    (forall k, ~ In k (map Usage.id (members groups)) -> Obj.get k cm = Obj.get k cm0) /\
    (forall k, In k (Obj.keys ncc0) -> In k (Obj.keys ncc)) /\
    (List.length ncc <= List.length ncc0 + List.length groups)%nat /\
    (forall G, In G groups ->
       exists rep, most_used (Group.colors G) = Some rep /\
                   Obj.has (Usage.id rep) ncc = true /\
                   forall c, In c (Group.colors G) -> Obj.get (Usage.id c) cm = Some rep).
Proof.
  induction groups as [|G groups IH]; intros HF Hnd cm0 ncc0 Hwf Hz.
  - exists cm0, ncc0. simpl. repeat split; auto; [lia|]. intros G [].
  - inversion HF as [|? ? HG HF']; subst.
    destruct (most_used_total _ HG) as [rep Hrep].
    unfold members in Hnd. simpl in Hnd. rewrite map_app in Hnd.
    pose proof (NoDup_app_remove_l _ _ Hnd) as Hnd'.
    simpl. unfold map_group at 1. rewrite Hrep. simpl.
    set (cm1 := fold_left _ (Group.colors G) cm0).
    set (ncc1 := Obj.set (Usage.id rep) (reset rep) ncc0).
    destruct (IH HF' Hnd' cm1 ncc1)
      as (cm & ncc & Hrun & Hwf' & Hz' & Hout & Hkeys & Hlen & Hall).
    { now apply wf_set. }
    { now apply zeroed_set. }
    exists cm, ncc. split; [exact Hrun|]. split; [exact Hwf'|]. split; [exact Hz'|].
    split; [|split; [|split]].
    + intros k Hk. unfold members in Hk. simpl in Hk. rewrite map_app, in_app_iff in Hk.
      rewrite Hout by tauto. unfold cm1. rewrite get_fold_set.
      destruct (existsb _ _) eqn:E; [|reflexivity].
      apply existsb_id in E. tauto.
    + intros k Hk. apply Hkeys. unfold ncc1. apply In_keys_set. now right.
    + pose proof (length_set (Usage.id rep) (reset rep) ncc0). fold ncc1 in H.
      simpl List.length. lia.
    + intros G' [<-|HG'].
      * exists rep. split; [exact Hrep|]. split.
        -- apply has_In, Hkeys. unfold ncc1. apply In_keys_set. now left.
        -- intros c Hc. rewrite Hout.
           ++ unfold cm1. rewrite get_fold_set.
              replace (existsb _ _) with true; [reflexivity|].
              symmetry. apply existsb_id. now apply in_map.
           ++ intros Hin. apply (in_map Usage.id) in Hc.
              exact (NoDup_app_disjoint _ _ _ Hnd Hc Hin).
      * now apply Hall.
Qed.

(* ----------------------------------------------------------------- *)
(** ** Merging *)

Lemma keyed_ids counts :
  keyed_by_id counts -> map Usage.id (Obj.values counts) = Obj.keys counts.
Proof.
  unfold Obj.values, Obj.keys. rewrite map_map. intros H.
  apply map_ext_in. intros [k u] Hin. simpl. now apply H.
Qed.

Lemma map_group_counts groups :
  forall st cm ncc,
    Obj.wf (snd st) -> zeroed (snd st) ->
    foldM map_group groups st = Some (cm, ncc) ->
    Obj.wf ncc /\ zeroed ncc.
Proof.
  intros st cm ncc Hwf Hz H.
  apply (foldM_inv (fun st => Obj.wf (snd st) /\ zeroed (snd st)) map_group groups)
    with (s' := (cm, ncc)) (s := st); auto.
  clear. intros G st st' _ [Hwf Hz]. unfold map_group.
  destruct (most_used _) as [rep|]; [|discriminate].
  intros H. injection H as <-. simpl. split.
  - now apply wf_set.
  - now apply zeroed_set.
Qed.

Lemma mergeColors_coverage p tol p' :
  mergeColors p tol = Some p' ->
  Obj.wf (Pattern.colorCounts p) -> palette_coverage p ->
  Obj.wf (Pattern.colorCounts p') /\ palette_coverage p'.
Proof.
  unfold mergeColors. intros H Hwf Hcov.
  destruct (JS.le tol n0); [injection H as <-; auto|].
  destruct (_ <=? 1)%nat; [injection H as <-; auto|].
  destruct (foldM map_group _ _) as [[cm ncc]|] eqn:Eg; [|discriminate].
  destruct (mapM _ _ _) as [[bs s']|] eqn:E; [|discriminate].
  injection H as <-. simpl.
  destruct (map_group_counts _ (Obj.empty, Obj.empty) _ _ wf_empty zeroed_empty Eg)
    as [H1 H2].
  pose proof (mapM_tallied _ _ _ _ _ (merge_stitch_reassigns cm) H1 H2 E) as Ht.
  split; [apply Ht|now apply tallied_coverage].
Qed.

Lemma mapM_total {A B S : Type} (I : S -> Prop) (f : A -> S -> option (B * S)) l :
  (forall a s, In a l -> I s -> exists b s', f a s = Some (b, s') /\ I s') ->
  forall s, I s -> exists bs s', mapM f l s = Some (bs, s').
Proof.
  induction l as [|a l IH]; intros Hf s Hs; simpl; [eauto|].
  destruct (Hf a s (or_introl eq_refl) Hs) as (b & s1 & -> & Hs1).
  destruct (IH (fun a0 s0 Hin => Hf a0 s0 (or_intror Hin)) s1 Hs1) as (bs & s2 & ->).
  eauto.
Qed.

Lemma mapM_nth {A B S : Type} (f : A -> S -> option (B * S)) l :
  forall s bs s' i a,
    mapM f l s = Some (bs, s') -> nth_error l i = Some a ->
    exists b st st', nth_error bs i = Some b /\ f a st = Some (b, st').
Proof.
  induction l as [|a0 l IH]; intros s bs s' i a H Hi; simpl in H.
  - destruct i; discriminate.
  - destruct (f a0 s) as [[b s1]|] eqn:Ea; [|discriminate].
    destruct (mapM f l s1) as [[bs1 s2]|] eqn:El; [|discriminate].
    injection H as <- <-. destruct i as [|i]; simpl in *.
    + injection Hi as <-. eauto.
    + eauto.
Qed.

(** The remapping of [mergeColors] on its main path. *)
Lemma mergeColors_remap p tol :
  Obj.wf (Pattern.colorCounts p) ->
  keyed_by_id (Pattern.colorCounts p) ->
  (forall s, In s (Pattern.stitches p) ->
     Obj.has (stitch_id s) (Pattern.colorCounts p) = true) ->
  JS.le tol n0 = false ->
  (1 < List.length (Pattern.colorCounts p))%nat ->
  exists p',
    mergeColors p tol = Some p' /\
    Obj.wf (Pattern.colorCounts p') /\
    (List.length (Pattern.colorCounts p') <=
       List.length (colorGroups tol (Obj.values (Pattern.colorCounts p))))%nat /\
    forall G, In G (colorGroups tol (Obj.values (Pattern.colorCounts p))) ->
      exists rep,
        most_used (Group.colors G) = Some rep /\
        Obj.has (Usage.id rep) (Pattern.colorCounts p') = true /\
        forall i s, nth_error (Pattern.stitches p) i = Some s ->
          In (stitch_id s) (map Usage.id (Group.colors G)) ->
          nth_error (Pattern.stitches p') i =
            Some {| Stitch.x := Stitch.x s; Stitch.y := Stitch.y s;
                    Stitch.color := Usage.color rep |}.
Proof.
  intros Hwf Hkey Hhas Htol Hlen. unfold mergeColors. rewrite Htol.
  replace (List.length (Obj.values (Pattern.colorCounts p)) <=? 1)%nat with false
    by (symmetry; apply Nat.leb_gt; unfold Obj.values; now rewrite length_map).
  set (colors := Obj.values (Pattern.colorCounts p)).
  destruct (colorGroups_members tol colors) as [Hperm Hne].
  assert (Hnd : NoDup (map Usage.id (members (colorGroups tol colors)))).
  { apply (Permutation_NoDup (l := map Usage.id colors)).
    - apply Permutation_map. now symmetry.
    - unfold colors. rewrite keyed_ids by assumption. exact Hwf. }
  destruct (map_groups_spec _ Hne Hnd Obj.empty Obj.empty wf_empty zeroed_empty)
    as (cm & ncc & Hrun & Hwf' & Hz' & _ & _ & Hlen' & Hall).
  rewrite Hrun.
  assert (Hcm : forall s, In s (Pattern.stitches p) ->
            exists G rep, In G (colorGroups tol colors) /\
              most_used (Group.colors G) = Some rep /\
              Obj.get (stitch_id s) cm = Some rep /\
              Obj.has (Usage.id rep) ncc = true).
  { intros s Hs. apply Hhas, has_In in Hs.
    rewrite <- keyed_ids in Hs by assumption. fold colors in Hs.
    apply (Permutation_in _ (Permutation_map Usage.id (Permutation_sym Hperm))) in Hs.
    apply in_map_iff in Hs as (c & Hc & Hin).
    unfold members in Hin. apply in_concat in Hin as (cs & Hcs & Hin).
    apply in_map_iff in Hcs as (G & <- & HG).
    destruct (Hall G HG) as (rep & Hrep & Hhasrep & Hmap).
    exists G, rep. rewrite <- Hc. auto. }
  destruct (mapM_total (fun s => Obj.keys s = Obj.keys ncc) (merge_stitch cm)
              (Pattern.stitches p)) with (s := ncc) as (bs & s' & Hmap);
    [|reflexivity|].
  { intros s st Hs Hst. destruct (Hcm s Hs) as (G & rep & _ & _ & Hget & Hrep).
    unfold merge_stitch. fold (stitch_id s). rewrite Hget.
    destruct (modify_Some (Usage.id rep) Usage.incr st) as [st' Hst'].
    - apply has_In. rewrite Hst. now apply has_In.
    - rewrite Hst'. eexists _, _. split; [reflexivity|].
      apply modify_spec in Hst' as [-> _]. exact Hst. }
  rewrite Hmap. eexists. split; [reflexivity|]. simpl.
  destruct (mapM_reassign _ _ (merge_stitch_reassigns cm) _ _ _ Hmap) as (Hks & _).
  split; [unfold Obj.wf; now rewrite Hks|].
  split.
  { apply (f_equal (@List.length _)) in Hks. unfold Obj.keys in Hks.
    rewrite !length_map in Hks. rewrite Hks. simpl in Hlen'. exact Hlen'. }
  intros G HG. destruct (Hall G HG) as (rep & Hrep & Hhasrep & Hcolors).
  exists rep. split; [exact Hrep|]. split.
  - destruct (mapM_reassign _ _ (merge_stitch_reassigns cm) _ _ _ Hmap) as (Hk & _).
    apply has_In. rewrite Hk. now apply has_In.
  - intros i s Hi Hin.
    destruct (mapM_nth _ _ _ _ _ _ _ Hmap Hi) as (b & st & st' & Hb & Hf).
    rewrite Hb. f_equal. unfold merge_stitch in Hf. fold (stitch_id s) in Hf.
    apply in_map_iff in Hin as (c & Hc & Hin). rewrite <- Hc, (Hcolors c Hin) in Hf.
    destruct (Obj.modify _ _ st); [|discriminate]. now injection Hf as <- _.
Qed.

(* ----------------------------------------------------------------- *)
(** ** Nearest-colour scan *)

Section Scan.

Context {A : Type}.
Variable hex : A -> string.
Variables r g b : JS.num.

Local Abbreviation d := (fun c : A => distance (hex c) r g b).

Lemma scan_In (l : list A) :
  forall acc,
    let res := fold_left (closer hex r g b) l acc in
    snd res = snd acc \/ exists c, In c l /\ snd res = Some c.
Proof.
  induction l as [|c l IH]; intros acc; simpl; [now left|].
  assert (Hstep : closer hex r g b acc c = acc \/
                  snd (closer hex r g b acc c) = Some c)
    by (unfold closer; destruct (JS.lt _ _); auto).
  destruct (IH (closer hex r g b acc c)) as [H|(c' & Hc' & H)].
  - destruct Hstep as [Hs|Hs].
    + left. now rewrite Hs in H |- *.
    + right. exists c. split; [now left|]. now rewrite H.
  - right. exists c'. split; [now right|exact H].
Qed.

Lemma closest_In (l : list A) c : closest hex r g b l = Some c -> In c l.
Proof.
  unfold closest. intros H.
  destruct (scan_In l (JS.PInf, hd_error l)) as [H0|(c' & Hc' & H0)];
    simpl in H0; rewrite H0 in H.
  - destruct l; [discriminate|]. injection H as <-. now left.
  - now injection H as <-.
Qed.

Lemma closest_total (l : list A) : l <> [] -> exists c, closest hex r g b l = Some c.
Proof.
  unfold closest. intros Hl.
  destruct (scan_In l (JS.PInf, hd_error l)) as [H0|(c' & Hc' & H0)];
    simpl in H0; rewrite H0.
  - destruct l; [congruence|simpl; eauto].
  - eauto.
Qed.

Lemma scan_first_min (q : A -> Q) (l : list A) :
  (forall e, In e l -> d e = JS.Fin (q e)) ->
  forall seen acc,
    (forall e, In e seen -> d e = JS.Fin (q e)) ->
    (seen = [] /\ fst acc = JS.PInf \/
     exists pre c post, seen = pre ++ c :: post /\ acc = (d c, Some c) /\
                        first_min q pre c post) ->
    l <> [] \/ seen <> [] ->
    exists pre c post,
      seen ++ l = pre ++ c :: post /\
      snd (fold_left (closer hex r g b) l acc) = Some c /\
      first_min q pre c post.
Proof.
  induction l as [|e l IH]; intros Hl seen acc Hseen Hinv Hne.
  - destruct Hinv as [[-> _]|(pre & c & post & -> & -> & Hmin)].
    + destruct Hne; congruence.
    + exists pre, c, post. rewrite app_nil_r. auto.
  - simpl. replace (seen ++ e :: l) with ((seen ++ [e]) ++ l)
      by (now rewrite <- app_assoc).
    assert (He : d e = JS.Fin (q e)) by (apply Hl; now left).
    apply IH.
    + intros e' He'. apply Hl. now right.
    + intros e' He'. apply in_app_or in He' as [He'|[<-|[]]]; auto.
    + right. unfold closer.
      destruct Hinv as [[-> Hacc]|(pre & c & post & -> & -> & Hmin & Hpre)].
      * rewrite Hacc, He. simpl. exists [], e, [].
        split; [reflexivity|]. split; [now rewrite He|]. split.
        -- intros e' [<-|[]]. apply Qle_refl.
        -- intros e' [].
      * assert (Hc : d c = JS.Fin (q c)) by (apply Hseen, in_elt).
        cbn [fst]. rewrite He, Hc. cbn [JS.lt].
        destruct (JS.Qltb (q e) (q c)) eqn:E.
        -- apply Qltb_lt in E. exists (pre ++ c :: post), e, [].
           split; [reflexivity|]. split; [now rewrite He|]. split.
           ++ intros e' He'. apply in_app_or in He' as [He'|[<-|[]]];
                [|apply Qle_refl].
              apply Qlt_le_weak. eapply Qlt_le_trans; [exact E|]. now apply Hmin.
           ++ intros e' He'. eapply Qlt_le_trans; [exact E|]. apply Hmin.
              apply in_or_app. destruct (in_app_or _ _ _ He') as [H0|H0]; auto.
        -- apply Qltb_ge in E. exists pre, c, (post ++ [e]).
           split; [now rewrite <- app_assoc|]. split; [now rewrite <- Hc|]. split.
           ++ intros e' He'. rewrite app_comm_cons, app_assoc in He'.
              apply in_app_or in He' as [He'|[<-|[]]]; [now apply Hmin|exact E].
           ++ exact Hpre.
    + right. now destruct seen.
Qed.

Lemma closest_first_min (q : A -> Q) (l : list A) :
  l <> [] ->
  (forall e, In e l -> d e = JS.Fin (q e)) ->
  exists pre c post,
    l = pre ++ c :: post /\ closest hex r g b l = Some c /\ first_min q pre c post.
Proof.
  intros Hne Hl. unfold closest.
  apply (scan_first_min q l Hl [] (JS.PInf, hd_error l)).
  - intros e [].
  - now left.
  - now left.
Qed.

End Scan.

(* ----------------------------------------------------------------- *)
(** ** Limiting *)

Lemma insert_by_count_perm a l : Permutation (insert_by_count a l) (a :: l).
Proof.
  induction l as [|b l IH]; simpl; [reflexivity|].
  destruct (_ <? _)%Z; [|reflexivity].
  rewrite IH. apply perm_swap.
Qed.

Lemma sort_by_count_perm l : Permutation (sort_by_count l) l.
Proof.
  induction l as [|a l IH]; simpl; [reflexivity|].
  rewrite insert_by_count_perm. now constructor.
Qed.

Lemma set_has_In ids id : set_has ids id = true <-> In id ids.
Proof.
  unfold set_has. rewrite existsb_exists. split.
  - intros (k & Hk & He). apply String.eqb_eq in He. now subst.
  - intros H. exists id. split; [exact H|apply String.eqb_refl].
Qed.

(** Once the early returns are passed, the callback of [limitColors]
    cannot fail. *)
Lemma limit_stitches_total topColors counts0 ss :
  topColors <> [] ->
  (forall k, In k (map Usage.id topColors) -> In k (Obj.keys counts0)) ->
  exists bs counts',
    mapM (limit_stitch topColors (map Usage.id topColors)) ss counts0
      = Some (bs, counts').
Proof.
  intros Hne Hkeys.
  apply (mapM_total (fun s => Obj.keys s = Obj.keys counts0)); [|reflexivity].
  intros a s _ Hs. unfold limit_stitch.
  destruct (set_has _ _) eqn:E.
  - apply set_has_In in E.
    destruct (modify_Some (DMC.id (Stitch.color a)) Usage.incr s) as [s' Hs'].
    { apply has_In. rewrite Hs. auto. }
    rewrite Hs'. eexists _, _. split; [reflexivity|].
    apply modify_spec in Hs' as [-> _]. exact Hs.
  - destruct (closest_total Usage.hex
                (channel 1 3 (DMC.hex (Stitch.color a)))
                (channel 3 5 (DMC.hex (Stitch.color a)))
                (channel 5 7 (DMC.hex (Stitch.color a))) topColors Hne) as [c Hc].
    rewrite Hc. apply closest_In in Hc.
    destruct (modify_Some (Usage.id c) Usage.incr s) as [s' Hs'].
    { apply has_In. rewrite Hs. apply Hkeys. now apply in_map. }
    rewrite Hs'. eexists _, _. split; [reflexivity|].
    apply modify_spec in Hs' as [-> _]. exact Hs.
Qed.

Lemma limitColors_total p maxColors :
  (1 <= maxColors)%Z -> exists p', limitColors p maxColors = Some p'.
Proof.
  intros Hk. unfold limitColors.
  destruct (maxColors <=? 0)%Z; [eauto|].
  destruct (Z.leb_spec (Z.of_nat (List.length
              (sort_by_count (Obj.values (Pattern.colorCounts p))))) maxColors)
    as [Hle|Hgt]; [eauto|].
  set (top := firstn (Z.to_nat maxColors) _).
  destruct (limit_init top Obj.empty wf_empty zeroed_empty) as (_ & _ & Hkeys & _).
  destruct (limit_stitches_total top
              (fold_left (fun counts c => Obj.set (Usage.id c) (reset c) counts)
                         top Obj.empty) (Pattern.stitches p)) as (bs & c' & ->).
  - unfold top. intros Hnil. apply (f_equal (@List.length _)) in Hnil.
    rewrite length_firstn in Hnil. simpl in Hnil. lia.
  - intros k Hin. apply Hkeys. now right.
  - eauto.
Qed.

(** The bound of [limitColors] and what it leaves alone. *)
Lemma limitColors_frame p maxColors p' :
  limitColors p maxColors = Some p' ->
  map coords (Pattern.stitches p') = map coords (Pattern.stitches p) /\
  Pattern.width p' = Pattern.width p /\
  Pattern.height p' = Pattern.height p.
Proof.
  unfold limitColors. intros H.
  destruct (maxColors <=? 0)%Z; [injection H as <-; auto|].
  destruct (_ <=? maxColors)%Z; [injection H as <-; auto|].
  destruct (mapM _ _ _) as [[bs s']|] eqn:E; [|discriminate].
  injection H as <-. simpl.
  destruct (mapM_reassign _ _ (limit_stitch_reassigns _ _) _ _ _ E) as (_ & Hc & _).
  auto.
Qed.

Lemma limitColors_bound p maxColors p' :
  (1 <= maxColors)%Z ->
  limitColors p maxColors = Some p' ->
  (Z.of_nat (List.length (Obj.keys (Pattern.colorCounts p'))) <= maxColors)%Z.
Proof.
  unfold limitColors. intros Hk H.
  destruct (Z.leb_spec maxColors 0); [lia|].
  destruct (Z.leb_spec (Z.of_nat (List.length
              (sort_by_count (Obj.values (Pattern.colorCounts p))))) maxColors)
    as [Hle|Hgt].
  - injection H as <-.
    rewrite (Permutation_length (sort_by_count_perm _)) in Hle.
    unfold Obj.values, Obj.keys in *. now rewrite length_map in *.
  - destruct (mapM _ _ _) as [[bs s']|] eqn:E; [|discriminate].
    injection H as <-. simpl.
    destruct (mapM_reassign _ _ (limit_stitch_reassigns _ _) _ _ _ E) as (-> & _).
    set (top := firstn (Z.to_nat maxColors) _) in *.
    destruct (limit_init top Obj.empty wf_empty zeroed_empty) as (_ & _ & _ & Hlen).
    unfold Obj.keys. rewrite length_map.
    assert (List.length top <= Z.to_nat maxColors)%nat by apply firstn_le_length.
    simpl in Hlen. lia.
Qed.

Lemma mergeColors_frame p tol p' :
  mergeColors p tol = Some p' ->
  map coords (Pattern.stitches p') = map coords (Pattern.stitches p) /\
  Pattern.width p' = Pattern.width p /\
  Pattern.height p' = Pattern.height p.
Proof.
  unfold mergeColors. intros H.
  destruct (JS.le tol n0); [injection H as <-; auto|].
  destruct (_ <=? 1)%nat; [injection H as <-; auto|].
  destruct (foldM map_group _ _) as [[cm ncc]|]; [|discriminate].
  destruct (mapM _ _ _) as [[bs s']|] eqn:E; [|discriminate].
  injection H as <-. simpl.
  destruct (mapM_reassign _ _ (merge_stitch_reassigns _) _ _ _ E) as (_ & Hc & _).
  auto.
Qed.

(* ----------------------------------------------------------------- *)
(** ** Integer indices and the alpha channel *)

Lemma intlike_of_Z z : intlike (JS.of_Z z).
Proof. simpl. now exists z. Qed.

Lemma intlike_floor a : intlike (JS.floor a).
Proof. destruct a; simpl; auto. eexists. reflexivity. Qed.

Lemma intlike_round a : intlike (JS.round a).
Proof. destruct a; simpl; auto. eexists. reflexivity. Qed.

Lemma intlike_inf s : intlike (JS.inf s).
Proof. now destruct s. Qed.

Lemma intlike_add a b : intlike a -> intlike b -> intlike (JS.add a b).
Proof.
  destruct a as [| | |x], b as [| | |y]; simpl; auto.
  intros [za Ha] [zb Hb]. exists (za + zb)%Z.
  change (JS.add (JS.Fin x) (JS.Fin y) = JS.of_Z (za + zb)).
  rewrite Ha, Hb. apply add_of_Z.
Qed.

Lemma intlike_sub a b : intlike a -> intlike b -> intlike (JS.sub a b).
Proof.
  destruct a as [| | |x], b as [| | |y]; simpl; auto.
  intros [za Ha] [zb Hb]. exists (za - zb)%Z.
  change (JS.sub (JS.Fin x) (JS.Fin y) = JS.of_Z (za - zb)).
  rewrite Ha, Hb. apply sub_of_Z.
Qed.

Lemma intlike_mul a b : intlike a -> intlike b -> intlike (JS.mul a b).
Proof.
  destruct a as [| | |x], b as [| | |y]; intros Ha Hb;
    try exact I; try apply intlike_inf.
  destruct Ha as [za Ha], Hb as [zb Hb]. exists (za * zb)%Z.
  rewrite Ha, Hb. apply mul_of_Z.
Qed.

Lemma offset4_mul a : intlike a -> offset4 0 (JS.mul a n4).
Proof.
  destruct a as [| | |x]; intros Ha; try exact I.
  destruct Ha as [z Ha]. rewrite Ha. unfold n4.
  rewrite mul_of_Z. exists z. f_equal. lia.
Qed.

Lemma offset4_add a c : offset4 0 a -> offset4 c (JS.add a (JS.of_Z c)).
Proof.
  destruct a as [| | |x]; intros Ha; try exact I.
  destruct Ha as [z Ha]. rewrite Ha.
  rewrite add_of_Z. exists z. f_equal. lia.
Qed.

Lemma offset4_index c a i :
  (0 <= c < 4)%Z -> offset4 c a -> JS.to_index a = Some i ->
  (i mod 4 = Z.to_nat c)%nat.
Proof.
  intros Hc. destruct a as [| | |x]; try discriminate.
  intros [z Ha] H. rewrite Ha, to_index_of_Z in H.
  destruct (Z.leb_spec 0 (4 * z + c)) as [Hz|Hz]; [|discriminate].
  assert (Hi : Z.to_nat (4 * z + c) = i) by congruence. clear H. subst i.
  apply Nat2Z.inj. rewrite Nat2Z.inj_mod. rewrite !Z2Nat.id by lia.
  change (Z.of_nat 4) with 4%Z.
  rewrite Z.add_comm, Z.mul_comm, Z.mod_add by lia. apply Z.mod_small. lia.
Qed.

(** Stores. *)
Lemma length_update data i v : List.length (update data i v) = List.length data.
Proof.
  revert i. induction data as [|w data IH]; intros i; simpl; [reflexivity|].
  destruct i; simpl; [reflexivity|]. now rewrite IH.
Qed.

Lemma nth_update_other data i j v :
  i <> j -> nth_error (update data i v) j = nth_error data j.
Proof.
  revert i j. induction data as [|w data IH]; intros i j Hne; simpl; [reflexivity|].
  destruct i, j; simpl; try reflexivity; try congruence.
  apply IH. congruence.
Qed.

Lemma same_alpha_refl d : same_alpha d d.
Proof. split; auto. Qed.

Lemma same_alpha_trans d1 d2 d3 : same_alpha d1 d2 -> same_alpha d2 d3 -> same_alpha d1 d3.
Proof.
  intros [H1 H2] [H3 H4]. split; [congruence|].
  intros i Hi. now rewrite H2, H4.
Qed.

Lemma same_alpha_sym d1 d2 : same_alpha d1 d2 -> same_alpha d2 d1.
Proof. intros [H1 H2]. split; [congruence|]. intros i Hi. now rewrite H2. Qed.

Lemma store_alpha data idx v c :
  (0 <= c < 3)%Z -> offset4 c idx -> same_alpha (store data idx v) data.
Proof.
  intros Hc Hidx. unfold store. destruct (JS.to_index idx) as [i|] eqn:E;
    [|apply same_alpha_refl].
  pose proof (offset4_index c idx i ltac:(lia) Hidx E) as Hi.
  split; [apply length_update|].
  intros j Hj. apply nth_update_other. intros ->.
  rewrite Hj in Hi. lia.
Qed.

Lemma distributeError_alpha data width height x y eR eG eB factor :
  intlike width -> intlike x -> intlike y ->
  same_alpha (distributeError data width height x y eR eG eB factor) data.
Proof.
  intros Hw Hx Hy. unfold distributeError.
  destruct (_ || _); [apply same_alpha_refl|].
  assert (H0 : offset4 0 (JS.mul (JS.add (JS.mul y width) x) n4)).
  { apply offset4_mul, intlike_add; [apply intlike_mul|]; assumption. }
  eapply same_alpha_trans; [apply (store_alpha _ _ _ 2); [lia|now apply offset4_add]|].
  eapply same_alpha_trans; [apply (store_alpha _ _ _ 1); [lia|now apply offset4_add]|].
  apply (store_alpha _ _ _ 0); [lia|exact H0].
Qed.

Lemma load_alpha d1 d2 idx :
  same_alpha d1 d2 -> offset4 3 idx -> load d1 idx = load d2 idx.
Proof.
  intros [_ H] Hidx. unfold load. destruct (JS.to_index idx) as [i|] eqn:E;
    [|reflexivity].
  rewrite (H i); [reflexivity|].
  exact (offset4_index 3 idx i ltac:(lia) Hidx E).
Qed.

(* ----------------------------------------------------------------- *)
(** ** Progress reports *)

Lemma inject_Z_nonzero t : t <> 0%Z -> ~ (inject_Z t == 0)%Q.
Proof. unfold Qeq. simpl. lia. Qed.

Lemma Qeq_bool_inject_Z t : t <> 0%Z -> Qeq_bool (inject_Z t) 0 = false.
Proof.
  intros Ht. apply not_true_is_false. rewrite Qeq_bool_iff.
  now apply inject_Z_nonzero.
Qed.

Lemma div_of_Z p t :
  t <> 0%Z -> JS.div (JS.of_Z p) (JS.of_Z t) = JS.fin (inject_Z p / inject_Z t).
Proof.
  intros Ht. unfold JS.div, JS.of_Z. now rewrite Qeq_bool_inject_Z.
Qed.

Lemma report_value p t :
  (0 < t)%Z ->
  JS.round (JS.mul (JS.div (JS.of_Z p) (JS.of_Z t)) (JS.of_Z 100)) = JS.of_Z (pct p t).
Proof.
  intros Ht. rewrite div_of_Z by lia.
  unfold JS.fin, JS.mul, JS.of_Z, JS.fin, JS.round, JS.of_Z. do 2 f_equal.
  unfold pct, nearest. rewrite Zdiv_Qdiv. apply Qfloor_comp.
  rewrite !Qred_correct.
  rewrite inject_Z_plus, !inject_Z_mult.
  field. apply inject_Z_nonzero. lia.
Qed.

Lemma pct_mono p q t : (0 < t)%Z -> (p <= q)%Z -> (pct p t <= pct q t)%Z.
Proof. intros Ht Hpq. unfold pct, nearest. apply Z.div_le_mono; lia. Qed.

Lemma pct_full t : (0 < t)%Z -> pct t t = 100%Z.
Proof.
  intros Ht. unfold pct, nearest. symmetry. apply (Z.div_unique _ _ 100 t); lia.
Qed.

Lemma pct_zero t : (0 < t)%Z -> pct 0 t = 0%Z.
Proof.
  intros Ht. unfold pct, nearest. symmetry. apply (Z.div_unique _ _ 0 t); lia.
Qed.

Lemma min_of_Z a b : JS.min (JS.of_Z a) (JS.of_Z b) = JS.of_Z (Z.min a b).
Proof.
  unfold JS.min. change (JS.of_Z a) with (JS.Fin (inject_Z a)) at 1.
  change (JS.of_Z b) with (JS.Fin (inject_Z b)) at 1.
  cbv iota beta. fold (JS.of_Z a) (JS.of_Z b). rewrite lt_of_Z.
  destruct (Z.ltb_spec b a); [rewrite Z.min_r by lia|rewrite Z.min_l by lia];
    reflexivity.
Qed.

Lemma rows_length n y e :
  List.length (rows n y (JS.of_Z e)) = Nat.min n (Z.to_nat (e - y)).
Proof.
  revert y. induction n as [|n IH]; intros y; cbn [rows]; [reflexivity|].
  rewrite lt_of_Z. destruct (Z.ltb_spec y e) as [H|H].
  - cbn [List.length]. rewrite IH. lia.
  - cbn [List.length]. lia.
Qed.

Section Progress.

Variable DMC_COLORS : list DMC.t.
Variable imageData : Image.t.
Variable gridSize : nat.
Variable options : Options.t.

Local Abbreviation cell' := (cell DMC_COLORS imageData gridSize options).
Local Abbreviation sweep' := (sweep DMC_COLORS imageData gridSize options).
Local Abbreviation processChunk' := (processChunk DMC_COLORS imageData gridSize options).
Local Abbreviation gridHeight' := (gridHeight imageData gridSize).
Local Abbreviation gridWidth' := (gridWidth gridSize).
Local Abbreviation total' := (total imageData gridSize).

Lemma gridHeight_finite :
  (1 <= Image.width imageData)%nat -> exists h, gridHeight' = JS.of_Z h.
Proof.
  intros Hw. unfold gridHeight, aspectRatio, height, width,
    gridWidth, JS.of_nat.
  rewrite div_of_Z by lia.
  unfold JS.fin, JS.of_Z, JS.mul, JS.fin, JS.round. eexists. reflexivity.
Qed.

Lemma cell_processed y x st st' :
  cell' y x st = Some st' -> processed st' = (processed st + 1)%Z.
Proof.
  unfold cell. destruct (JS.gt _ _); [|intros H; now injection H as <-].
  match goal with |- context [if ?c then _ else _] => destruct c end;
    [intros H; now injection H as <-|].
  destruct (findClosestDMC _ _ _ _) as [dmc|]; [|discriminate].
  destruct (tally dmc (colorCounts st)) as [counts|]; [|discriminate].
  intros H. now injection H as <-.
Qed.

Lemma row_processed y xs :
  forall st st', foldM (cell' y) xs st = Some st' ->
    processed st' = (processed st + Z.of_nat (List.length xs))%Z.
Proof.
  induction xs as [|x xs IH]; intros st st' H; simpl in H.
  - injection H as <-. simpl. lia.
  - destruct (cell' y x st) as [st1|] eqn:E; [|discriminate].
    rewrite (IH _ _ H), (cell_processed _ _ _ _ E). simpl List.length. lia.
Qed.

Lemma sweep_processed startY endY st st' :
  sweep' startY endY st = Some st' ->
  processed st' =
    (processed st + Z.of_nat gridSize *
       Z.of_nat (List.length (rows (Z.to_nat chunkSize) startY endY)))%Z.
Proof.
  unfold sweep. generalize (rows (Z.to_nat chunkSize) startY endY).
  intros ys. revert st. induction ys as [|y ys IH]; intros st H; simpl in H.
  - injection H as <-. simpl. lia.
  - destruct (foldM (cell' y) _ st) as [st1|] eqn:E; [|discriminate].
    rewrite (IH _ H), (row_processed _ _ _ _ E), length_seq.
    simpl List.length. lia.
Qed.

Lemma processChunk_S fuel startY st reports :
  processChunk' (S fuel) startY st reports =
    let endY := JS.min (JS.of_Z (startY + chunkSize)) gridHeight' in
    match sweep' startY endY st with
    | None => Thrown
    | Some st' =>
        let reports' :=
          reports ++ [JS.round (JS.mul (JS.div (JS.of_Z (processed st')) total')
                                       (JS.of_Z 100))] in
        if JS.lt endY gridHeight'
        then processChunk' fuel (startY + chunkSize) st' reports'
        else Resolved (pattern_of gridWidth' gridHeight' st', reports')
    end.
Proof. reflexivity. Qed.

Variable h : Z.
Hypothesis Hgh : gridHeight' = JS.of_Z h.
Hypothesis Hgs : (1 <= gridSize)%nat.
Hypothesis Hh : (1 <= h)%Z.

Lemma total_value : total' = JS.of_Z (Z.of_nat gridSize * h).
Proof.
  unfold total. fold gridHeight'. rewrite Hgh.
  unfold gridWidth, JS.of_nat. apply mul_of_Z.
Qed.

(** The reports of the chunks from [startY] on. *)
Lemma reports_from fuel :
  forall startY st reports p tr,
    (0 <= startY < h)%Z ->
    processed st = (Z.of_nat gridSize * startY)%Z ->
    processChunk' fuel startY st reports = Resolved (p, tr) ->
    exists ks,
      tr = reports ++ map JS.of_Z ks /\
      Forall (fun k => pct (Z.of_nat gridSize * startY) (Z.of_nat gridSize * h) <= k
                       /\ k <= 100)%Z ks /\
      Sorted Z.le ks /\
      last ks 0%Z = 100%Z /\
      (5 * Z.of_nat (List.length ks) - 5 < h - startY <= 5 * Z.of_nat (List.length ks))%Z.
Proof.
  assert (Ht : (0 < Z.of_nat gridSize * h)%Z) by nia.
  induction fuel as [|fuel IH]; intros startY st reports p tr Hs Hp H;
    [discriminate|].
  rewrite processChunk_S in H. cbv zeta in H. rewrite Hgh, min_of_Z in H.
  destruct (sweep' startY _ st) as [st'|] eqn:E; [|discriminate].
  apply sweep_processed in E. rewrite rows_length in E.
  rewrite total_value, report_value in H by exact Ht.
  rewrite lt_of_Z in H. unfold chunkSize in *.
  set (e := Z.min (startY + 5) h) in *.
  assert (Hp' : processed st' = (Z.of_nat gridSize * e)%Z).
  { rewrite E, Hp. unfold e. change (Z.to_nat 5) with 5%nat. nia. }
  rewrite Hp' in H.
  assert (Hlo : (pct (Z.of_nat gridSize * startY) (Z.of_nat gridSize * h)
                 <= pct (Z.of_nat gridSize * e) (Z.of_nat gridSize * h))%Z).
  { apply pct_mono; [exact Ht|]. unfold e. nia. }
  assert (Hhi : (pct (Z.of_nat gridSize * e) (Z.of_nat gridSize * h) <= 100)%Z).
  { rewrite <- (pct_full (Z.of_nat gridSize * h)) by exact Ht.
    apply pct_mono; [exact Ht|]. unfold e. nia. }
  destruct (Z.ltb_spec e h) as [Hlt|Hge].
  - assert (He : e = (startY + 5)%Z) by (unfold e in *; lia).
    apply IH in H; [|lia|now rewrite Hp', He].
    destruct H as (ks & -> & HF & Hsort & Hlast & Hlen).
    exists (pct (Z.of_nat gridSize * e) (Z.of_nat gridSize * h) :: ks).
    split; [now rewrite <- app_assoc|]. split; [|split; [|split]].
    + constructor; [lia|]. eapply Forall_impl; [|exact HF].
      cbv beta. intros k Hk. rewrite He in Hlo. lia.
    + constructor; [exact Hsort|]. destruct ks as [|k ks]; constructor.
      inversion HF as [|? ? Hk HF']; subst. rewrite He. lia.
    + destruct ks as [|k ks]; [simpl in Hlen; lia|exact Hlast].
    + simpl List.length. lia.
  - assert (He : e = h) by (unfold e in *; lia).
    rewrite He, pct_full in H by exact Ht.
    injection H as <- <-. exists [100%Z].
    split; [reflexivity|]. split; [|split; [|split]].
    + constructor; [|constructor]. split; [|lia].
      rewrite He in Hlo. now rewrite pct_full in Hlo.
    + repeat constructor.
    + reflexivity.
    + simpl. lia.
Qed.

End Progress.

(* ----------------------------------------------------------------- *)
(** ** Termination *)

Lemma foldM_total {A S : Type} (f : A -> S -> option S) l :
  (forall a s, exists s', f a s = Some s') ->
  forall s, exists s', foldM f l s = Some s'.
Proof.
  intros Hf. induction l as [|a l IH]; intros s; simpl; [eauto|].
  destruct (Hf a s) as [s1 ->]. apply IH.
Qed.

Section Termination.

Variable DMC_COLORS : list DMC.t.
Variable imageData : Image.t.
Variable gridSize : nat.
Variable options : Options.t.

Local Abbreviation cell' := (cell DMC_COLORS imageData gridSize options).
Local Abbreviation sweep' := (sweep DMC_COLORS imageData gridSize options).
Local Abbreviation processChunk' := (processChunk DMC_COLORS imageData gridSize options).
Local Abbreviation gridHeight' := (gridHeight imageData gridSize).
Local Abbreviation gridWidth' := (gridWidth gridSize).
Local Abbreviation total' := (total imageData gridSize).

Lemma cell_total y x st : DMC_COLORS <> [] -> exists st', cell' y x st = Some st'.
Proof.
  intros Hne. unfold cell. destruct (JS.gt _ _); [|eauto].
  match goal with |- context [if ?c then _ else _] => destruct c end; [eauto|].
  unfold findClosestDMC.
  match goal with |- context [closest DMC.hex ?r ?g ?b _] =>
    destruct (closest_total DMC.hex r g b DMC_COLORS Hne) as [dmc ->] end.
  destruct (tally_total dmc (colorCounts st)) as [c ->]. eauto.
Qed.

Lemma sweep_total startY endY st :
  DMC_COLORS <> [] -> exists st', sweep' startY endY st = Some st'.
Proof.
  intros Hne. unfold sweep. apply foldM_total.
  intros y s. apply foldM_total. intros x s0. now apply cell_total.
Qed.

(** More animation frames do not change the result. *)
Lemma processChunk_mono fuel :
  forall startY st reports res k,
    processChunk' fuel startY st reports = Resolved res ->
    processChunk' (fuel + k) startY st reports = Resolved res.
Proof.
  induction fuel as [|fuel IH]; intros startY st reports res k H; [discriminate|].
  change (S fuel + k)%nat with (S (fuel + k)).
  rewrite processChunk_S in *. cbv zeta in *.
  destruct (sweep' startY _ st) as [st'|]; [|discriminate].
  destruct (JS.lt _ gridHeight'); [now apply IH|exact H].
Qed.

Lemma processChunk_deterministic f1 f2 startY st reports res1 res2 :
  processChunk' f1 startY st reports = Resolved res1 ->
  processChunk' f2 startY st reports = Resolved res2 ->
  res1 = res2.
Proof.
  intros H1 H2.
  apply processChunk_mono with (k := f2) in H1.
  apply processChunk_mono with (k := f1) in H2.
  rewrite Nat.add_comm in H2. congruence.
Qed.

(** A finite grid is swept in finitely many chunks. *)
Lemma processChunk_terminates h :
  gridHeight' = JS.of_Z h -> DMC_COLORS <> [] ->
  forall n startY st reports,
    (h - startY <= 5 * Z.of_nat n + 5)%Z ->
    exists p tr, processChunk' (S n) startY st reports = Resolved (p, tr).
Proof.
  intros Hgh Hne. induction n as [|n IH]; intros startY st reports Hn;
    rewrite processChunk_S; cbv zeta; rewrite Hgh, min_of_Z, lt_of_Z;
    destruct (sweep_total startY (JS.of_Z (Z.min (startY + chunkSize) h)) st Hne)
      as [st' ->]; unfold chunkSize in *.
  - destruct (Z.ltb_spec (Z.min (startY + 5) h) h); [lia|eauto].
  - destruct (Z.ltb_spec (Z.min (startY + 5) h) h); [|eauto].
    apply IH. lia.
Qed.




End Termination.

(** The grid height as an integer division. *)
Lemma gridHeight_value imageData gridSize :
  (1 <= Image.width imageData)%nat ->
  gridHeight imageData gridSize =
    JS.of_Z ((2 * Z.of_nat gridSize * Z.of_nat (Image.height imageData)
              + Z.of_nat (Image.width imageData))
             / (2 * Z.of_nat (Image.width imageData))).
Proof.
  intros Hw. unfold gridHeight, aspectRatio, height, width, gridWidth, JS.of_nat.
  rewrite div_of_Z by lia.
  unfold JS.fin, JS.mul, JS.of_Z, JS.fin, JS.round, JS.of_Z. do 2 f_equal.
  rewrite Zdiv_Qdiv. apply Qfloor_comp. rewrite !Qred_correct.
  rewrite inject_Z_plus, !inject_Z_mult.
  field. apply inject_Z_nonzero. lia.
Qed.



(* ----------------------------------------------------------------- *)
(** ** Background removal *)

Lemma foldM_rel {A S1 S2 : Type} (R : S1 -> S2 -> Prop)
    (f1 : A -> S1 -> option S1) (f2 : A -> S2 -> option S2) l :
  (forall a s1 s2 s1' s2',
     R s1 s2 -> f1 a s1 = Some s1' -> f2 a s2 = Some s2' -> R s1' s2') ->
  forall s1 s2 s1' s2',
    R s1 s2 -> foldM f1 l s1 = Some s1' -> foldM f2 l s2 = Some s2' -> R s1' s2'.
Proof.
  intros Hf. induction l as [|a l IH]; intros s1 s2 s1' s2' HR H1 H2;
    simpl in H1, H2.
  - injection H1 as <-. injection H2 as <-. exact HR.
  - destruct (f1 a s1) as [t1|] eqn:E1; [|discriminate].
    destruct (f2 a s2) as [t2|] eqn:E2; [|discriminate].
    apply (IH t1 t2); eauto.
Qed.

Section Monotone.

Variable DMC_COLORS : list DMC.t.
Variable imageData : Image.t.
Variable gridSize : nat.
Variable options : Options.t.

Lemma dither_alpha o data sampleX sampleY r g b dmc :
  intlike sampleX -> intlike sampleY ->
  same_alpha (dither imageData o data sampleX sampleY r g b dmc) data.
Proof.
  intros HX HY. unfold dither.
  assert (Hw : intlike (width imageData)) by apply intlike_of_Z.
  assert (H1 : intlike n1) by apply intlike_of_Z.
  assert (H2 : intlike n2) by apply intlike_of_Z.
  destruct (String.eqb _ "floyd-steinberg");
    [|destruct (String.eqb _ "atkinson"); [|apply same_alpha_refl]];
    repeat (eapply same_alpha_trans;
            [apply distributeError_alpha;
             auto using intlike_add, intlike_sub|]);
    apply same_alpha_refl.
Qed.

Lemma sample_index y x :
  offset4 3
    (JS.add
       (JS.mul
          (JS.add
             (JS.mul
                (JS.floor (JS.add (JS.mul (JS.of_Z y) (cellHeight imageData gridSize))
                                  (JS.div (cellHeight imageData gridSize) n2)))
                (width imageData))
             (JS.floor (JS.add (JS.mul (JS.of_nat x) (cellWidth imageData gridSize))
                               (JS.div (cellWidth imageData gridSize) n2))))
          n4)
       (JS.of_Z 3)).
Proof.
  apply offset4_add, offset4_mul, intlike_add; [apply intlike_mul|];
    auto using intlike_floor, intlike_of_Z.
  apply intlike_of_Z.
Qed.

Lemma cell_fewer y x st1 st2 st1' st2' :
  fewer st1 st2 ->
  cell DMC_COLORS imageData gridSize options y x st1 = Some st1' ->
  cell DMC_COLORS imageData gridSize (without_background options) y x st2 = Some st2' ->
  fewer st1' st2'.
Proof.
  intros [Ha Hl]. unfold cell.
  rewrite (load_alpha _ _ _ Ha (sample_index y x)).
  destruct (JS.gt _ _).
  2:{ intros H1 H2. injection H1 as <-. injection H2 as <-. now split. }
  cbn [Options.removeBackground Options.backgroundColor without_background
       Options.useDithering andb].
  replace (match Options.backgroundColor options with
           | Some _ => false | None => false end) with false
    by (now destruct (Options.backgroundColor options)).
  intros H1 H2.
  destruct (findClosestDMC DMC_COLORS _ _ _) as [dmc2|] in H2; [|discriminate].
  destruct (tally dmc2 _) as [c2|] in H2; [|discriminate].
  injection H2 as <-.
  assert (Hd2 : forall d r g b,
    same_alpha (if Options.useDithering options
                then dither imageData (without_background options) d
                       (JS.floor (JS.add (JS.mul (JS.of_nat x) (cellWidth imageData gridSize))
                                         (JS.div (cellWidth imageData gridSize) n2)))
                       (JS.floor (JS.add (JS.mul (JS.of_Z y) (cellHeight imageData gridSize))
                                         (JS.div (cellHeight imageData gridSize) n2)))
                       r g b dmc2
                else d) d).
  { intros d r g b. destruct (Options.useDithering options);
      [apply dither_alpha; apply intlike_floor|apply same_alpha_refl]. }
  match type of H1 with (if ?c then _ else _) = _ => destruct c end.
  - injection H1 as <-. split; simpl.
    + eapply same_alpha_trans; [exact Ha|]. apply same_alpha_sym, Hd2.
    + rewrite length_app. simpl. lia.
  - destruct (findClosestDMC DMC_COLORS _ _ _) as [dmc1|] in H1; [|discriminate].
    destruct (tally dmc1 _) as [c1|] in H1; [|discriminate].
    injection H1 as <-. split; simpl.
    + eapply same_alpha_trans; [|apply same_alpha_sym, Hd2].
      eapply same_alpha_trans; [|exact Ha].
      destruct (Options.useDithering options);
        [apply dither_alpha; apply intlike_floor|apply same_alpha_refl].
    + rewrite !length_app. simpl. lia.
Qed.

Lemma processChunk_fewer fuel :
  forall startY st1 st2 r1 r2 p1 t1 p2 t2,
    fewer st1 st2 ->
    processChunk DMC_COLORS imageData gridSize options fuel startY st1 r1
      = Resolved (p1, t1) ->
    processChunk DMC_COLORS imageData gridSize (without_background options)
                 fuel startY st2 r2 = Resolved (p2, t2) ->
    (List.length (Pattern.stitches p1) <= List.length (Pattern.stitches p2))%nat.
Proof.
  induction fuel as [|fuel IH]; intros startY st1 st2 r1 r2 p1 t1 p2 t2 HR H1 H2;
    [discriminate|].
  rewrite processChunk_S in H1, H2. cbv zeta in H1, H2.
  destruct (sweep _ _ _ options _ _ st1) as [st1'|] eqn:E1; [|discriminate].
  destruct (sweep _ _ _ (without_background options) _ _ st2) as [st2'|] eqn:E2;
    [|discriminate].
  assert (HR' : fewer st1' st2').
  { unfold sweep in E1, E2. revert E1 E2. apply foldM_rel; [|exact HR].
    intros y s1 s2 s1' s2' HRs. apply foldM_rel; [|exact HRs].
    intros x. apply cell_fewer. }
  destruct (JS.lt _ _).
  - exact (IH _ _ _ _ _ _ _ _ _ HR' H1 H2).
  - injection H1 as <- _. injection H2 as <- _. apply HR'.
Qed.

End Monotone.

Lemma removeBackground_monotone DMC_COLORS imageData gridSize options f1 f2 p1 t1 p2 t2 :
  convertToPattern DMC_COLORS imageData gridSize options f1 = Resolved (p1, t1) ->
  convertToPattern DMC_COLORS imageData gridSize (without_background options) f2
    = Resolved (p2, t2) ->
  (List.length (Pattern.stitches p1) <= List.length (Pattern.stitches p2))%nat.
Proof.
  unfold convertToPattern. intros H1 H2.
  apply processChunk_mono with (k := f2) in H1.
  apply processChunk_mono with (k := f1) in H2.
  rewrite Nat.add_comm in H2.
  eapply processChunk_fewer; [|exact H1|exact H2].
  split; [apply same_alpha_refl|simpl; lia].
Qed.

(* ----------------------------------------------------------------- *)
(** ** Distances and the heart mask *)

Lemma channel_valid a b hex :
  JS.is_nan (channel a b hex) = false ->
  channel a b hex = JS.of_Z (channel_value a b hex).
Proof.
  unfold channel_value, channel, Str.parseInt16.
  destruct (match Str.trim_start (Str.slice a b hex) with
            | String c t =>
                if Ascii.eqb c "-" then (true, t)
                else if Ascii.eqb c "+" then (false, t)
                else (false, Str.trim_start (Str.slice a b hex))
            | EmptyString => (false, Str.trim_start (Str.slice a b hex))
            end) as [negative s2].
  destruct (Str.hex_prefix _ None) as [v|]; [|discriminate].
  intros _. unfold JS.of_Z. cbv iota. now rewrite Qfloor_Z.
Qed.

Lemma distance_value hex r g b :
  valid_hex hex = true ->
  exists q, distance hex (JS.of_Z r) (JS.of_Z g) (JS.of_Z b) = JS.Fin q /\
            (q == weighted_distance hex r g b)%Q.
Proof.
  unfold valid_hex. rewrite !andb_true_iff, !negb_true_iff.
  intros [[Hr Hg] Hb]. unfold distance.
  rewrite (channel_valid _ _ _ Hr), (channel_valid _ _ _ Hg), (channel_valid _ _ _ Hb).
  rewrite !sub_of_Z. unfold weighted. rewrite !mul_of_Z.
  unfold n03, n059, n011, JS.mul, JS.add, JS.of_Z, JS.fin.
  eexists. split; [reflexivity|].
  unfold weighted_distance. rewrite !Qred_correct, !inject_Z_mult. reflexivity.
Qed.

Lemma findClosestDMC_first_min DMC_COLORS r g b :
  DMC_COLORS <> [] ->
  forallb (fun c => valid_hex (DMC.hex c)) DMC_COLORS = true ->
  exists pre res post,
    DMC_COLORS = pre ++ res :: post /\
    findClosestDMC DMC_COLORS (JS.of_Z r) (JS.of_Z g) (JS.of_Z b) = Some res /\
    (forall c, In c DMC_COLORS ->
       (weighted_distance (DMC.hex res) r g b <= weighted_distance (DMC.hex c) r g b)%Q) /\
    (forall c, In c pre ->
       (weighted_distance (DMC.hex res) r g b < weighted_distance (DMC.hex c) r g b)%Q).
Proof.
  intros Hne Hvalid. rewrite forallb_forall in Hvalid.
  set (q := fun c : DMC.t =>
         match distance (DMC.hex c) (JS.of_Z r) (JS.of_Z g) (JS.of_Z b) with
         | JS.Fin q => q
         | _ => 0%Q
         end).
  assert (Hq : forall c, In c DMC_COLORS ->
            distance (DMC.hex c) (JS.of_Z r) (JS.of_Z g) (JS.of_Z b) = JS.Fin (q c) /\
            (q c == weighted_distance (DMC.hex c) r g b)%Q).
  { intros c Hc. destruct (distance_value (DMC.hex c) r g b (Hvalid c Hc))
      as (q0 & Hd & Hq0). unfold q. rewrite Hd. auto. }
  destruct (closest_first_min DMC.hex (JS.of_Z r) (JS.of_Z g) (JS.of_Z b) q
              DMC_COLORS Hne (fun c Hc => proj1 (Hq c Hc)))
    as (pre & res & post & Hsplit & Hres & Hmin & Hpre).
  exists pre, res, post. split; [exact Hsplit|]. split; [exact Hres|].
  assert (Hin : In res DMC_COLORS) by (rewrite Hsplit; apply in_elt).
  split.
  - intros c Hc. rewrite <- (proj2 (Hq c Hc)), <- (proj2 (Hq res Hin)).
    apply Hmin. now rewrite <- Hsplit.
  - intros c Hc.
    assert (Hc' : In c DMC_COLORS) by (rewrite Hsplit; apply in_or_app; now left).
    rewrite <- (proj2 (Hq c Hc')), <- (proj2 (Hq res Hin)). now apply Hpre.
Qed.

Lemma fin_zero q : (q == 0)%Q -> JS.fin q = JS.Fin 0.
Proof. intros H. unfold JS.fin. f_equal. now rewrite (Qred_complete _ _ H). Qed.

Lemma root_le_nan s : JS.root_le s JS.NaN = false.
Proof. destruct s as [[| | |d]]; simpl; auto. now destruct (JS.Qltb d 0). Qed.

Lemma half_nonzero h : h <> 0%Z -> ~ (inject_Z h / inject_Z 2 == 0)%Q.
Proof.
  intros Hh H. apply (inject_Z_nonzero h Hh).
  unfold Qdiv in H. change (/ inject_Z 2)%Q with (1 # 2)%Q in H. lra.
Qed.

Lemma centred_zero y :
  (0 < y)%Z ->
  JS.div (JS.sub (JS.of_Z y) (JS.div (JS.of_Z (2 * y)) n2))
         (JS.div (JS.of_Z (2 * y)) n2) = JS.Fin 0.
Proof.
  intros Hy. unfold n2. rewrite !div_of_Z by lia.
  unfold JS.fin, JS.of_Z, JS.sub, JS.div, JS.fin.
  replace (Qeq_bool (Qred (inject_Z (2 * y) / inject_Z 2)) 0) with false.
  - f_equal. rewrite (Qred_complete _ 0); [reflexivity|].
    rewrite !Qred_correct, inject_Z_mult. field.
    apply inject_Z_nonzero. lia.
  - symmetry. apply not_true_is_false. rewrite Qeq_bool_iff, Qred_correct.
    apply half_nonzero. lia.
Qed.

Lemma centred_positive x w :
  (0 < w)%Z -> (w < 2 * x)%Z ->
  exists q,
    JS.div (JS.sub (JS.of_Z x) (JS.div (JS.of_Z w) n2)) (JS.div (JS.of_Z w) n2)
      = JS.Fin q /\ (0 < q)%Q.
Proof.
  intros Hw Hx. unfold n2. rewrite !div_of_Z by lia.
  unfold JS.fin, JS.of_Z, JS.sub, JS.div, JS.fin.
  assert (Hwq : (0 < inject_Z w)%Q)
    by (change 0%Q with (inject_Z 0); rewrite <- Zlt_Qlt; lia).
  assert (Hxq : (inject_Z w < 2 * inject_Z x)%Q)
    by (change 2%Q with (inject_Z 2); rewrite <- inject_Z_mult, <- Zlt_Qlt; lia).
  replace (Qeq_bool (Qred (inject_Z w / inject_Z 2)) 0) with false.
  - eexists. split; [reflexivity|]. rewrite !Qred_correct.
    apply Qlt_shift_div_l;
      unfold Qdiv; change (/ inject_Z 2)%Q with (1 # 2)%Q; lra.
  - symmetry. apply not_true_is_false. rewrite Qeq_bool_iff, Qred_correct.
    apply half_nonzero. lia.
Qed.

Lemma heart_axis M w h x y c :
  special_values M ->
  (0 < w)%Z -> (0 < h)%Z -> (2 * y = h)%Z -> (w < 2 * x)%Z ->
  inside M (JS.of_Z w) (JS.of_Z h) "heart"
    {| Stitch.x := x; Stitch.y := y; Stitch.color := c |} = false.
Proof.
  intros (Hatan & Hsin & Hcos & Hlog) Hw Hh Hy Hx. subst h. unfold inside.
  cbn [Stitch.x Stitch.y String.eqb Ascii.eqb Bool.eqb].
  cbv iota.
  destruct (centred_positive x w Hw Hx) as (q & Hdx & Hq).
  rewrite centred_zero, Hdx, (Hatan q Hq) by lia.
  change (JS.abs (JS.Fin 0)) with (JS.Fin 0).
  rewrite Hsin, Hcos, Hlog.
  change (JS.mul (JS.mul (JS.Fin 0) (JS.Fin 1)) JS.NInf) with JS.NaN.
  apply root_le_nan.
Qed.

(* ----------------------------------------------------------------- *)
(** ** Three colours *)






(* ----------------------------------------------------------------- *)
(** ** Main results *)

(** C1 -- palette coverage.  Every pattern [convertToPattern] resolves
    with ties its stitches to its colour counts: the id of every stitch
    is a key of [colorCounts], the count stored under each key is the
    number of stitches of that id, and the counts add up to the number
    of stitches.  [limitColors], [mergeColors] and [applyShapeMask]
    return a pattern with that property whenever they are given one. *)
Theorem palette_coverage_invariant :
  (forall DMC_COLORS imageData gridSize options fuel p reports,
     convertToPattern DMC_COLORS imageData gridSize options fuel
       = Resolved (p, reports) ->
     Obj.wf (Pattern.colorCounts p) /\ palette_coverage p) /\
  (forall p maxColors p',
     Obj.wf (Pattern.colorCounts p) -> palette_coverage p ->
     limitColors p maxColors = Some p' ->
     Obj.wf (Pattern.colorCounts p') /\ palette_coverage p') /\
  (forall p mergeTolerance p',
     Obj.wf (Pattern.colorCounts p) -> palette_coverage p ->
     mergeColors p mergeTolerance = Some p' ->
     Obj.wf (Pattern.colorCounts p') /\ palette_coverage p') /\
  (forall M p shape p',
     Obj.wf (Pattern.colorCounts p) -> palette_coverage p ->
     applyShapeMask M p shape = Some p' ->
     Obj.wf (Pattern.colorCounts p') /\ palette_coverage p').
Proof.
  split; [|split; [|split]].
  - intros. eapply convertToPattern_coverage; eauto.
  - intros. eapply limitColors_coverage; eauto.
  - intros. eapply mergeColors_coverage; eauto.
  - intros. eapply applyShapeMask_coverage; eauto.
Qed.

Lemma palette_coverage_invariant_witness :
  exists p reports p1 p2 p3,
    convertToPattern sample_palette column_image 1 plain_options 2
      = Resolved (p, reports) /\
    limitColors p 1 = Some p1 /\
    mergeColors p (JS.of_Z 10) = Some p2 /\
    applyShapeMask flat_math p "diamond" = Some p3 /\
    palette_coverage p /\ palette_coverage p1 /\
    palette_coverage p2 /\ palette_coverage p3.
Proof.
  destruct palette_coverage_invariant as (Hconvert & Hlimit & Hmerge & Hmask).
  do 5 eexists.
  split; [vm_compute; reflexivity|].
  split; [vm_compute; reflexivity|].
  split; [vm_compute; reflexivity|].
  split; [vm_compute; reflexivity|].
  match goal with
  | |- palette_coverage ?p /\ palette_coverage ?p1 /\
       palette_coverage ?p2 /\ palette_coverage ?p3 =>
      destruct (Hconvert sample_palette column_image 1%nat plain_options 2%nat p
                  [JS.of_Z 83; JS.of_Z 100] ltac:(vm_compute; reflexivity))
        as [Hwf Hcov];
      destruct (Hlimit p 1%Z p1 Hwf Hcov ltac:(vm_compute; reflexivity))
        as [_ H1];
      destruct (Hmerge p (JS.of_Z 10) p2 Hwf Hcov ltac:(vm_compute; reflexivity))
        as [_ H2];
      destruct (Hmask flat_math p "diamond"%string p3 Hwf Hcov
                  ltac:(vm_compute; reflexivity))
        as [_ H3]
  end.
  auto.
Defined.







(** C4, as the code stands.  The heart predicate has no guard against
    [log(0)]: for a stitch on the horizontal axis, right of the centre,
    [t] is 0, the product [sin(t) * cos(t) * log(|t|)] is [0 * -Infinity],
    that is [NaN], and the comparison with [NaN] fails.  The stitch of
    [axis_pattern], at distance 0.5 of the centre, is dropped. *)
Theorem heart_axis_dropped :
  forall M, special_values M ->
    applyShapeMask M axis_pattern "heart" =
      Some {| Pattern.stitches := [];
              Pattern.width := JS.of_Z 4;
              Pattern.height := JS.of_Z 4;
              Pattern.colorCounts := Obj.empty |}.
Proof.
  intros M HM. unfold applyShapeMask, axis_pattern, stitch_at.
  cbn [String.eqb Ascii.eqb Bool.eqb orb Pattern.stitches Pattern.width
       Pattern.height filter].
  rewrite (heart_axis M 4 4 3 2 red HM) by lia. reflexivity.
Qed.

Lemma heart_axis_dropped_witness :
  special_values flat_math /\
  applyShapeMask flat_math axis_pattern "heart" =
    Some {| Pattern.stitches := [];
            Pattern.width := JS.of_Z 4;
            Pattern.height := JS.of_Z 4;
            Pattern.colorCounts := Obj.empty |}.
Proof.
  assert (H : special_values flat_math) by (repeat split; reflexivity).
  split; [exact H|]. apply (heart_axis_dropped flat_math H).
Defined.



Lemma sample_pattern_sound :
  Obj.wf (Pattern.colorCounts sample_pattern) /\
  keyed_by_id (Pattern.colorCounts sample_pattern) /\
  palette_coverage sample_pattern.
Proof.
  split; [|split].
  - unfold Obj.wf. simpl. repeat constructor; simpl; intuition discriminate.
  - intros k u H. simpl in H. intuition (try contradiction);
      match goal with E : _ = (_, _) |- _ => injection E as <- <- end; reflexivity.
  - split; [|split].
    + intros s H. simpl in H. intuition (subst; try contradiction; reflexivity).
    + intros id u H. cbn [sample_pattern Pattern.colorCounts Pattern.stitches] in *.
      unfold used in H. cbn [Obj.get DMC.id red rose blue] in H.
      repeat match type of H with
             | (if String.eqb ?k ?k' then _ else _) = _ =>
                 destruct (String.eqb_spec k k')
             end; try discriminate; injection H as <-; subst; reflexivity.
    + reflexivity.
Defined.


(** C6 -- the bound of [limitColors].  For [maxColors >= 1] the call
    returns a pattern whose [colorCounts] has at most [maxColors] keys
    and whose list of stitches has the length it had. *)
Theorem limitColors_at_most :
  forall p maxColors,
    (1 <= maxColors)%Z ->
    exists p',
      limitColors p maxColors = Some p' /\
      (Z.of_nat (List.length (Obj.keys (Pattern.colorCounts p'))) <= maxColors)%Z /\
      List.length (Pattern.stitches p') = List.length (Pattern.stitches p).
Proof.
  intros p maxColors Hk.
  destruct (limitColors_total p maxColors Hk) as [p' Hrun].
  exists p'. split; [exact Hrun|]. split.
  - now apply (limitColors_bound p).
  - destruct (limitColors_frame _ _ _ Hrun) as [Hc _].
    apply (f_equal (@List.length _)) in Hc. now rewrite !length_map in Hc.
Qed.

Lemma limitColors_at_most_witness :
  exists p',
    limitColors sample_pattern 2 = Some p' /\
    (Z.of_nat (List.length (Obj.keys (Pattern.colorCounts p'))) <= 2)%Z /\
    List.length (Pattern.stitches p') = 6%nat.
Proof.
  apply (limitColors_at_most sample_pattern 2). lia.
Defined.

(** C7 -- background removal never adds stitches.  Two runs on the same
    buffer, grid width and options, one of them with background removal
    switched off: if both resolve, the run with the removal has at most
    as many stitches.  Dithering changes nothing to that, since it never
    writes an alpha sample. *)
Theorem removeBackground_never_adds :
  forall DMC_COLORS imageData gridSize options fuel1 fuel2 p1 reports1 p2 reports2,
    convertToPattern DMC_COLORS imageData gridSize options fuel1
      = Resolved (p1, reports1) ->
    convertToPattern DMC_COLORS imageData gridSize (without_background options) fuel2
      = Resolved (p2, reports2) ->
    (List.length (Pattern.stitches p1) <= List.length (Pattern.stitches p2))%nat.
Proof. intros. eapply removeBackground_monotone; eauto. Qed.

Lemma removeBackground_never_adds_witness :
  exists p1 reports1 p2 reports2,
    convertToPattern sample_palette column_image 1 removal_options 2
      = Resolved (p1, reports1) /\
    convertToPattern sample_palette column_image 1
      (without_background removal_options) 3 = Resolved (p2, reports2) /\
    List.length (Pattern.stitches p1) = 3%nat /\
    List.length (Pattern.stitches p2) = 5%nat /\
    (List.length (Pattern.stitches p1) <= List.length (Pattern.stitches p2))%nat.
Proof.
  do 4 eexists.
  split; [vm_compute; reflexivity|].
  split; [vm_compute; reflexivity|].
  split; [reflexivity|]. split; [reflexivity|].
  eapply (removeBackground_never_adds sample_palette column_image 1 removal_options
            2 3); vm_compute; reflexivity.
Defined.

(** C8 -- progress reports.  On a buffer of width at least 1 and a grid
    of at least one cell, a run that resolves has called [onProgress]
    once per chunk of five rows, each time with an integer between 0 and
    100; the values never decrease and the last one is 100.  With a
    non-empty thread table the run does resolve. *)
Theorem progress_reports :
  forall DMC_COLORS imageData gridSize options,
    (1 <= Image.width imageData)%nat ->
    (1 <= gridSize)%nat ->
    JS.le n1 (gridHeight imageData gridSize) = true ->
    (DMC_COLORS <> [] ->
     exists fuel p reports,
       convertToPattern DMC_COLORS imageData gridSize options fuel
         = Resolved (p, reports)) /\
    (forall fuel p reports,
       convertToPattern DMC_COLORS imageData gridSize options fuel
         = Resolved (p, reports) ->
       exists ks,
         reports = map JS.of_Z ks /\
         Forall (fun k => 0 <= k <= 100)%Z ks /\
         Sorted Z.le ks /\
         last ks 0%Z = 100%Z /\
         JS.le (gridHeight imageData gridSize)
               (JS.of_Z (5 * Z.of_nat (List.length ks))) = true /\
         JS.lt (JS.of_Z (5 * Z.of_nat (List.length ks) - 5))
               (gridHeight imageData gridSize) = true).
Proof.
  intros DMC_COLORS imageData gridSize options Hw Hgs Hrows.
  destruct (gridHeight_finite imageData gridSize Hw) as [h Hgh].
  assert (Hh : (1 <= h)%Z).
  { rewrite Hgh in Hrows. unfold n1 in Hrows. rewrite le_of_Z in Hrows.
    now apply Z.leb_le. }
  split.
  - intros Hne. exists (S (Z.to_nat h)).
    apply (processChunk_terminates _ _ _ _ h Hgh Hne). lia.
  - intros fuel p reports H. unfold convertToPattern in H.
    apply (reports_from _ _ _ _ h Hgh Hgs Hh) in H; [|lia|simpl; lia].
    destruct H as (ks & Hks & HF & Hsort & Hlast & Hlen).
    exists ks. split; [exact Hks|]. split; [|split; [exact Hsort|split; [exact Hlast|]]].
    + eapply Forall_impl; [|exact HF]. cbv beta. intros k [Hlo Hhi].
      rewrite Z.mul_0_r in Hlo. rewrite pct_zero in Hlo by nia. lia.
    + rewrite Hgh, le_of_Z, lt_of_Z. split; [apply Z.leb_le|apply Z.ltb_lt]; lia.
Qed.

Lemma progress_reports_witness :
  exists p,
    convertToPattern sample_palette column_image 1 plain_options 2
      = Resolved (p, map JS.of_Z [83; 100]%Z) /\
    exists ks,
      map JS.of_Z [83; 100]%Z = map JS.of_Z ks /\
      Forall (fun k => 0 <= k <= 100)%Z ks /\
      Sorted Z.le ks /\
      last ks 0%Z = 100%Z.
Proof.
  eexists. split; [vm_compute; reflexivity|].
  destruct (proj2 (progress_reports sample_palette column_image 1 plain_options
                     ltac:(vm_compute; lia) ltac:(lia) eq_refl)
                  2%nat _ (map JS.of_Z [83; 100]%Z) ltac:(vm_compute; reflexivity))
    as (ks & H1 & H2 & H3 & H4 & _).
  exists ks. auto.
Defined.



(** C10 -- what colour reduction leaves alone.  The pattern returned by
    [limitColors] or [mergeColors] has as many stitches as its input,
    with the same coordinates at every position, and the same [width]
    and [height]; only colours and [colorCounts] can differ. *)
Theorem color_reduction_frame :
  (forall p maxColors p',
     limitColors p maxColors = Some p' ->
     List.length (Pattern.stitches p') = List.length (Pattern.stitches p) /\
     map coords (Pattern.stitches p') = map coords (Pattern.stitches p) /\
     Pattern.width p' = Pattern.width p /\
     Pattern.height p' = Pattern.height p) /\
  (forall p mergeTolerance p',
     mergeColors p mergeTolerance = Some p' ->
     List.length (Pattern.stitches p') = List.length (Pattern.stitches p) /\
     map coords (Pattern.stitches p') = map coords (Pattern.stitches p) /\
     Pattern.width p' = Pattern.width p /\
     Pattern.height p' = Pattern.height p).
Proof.
  split; intros p x p' H.
  - destruct (limitColors_frame _ _ _ H) as (Hc & Hw & Hh).
    split; [|auto]. apply (f_equal (@List.length _)) in Hc.
    now rewrite !length_map in Hc.
  - destruct (mergeColors_frame _ _ _ H) as (Hc & Hw & Hh).
    split; [|auto]. apply (f_equal (@List.length _)) in Hc.
    now rewrite !length_map in Hc.
Qed.

Lemma color_reduction_frame_witness :
  exists p1 p2,
    limitColors sample_pattern 1 = Some p1 /\
    mergeColors sample_pattern (JS.of_Z 10) = Some p2 /\
    map coords (Pattern.stitches p1) = map coords (Pattern.stitches sample_pattern) /\
    map coords (Pattern.stitches p2) = map coords (Pattern.stitches sample_pattern) /\
    Pattern.width p1 = JS.of_Z 3 /\ Pattern.height p2 = JS.of_Z 2.
Proof.
  destruct color_reduction_frame as [Hlimit Hmerge].
  do 2 eexists.
  split; [vm_compute; reflexivity|].
  split; [vm_compute; reflexivity|].
  match goal with |- map coords (Pattern.stitches ?p1) = _ /\
                     map coords (Pattern.stitches ?p2) = _ /\ _ =>
    destruct (Hlimit sample_pattern 1%Z p1 ltac:(vm_compute; reflexivity))
      as (_ & H1 & H2 & _);
    destruct (Hmerge sample_pattern (JS.of_Z 10) p2 ltac:(vm_compute; reflexivity))
      as (_ & H3 & _ & H4)
  end.
  auto.
Defined.

(* ================================================================= *)
(** * Further properties *)

(* ----------------------------------------------------------------- *)
(** ** Limiting, merging and masking, continued *)







Lemma join_length rgb color tol groups groups' :
  join rgb color tol groups = Some groups' ->
  List.length groups' = List.length groups /\
  map Group.representative groups' = map Group.representative groups.
Proof.
  revert groups'. induction groups as [|G groups IH]; intros groups' H; simpl in H;
    [discriminate|].
  destruct (isSimilarColor _ _ _).
  - injection H as <-. simpl. auto.
  - destruct (join _ _ _ groups) as [g2|]; [|discriminate].
    injection H as <-. destruct (IH _ eq_refl) as [H1 H2]. simpl.
    now rewrite H1, H2.
Qed.


Lemma group_color_length tol groups color :
  (List.length (group_color tol groups color) <= S (List.length groups))%nat.
Proof.
  unfold group_color. destruct (join _ _ _ _) as [g|] eqn:E.
  - apply join_length in E as [-> _]. lia.
  - rewrite length_app. simpl. lia.
Qed.

Lemma colorGroups_length tol colors :
  (List.length (colorGroups tol colors) <= List.length colors)%nat.
Proof.
  unfold colorGroups.
  assert (G : forall groups,
            (List.length (fold_left (group_color tol) colors groups)
             <= List.length groups + List.length colors)%nat).
  { induction colors as [|c colors IH]; intros groups; simpl; [lia|].
    specialize (IH (group_color tol groups c)).
    pose proof (group_color_length tol groups c). lia. }
  apply (G []).
Qed.

Lemma map_groups_length groups :
  forall st cm ncc,
    foldM map_group groups st = Some (cm, ncc) ->
    (List.length ncc <= List.length (snd st) + List.length groups)%nat.
Proof.
  induction groups as [|G groups IH]; intros st cm ncc H; simpl in H.
  - injection H as ->. simpl. lia.
  - unfold map_group at 1 in H.
    destruct (most_used _) as [rep|]; [|discriminate].
    apply IH in H. simpl in H.
    pose proof (length_set (Usage.id rep) (reset rep) (snd st)). simpl. lia.
Qed.

Lemma mergeColors_length p tol p' :
  mergeColors p tol = Some p' ->
  (List.length (Pattern.colorCounts p') <= List.length (Pattern.colorCounts p))%nat.
Proof.
  unfold mergeColors. intros H.
  destruct (JS.le tol n0); [injection H as <-; lia|].
  destruct (_ <=? 1)%nat; [injection H as <-; lia|].
  destruct (foldM map_group _ _) as [[cm ncc]|] eqn:Eg; [|discriminate].
  destruct (mapM _ _ _) as [[bs s']|] eqn:E; [|discriminate].
  injection H as <-. simpl.
  destruct (mapM_reassign _ _ (merge_stitch_reassigns cm) _ _ _ E) as (Hk & _).
  apply (f_equal (@List.length _)) in Hk. unfold Obj.keys in Hk.
  rewrite !length_map in Hk. rewrite Hk.
  apply map_groups_length in Eg. simpl in Eg.
  pose proof (colorGroups_length tol (Obj.values (Pattern.colorCounts p))) as Hg.
  unfold Obj.values in Hg at 2. rewrite length_map in Hg. lia.
Qed.



Lemma sum_app (l1 l2 : list Z) :
  fold_right Z.add 0%Z (l1 ++ l2)
  = (fold_right Z.add 0 l1 + fold_right Z.add 0 l2)%Z.
Proof. induction l1 as [|a l1 IH]; simpl; [reflexivity|]. rewrite IH. lia. Qed.



Lemma filter_filter {A : Type} (f : A -> bool) (l : list A) :
  filter f (filter f l) = filter f l.
Proof.
  induction l as [|a l IH]; simpl; [reflexivity|].
  destruct (f a) eqn:E; simpl; [rewrite E|]; now rewrite IH.
Qed.

Lemma filter_length_le {A : Type} (f : A -> bool) (l : list A) :
  (List.length (filter f l) <= List.length l)%nat.
Proof. induction l as [|a l IH]; simpl; [lia|]. destruct (f a); simpl; lia. Qed.

Lemma Qabs_square_bound (x y : Q) :
  (Qabs x + Qabs y <= 1)%Q -> (x * x + y * y <= 1)%Q.
Proof.
  intros H.
  assert (Hx : (0 <= Qabs x)%Q) by apply Qabs_nonneg.
  assert (Hy : (0 <= Qabs y)%Q) by apply Qabs_nonneg.
  assert (Hxx : (x * x == Qabs x * Qabs x)%Q).
  { rewrite <- Qabs_Qmult. symmetry. apply Qabs_pos.
    destruct (Qlt_le_dec x 0); nra. }
  assert (Hyy : (y * y == Qabs y * Qabs y)%Q).
  { rewrite <- Qabs_Qmult. symmetry. apply Qabs_pos.
    destruct (Qlt_le_dec y 0); nra. }
  rewrite Hxx, Hyy. nra.
Qed.

(** The diamond lies inside the circle. *)
Lemma diamond_circle (dx dy : JS.num) :
  JS.le (JS.add (JS.abs dx) (JS.abs dy)) n1 = true ->
  JS.root_le (JS.Sqrt (JS.add (JS.mul dx dx) (JS.mul dy dy))) n1 = true.
Proof.
  destruct dx as [| | |x], dy as [| | |y]; try discriminate.
  unfold JS.abs, JS.add, JS.mul, JS.fin, JS.le, JS.root_le, n1, JS.of_Z.
  intros H. apply Qle_bool_iff in H. repeat rewrite Qred_correct in H.
  change (inject_Z 1) with 1%Q in *.
  pose proof (Qabs_square_bound x y H) as Hb.
  assert (H0 : (0 <= x * x + y * y)%Q)
    by (destruct (Qlt_le_dec x 0), (Qlt_le_dec y 0); nra).
  replace (JS.Qltb _ 0) with false.
  - apply andb_true_iff. split; [reflexivity|].
    apply Qle_bool_iff. repeat rewrite Qred_correct. lra.
  - symmetry. apply Qltb_ge. repeat rewrite Qred_correct. exact H0.
Qed.

(** [colorCounts] stays keyed by id under a callback that counts the
    stitch it returns. *)
Lemma mapM_keyed f l :
  reassigns f ->
  forall s bs s',
    (forall k u, Obj.get k s = Some u -> Usage.id u = k) ->
    mapM f l s = Some (bs, s') ->
    forall k u, Obj.get k s' = Some u -> Usage.id u = k.
Proof.
  intros Hf. induction l as [|a l IH]; intros s bs s' Hs H; simpl in H.
  - now injection H as <- <-.
  - destruct (f a s) as [[b s1]|] eqn:Ea; [|discriminate].
    destruct (mapM f l s1) as [[bs1 s2]|] eqn:El; [|discriminate].
    injection H as <- <-.
    destruct (Hf _ _ _ _ Ea) as [Hm _].
    apply modify_spec in Hm as (_ & v & Hv & Hget).
    apply (IH s1 bs1 s2); [|exact El].
    intros k u Hu. rewrite Hget in Hu.
    destruct (String.eqb_spec k (stitch_id b)) as [->|Hne].
    + injection Hu as <-. apply Hs in Hv. exact Hv.
    + now apply Hs.
Qed.

Lemma keyed_get counts :
  Obj.wf counts ->
  (keyed_by_id counts <-> forall k u, Obj.get k counts = Some u -> Usage.id u = k).
Proof.
  intros Hwf. split.
  - intros H k u Hg. apply H. now apply get_In.
  - intros H k u Hin. apply H. now apply In_get.
Qed.

Lemma limit_init_keyed (top : list Usage.t) :
  forall counts,
    (forall k u, Obj.get k counts = Some u -> Usage.id u = k) ->
    forall k u,
      Obj.get k (fold_left (fun counts c => Obj.set (Usage.id c) (reset c) counts)
                           top counts) = Some u ->
      Usage.id u = k.
Proof.
  induction top as [|c top IH]; intros counts Hc; simpl; [exact Hc|].
  apply IH. intros k u. rewrite get_set.
  destruct (String.eqb_spec k (Usage.id c)) as [->|Hne]; [|apply Hc].
  intros H. now injection H as <-.
Qed.

Lemma limitColors_keyed p maxColors p' :
  limitColors p maxColors = Some p' ->
  Obj.wf (Pattern.colorCounts p) -> keyed_by_id (Pattern.colorCounts p) ->
  palette_coverage p ->
  keyed_by_id (Pattern.colorCounts p').
Proof.
  intros H Hwf Hkey Hcov.
  destruct (limitColors_coverage _ _ _ H Hwf Hcov) as [Hwf' _].
  revert H. unfold limitColors.
  destruct (maxColors <=? 0)%Z; [intros H; now injection H as <-|].
  destruct (_ <=? maxColors)%Z; [intros H; now injection H as <-|].
  destruct (mapM _ _ _) as [[bs s']|] eqn:E; [|discriminate].
  intros H. injection H as <-. simpl in *.
  apply keyed_get; [exact Hwf'|].
  eapply mapM_keyed; [apply limit_stitch_reassigns| |exact E].
  apply limit_init_keyed. intros k u Hu. discriminate.
Qed.

Lemma mergeColors_total p tol :
  Obj.wf (Pattern.colorCounts p) -> keyed_by_id (Pattern.colorCounts p) ->
  palette_coverage p ->
  exists p', mergeColors p tol = Some p'.
Proof.
  intros Hwf Hkey Hcov.
  destruct (JS.le tol n0) eqn:Etol.
  { unfold mergeColors. rewrite Etol. eauto. }
  destruct (Nat.leb_spec (List.length (Obj.values (Pattern.colorCounts p))) 1)
    as [Hle|Hgt].
  { unfold mergeColors. rewrite Etol.
    replace (_ <=? 1)%nat with true by (symmetry; now apply Nat.leb_le). eauto. }
  unfold Obj.values in Hgt. rewrite length_map in Hgt.
  destruct (mergeColors_remap p tol Hwf Hkey (proj1 Hcov) Etol Hgt) as (p' & Hp' & _).
  eauto.
Qed.

Lemma limitColors_always p maxColors :
  exists p', limitColors p maxColors = Some p'.
Proof.
  destruct (Z.leb_spec maxColors 0) as [Hle|Hgt].
  - unfold limitColors. replace (maxColors <=? 0)%Z with true
      by (symmetry; now apply Z.leb_le). eauto.
  - apply limitColors_total. lia.
Qed.

Lemma limitColors_shorter p maxColors p' :
  limitColors p maxColors = Some p' ->
  (List.length (Pattern.colorCounts p') <= List.length (Pattern.colorCounts p))%nat.
Proof.
  intros H.
  destruct (Z.leb_spec maxColors 0) as [Hle|Hgt].
  { unfold limitColors in H. replace (maxColors <=? 0)%Z with true in H
      by (symmetry; now apply Z.leb_le). injection H as <-. lia. }
  destruct (Z.leb_spec (Z.of_nat (List.length (Pattern.colorCounts p))) maxColors)
    as [Hl|Hl].
  - unfold limitColors in H.
    destruct (maxColors <=? 0)%Z; [injection H as <-; lia|].
    rewrite (Permutation_length (sort_by_count_perm _)) in H.
    unfold Obj.values in H at 1. rewrite length_map in H.
    replace (_ <=? maxColors)%Z with true in H by (symmetry; now apply Z.leb_le).
    injection H as <-. lia.
  - pose proof (limitColors_bound p maxColors p' ltac:(lia) H) as Hb.
    unfold Obj.keys in Hb. rewrite length_map in Hb. lia.
Qed.

Lemma stitches_length_map (l1 l2 : list Stitch.t) :
  map coords l1 = map coords l2 -> List.length l1 = List.length l2.
Proof.
  intros H. apply (f_equal (@List.length _)) in H. now rewrite !length_map in H.
Qed.

(** The keys of a pattern that satisfies the invariant are the ids of its
    stitches. *)
Lemma coverage_keys p k :
  palette_coverage p -> In k (map stitch_id (Pattern.stitches p)) ->
  In k (Obj.keys (Pattern.colorCounts p)).
Proof.
  intros (Hhas & _) Hin. apply in_map_iff in Hin as (s & <- & Hs).
  apply has_In. now apply Hhas.
Qed.

Lemma recount_keys l :
  forall counts counts',
    foldM recount l counts = Some counts' ->
    forall k, In k (Obj.keys counts') ->
      In k (Obj.keys counts) \/ In k (map stitch_id l).
Proof.
  induction l as [|s l IH]; intros counts counts' H k Hk; simpl in H.
  - injection H as <-. now left.
  - destruct (recount s counts) as [c1|] eqn:E; [|discriminate].
    destruct (IH _ _ H k Hk) as [H1|H1]; [|right; now right].
    rewrite recount_tally in E. unfold tally in E.
    apply modify_spec in E as [Hkeys _]. rewrite Hkeys in H1.
    apply In_keys_set in H1 as [->|H1]; [right; now left|now left].
Qed.

Lemma applyShapeMask_shorter M p shape p' :
  applyShapeMask M p shape = Some p' ->
  Obj.wf (Pattern.colorCounts p) -> palette_coverage p ->
  (List.length (Pattern.colorCounts p') <= List.length (Pattern.colorCounts p))%nat.
Proof.
  intros H Hwf Hcov.
  destruct (applyShapeMask_coverage _ _ _ _ H Hwf Hcov) as [Hwf' _].
  revert H. unfold applyShapeMask.
  destruct (_ || _); [intros H; injection H as <-; lia|].
  destruct (foldM recount _ _) as [counts|] eqn:E; [|discriminate].
  intros H. injection H as <-. simpl in *.
  assert (Hincl : incl (Obj.keys counts) (Obj.keys (Pattern.colorCounts p))).
  { intros k Hk. destruct (recount_keys _ _ _ E k Hk) as [[]|Hin].
    apply coverage_keys; [exact Hcov|].
    apply in_map_iff in Hin as (s & <- & Hs). apply filter_In in Hs as [Hs _].
    now apply in_map. }
  pose proof (NoDup_incl_length Hwf' Hincl) as Hlen.
  unfold Obj.keys in Hlen. now rewrite !length_map in Hlen.
Qed.

Lemma applyShapeMask_stitches M p shape p' :
  applyShapeMask M p shape = Some p' ->
  (exists keep, Pattern.stitches p' = filter keep (Pattern.stitches p)) /\
  Pattern.width p' = Pattern.width p /\
  Pattern.height p' = Pattern.height p.
Proof.
  unfold applyShapeMask.
  destruct (_ || _).
  - intros H. injection H as <-. split; [|auto].
    exists (fun _ => true). symmetry. apply forallb_filter_id.
    apply forallb_forall. reflexivity.
  - destruct (foldM recount _ _) as [counts|]; [|discriminate].
    intros H. injection H as <-. simpl. split; [|auto]. eauto.
Qed.

(* ----------------------------------------------------------------- *)
(** ** Colour reduction and masks *)

(** X1 -- [limitColors] is idempotent.  Whatever a call returns, a second
    call with the same bound returns it unchanged: the result is already
    within the bound, so the second call takes an early return. *)
Theorem limitColors_idempotent :
  forall p maxColors p',
    limitColors p maxColors = Some p' ->
    limitColors p' maxColors = Some p'.
Proof.
  intros p maxColors p' H.
  destruct (Z.leb_spec maxColors 0) as [Hle|Hgt].
  - unfold limitColors in *.
    replace (maxColors <=? 0)%Z with true in * by (symmetry; now apply Z.leb_le).
    now injection H as <-.
  - pose proof (limitColors_bound p maxColors p' ltac:(lia) H) as Hb.
    unfold limitColors.
    replace (maxColors <=? 0)%Z with false by (symmetry; apply Z.leb_gt; lia).
    rewrite (Permutation_length (sort_by_count_perm _)).
    unfold Obj.values at 1. unfold Obj.keys in Hb. rewrite length_map in *.
    replace (_ <=? maxColors)%Z with true by (symmetry; now apply Z.leb_le).
    reflexivity.
Qed.

Lemma limitColors_idempotent_witness :
  exists p',
    limitColors sample_pattern 2 = Some p' /\ limitColors p' 2 = Some p'.
Proof.
  destruct (limitColors sample_pattern 2) as [p'|] eqn:E;
    [|vm_compute in E; discriminate].
  exists p'. split; [reflexivity|].
  exact (limitColors_idempotent sample_pattern 2 p' E).
Defined.



(** X3 -- [mergeColors] never adds a colour: the pattern it returns has
    at most as many keys in [colorCounts] as the pattern it was given. *)
Theorem mergeColors_never_adds_colors :
  forall p mergeTolerance p',
    mergeColors p mergeTolerance = Some p' ->
    (List.length (Obj.keys (Pattern.colorCounts p'))
     <= List.length (Obj.keys (Pattern.colorCounts p)))%nat.
Proof.
  intros p tol p' H. unfold Obj.keys. rewrite !length_map.
  now apply mergeColors_length in H.
Qed.

Lemma mergeColors_never_adds_colors_witness :
  exists p',
    mergeColors sample_pattern (JS.of_Z 10) = Some p' /\
    (List.length (Obj.keys (Pattern.colorCounts p')) <= 3)%nat.
Proof.
  destruct (mergeColors sample_pattern (JS.of_Z 10)) as [p'|] eqn:E;
    [|vm_compute in E; discriminate].
  exists p'. split; [reflexivity|].
  exact (mergeColors_never_adds_colors sample_pattern (JS.of_Z 10) p' E).
Defined.


(** X5 -- [applyShapeMask] only removes stitches, and is idempotent.  The
    stitches of the result are a selection of the stitches of the pattern,
    in the same order, [width] and [height] are unchanged, and masking the
    result again with the same shape returns it unchanged. *)
Theorem applyShapeMask_idempotent :
  forall M p shape p',
    applyShapeMask M p shape = Some p' ->
    (exists keep, Pattern.stitches p' = filter keep (Pattern.stitches p)) /\
    (List.length (Pattern.stitches p') <= List.length (Pattern.stitches p))%nat /\
    Pattern.width p' = Pattern.width p /\
    Pattern.height p' = Pattern.height p /\
    applyShapeMask M p' shape = Some p'.
Proof.
  intros M p shape p' H.
  destruct (applyShapeMask_stitches M p shape p' H) as ((keep & Hkeep) & Hw & Hh).
  split; [eauto|]. split; [rewrite Hkeep; apply filter_length_le|].
  split; [exact Hw|]. split; [exact Hh|].
  revert H. unfold applyShapeMask.
  destruct (_ || _) eqn:E.
  - intros H. injection H as <-. reflexivity.
  - destruct (foldM recount _ _) as [counts|] eqn:Ec; [|discriminate].
    intros H. injection H as <-. simpl. rewrite filter_filter, Ec. reflexivity.
Qed.

Lemma applyShapeMask_idempotent_witness :
  exists p',
    applyShapeMask flat_math sample_pattern "circle" = Some p' /\
    (List.length (Pattern.stitches p') <= 6)%nat /\
    applyShapeMask flat_math p' "circle" = Some p'.
Proof.
  destruct (applyShapeMask flat_math sample_pattern "circle") as [p'|] eqn:E;
    [|vm_compute in E; discriminate].
  destruct (applyShapeMask_idempotent flat_math sample_pattern "circle" p' E)
    as (_ & Hlen & _ & _ & Hid).
  exists p'. split; [reflexivity|]. split; [exact Hlen|exact Hid].
Defined.

(** X6 -- the shapes compared.  On every pattern the masks ['diamond'],
    ['circle'] and ['oval'] return a pattern; ['oval'] returns the one
    ['circle'] returns, and every stitch ['diamond'] keeps is kept by
    ['circle']. *)
Theorem diamond_within_circle :
  forall M p,
    exists pd pc,
      applyShapeMask M p "diamond" = Some pd /\
      applyShapeMask M p "circle" = Some pc /\
      applyShapeMask M p "oval" = Some pc /\
      forall s, In s (Pattern.stitches pd) -> In s (Pattern.stitches pc).
Proof.
  intros M p.
  destruct (applyShapeMask_total M p "diamond") as [pd Hd].
  destruct (applyShapeMask_total M p "circle") as [pc Hc].
  exists pd, pc. split; [exact Hd|]. split; [exact Hc|]. split.
  - rewrite <- Hc. reflexivity.
  - revert Hd Hc. unfold applyShapeMask. cbn [String.eqb Ascii.eqb Bool.eqb orb].
    destruct (foldM recount _ _) as [cd|]; [|discriminate].
    destruct (foldM recount _ _) as [cc|]; [|discriminate].
    intros Hd Hc. injection Hd as <-. injection Hc as <-. simpl.
    intros s Hs. apply filter_In in Hs as [Hin Hs]. apply filter_In.
    split; [exact Hin|].
    unfold inside in *. cbn [String.eqb Ascii.eqb Bool.eqb] in *.
    now apply diamond_circle.
Qed.

Lemma finalResult_spec :
  forall M settings result,
    Obj.wf (Pattern.colorCounts result) ->
    keyed_by_id (Pattern.colorCounts result) ->
    palette_coverage result ->
    exists final,
      finalResult M settings result = Some final /\
      Obj.wf (Pattern.colorCounts final) /\
      palette_coverage final /\
      (List.length (Pattern.stitches final)
       <= List.length (Pattern.stitches result))%nat /\
      Pattern.width final = Pattern.width result /\
      Pattern.height final = Pattern.height result /\
      (List.length (Obj.keys (Pattern.colorCounts final))
       <= List.length (Obj.keys (Pattern.colorCounts result)))%nat /\
      (Settings.useMaxColors settings = true ->
       (1 <= Settings.maxColors settings)%Z ->
       (Z.of_nat (List.length (Obj.keys (Pattern.colorCounts final)))
        <= Settings.maxColors settings)%Z).
Proof.
  intros M settings result Hwf Hkey Hcov. unfold finalResult.
  (* the colour limit *)
  assert (H1 : exists limited,
             (if Settings.useMaxColors settings
              then limitColors result (Settings.maxColors settings)
              else Some result) = Some limited /\
             Obj.wf (Pattern.colorCounts limited) /\
             keyed_by_id (Pattern.colorCounts limited) /\
             palette_coverage limited /\
             List.length (Pattern.stitches limited)
               = List.length (Pattern.stitches result) /\
             Pattern.width limited = Pattern.width result /\
             Pattern.height limited = Pattern.height result /\
             (List.length (Pattern.colorCounts limited)
              <= List.length (Pattern.colorCounts result))%nat /\
             (Settings.useMaxColors settings = true ->
              (1 <= Settings.maxColors settings)%Z ->
              (Z.of_nat (List.length (Pattern.colorCounts limited))
               <= Settings.maxColors settings)%Z)).
  { destruct (Settings.useMaxColors settings).
    - destruct (limitColors_always result (Settings.maxColors settings)) as [q Hq].
      exists q. split; [exact Hq|].
      destruct (limitColors_coverage _ _ _ Hq Hwf Hcov) as [Hwf' Hcov'].
      destruct (limitColors_frame _ _ _ Hq) as (Hco & Hw & Hh).
      split; [exact Hwf'|]. split; [now apply (limitColors_keyed _ _ _ Hq)|].
      split; [exact Hcov'|]. split; [now apply stitches_length_map|].
      split; [exact Hw|]. split; [exact Hh|].
      split; [now apply limitColors_shorter in Hq|].
      intros _ Hk. pose proof (limitColors_bound _ _ _ Hk Hq) as Hb.
      unfold Obj.keys in Hb. now rewrite length_map in Hb.
    - exists result. split; [reflexivity|]. split; [exact Hwf|].
      split; [exact Hkey|]. split; [exact Hcov|].
      split; [reflexivity|]. split; [reflexivity|]. split; [reflexivity|].
      split; [lia|]. intros; discriminate. }
  destruct H1 as (limited & -> & Hwf1 & Hkey1 & Hcov1 & Hlen1 & Hw1 & Hh1 & Hc1 & Hb1).
  (* the merge *)
  assert (H2 : exists merged,
             (if Settings.useMergeColors settings
              then mergeColors limited (Settings.mergeTolerance settings)
              else Some limited) = Some merged /\
             Obj.wf (Pattern.colorCounts merged) /\
             palette_coverage merged /\
             List.length (Pattern.stitches merged)
               = List.length (Pattern.stitches limited) /\
             Pattern.width merged = Pattern.width limited /\
             Pattern.height merged = Pattern.height limited /\
             (List.length (Pattern.colorCounts merged)
              <= List.length (Pattern.colorCounts limited))%nat).
  { destruct (Settings.useMergeColors settings).
    - destruct (mergeColors_total limited (Settings.mergeTolerance settings)
                  Hwf1 Hkey1 Hcov1) as [q Hq].
      exists q. split; [exact Hq|].
      destruct (mergeColors_coverage _ _ _ Hq Hwf1 Hcov1) as [Hwf' Hcov'].
      destruct (mergeColors_frame _ _ _ Hq) as (Hco & Hw & Hh).
      split; [exact Hwf'|]. split; [exact Hcov'|].
      split; [now apply stitches_length_map|].
      split; [exact Hw|]. split; [exact Hh|]. now apply mergeColors_length in Hq.
    - exists limited. split; [reflexivity|]. split; [exact Hwf1|].
      split; [exact Hcov1|].
      split; [reflexivity|]. split; [reflexivity|]. split; [reflexivity|]. lia. }
  destruct H2 as (merged & -> & Hwf2 & Hcov2 & Hlen2 & Hw2 & Hh2 & Hc2).
  (* the mask *)
  assert (H3 : exists final,
             (if negb (String.eqb (Settings.patternShape settings) "rectangle")
              then applyShapeMask M merged (Settings.patternShape settings)
              else Some merged) = Some final /\
             Obj.wf (Pattern.colorCounts final) /\
             palette_coverage final /\
             (List.length (Pattern.stitches final)
              <= List.length (Pattern.stitches merged))%nat /\
             Pattern.width final = Pattern.width merged /\
             Pattern.height final = Pattern.height merged /\
             (List.length (Pattern.colorCounts final)
              <= List.length (Pattern.colorCounts merged))%nat).
  { destruct (negb _).
    - destruct (applyShapeMask_total M merged (Settings.patternShape settings))
        as [q Hq].
      exists q. split; [exact Hq|].
      destruct (applyShapeMask_coverage _ _ _ _ Hq Hwf2 Hcov2) as [Hwf' Hcov'].
      destruct (applyShapeMask_stitches _ _ _ _ Hq) as ((keep & Hkeep) & Hw & Hh).
      split; [exact Hwf'|]. split; [exact Hcov'|].
      split; [rewrite Hkeep; apply filter_length_le|].
      split; [exact Hw|]. split; [exact Hh|].
      now apply (applyShapeMask_shorter _ _ _ _ Hq).
    - exists merged. split; [reflexivity|]. split; [exact Hwf2|].
      split; [exact Hcov2|].
      split; [lia|]. split; [reflexivity|]. split; [reflexivity|]. lia. }
  destruct H3 as (final & -> & Hwf3 & Hcov3 & Hlen3 & Hw3 & Hh3 & Hc3).
  exists final. split; [reflexivity|]. split; [exact Hwf3|]. split; [exact Hcov3|].
  split; [lia|]. split; [congruence|]. split; [congruence|].
  unfold Obj.keys. rewrite !length_map. split; [lia|].
  intros Hu Hk. specialize (Hb1 Hu Hk). lia.
Qed.

(** X7 -- from the conversion to the displayed pattern.  On a pattern
    that satisfies the palette invariant, the callback of [App] always
    obtains a final pattern, whatever the settings: no step throws.  The
    final pattern satisfies the invariant again, has the width and the
    height of the converted one and no more stitches, and no more colours;
    when the colour limit is switched on with a bound of at least 1, it
    has at most that many colours. *)
Theorem finalResult_sound :
  forall M settings result,
    Obj.wf (Pattern.colorCounts result) ->
    keyed_by_id (Pattern.colorCounts result) ->
    palette_coverage result ->
    exists final,
      finalResult M settings result = Some final /\
      Obj.wf (Pattern.colorCounts final) /\
      palette_coverage final /\
      (List.length (Pattern.stitches final)
       <= List.length (Pattern.stitches result))%nat /\
      Pattern.width final = Pattern.width result /\
      Pattern.height final = Pattern.height result /\
      (List.length (Obj.keys (Pattern.colorCounts final))
       <= List.length (Obj.keys (Pattern.colorCounts result)))%nat /\
      (Settings.useMaxColors settings = true ->
       (1 <= Settings.maxColors settings)%Z ->
       (Z.of_nat (List.length (Obj.keys (Pattern.colorCounts final)))
        <= Settings.maxColors settings)%Z).
Proof. exact finalResult_spec. Qed.

Lemma finalResult_sound_witness :
  exists final,
    finalResult flat_math
      {| Settings.useMaxColors := true; Settings.maxColors := 2;
         Settings.useMergeColors := true; Settings.mergeTolerance := JS.of_Z 10;
         Settings.patternShape := "circle" |} sample_pattern = Some final /\
    palette_coverage final /\
    (Z.of_nat (List.length (Obj.keys (Pattern.colorCounts final))) <= 2)%Z.
Proof.
  destruct sample_pattern_sound as (Hwf & Hkey & Hcov).
  destruct (finalResult_sound flat_math
              {| Settings.useMaxColors := true; Settings.maxColors := 2;
                 Settings.useMergeColors := true;
                 Settings.mergeTolerance := JS.of_Z 10;
                 Settings.patternShape := "circle" |} sample_pattern Hwf Hkey Hcov)
    as (final & Hrun & _ & Hc & _ & _ & _ & _ & Hb).
  exists final. split; [exact Hrun|]. split; [exact Hc|].
  apply Hb; [reflexivity|simpl; lia].
Defined.

(* ----------------------------------------------------------------- *)
(** ** Cells in order *)

(** Loops whose invariant depends on the index. *)
Lemma foldM_seq_inv {S : Type} (P : nat -> S -> Prop) (f : nat -> S -> option S) :
  forall len start s s',
    (forall i t t', (start <= i < start + len)%nat ->
       P i t -> f i t = Some t' -> P (Datatypes.S i) t') ->
    P start s -> foldM f (seq start len) s = Some s' -> P (start + len)%nat s'.
Proof.
  induction len as [|len IH]; intros start s s' Hf Hs H; simpl in H.
  - injection H as <-. now rewrite Nat.add_0_r.
  - destruct (f start s) as [s1|] eqn:E; [|discriminate].
    rewrite <- Nat.add_succ_comm. apply (IH (Datatypes.S start) s1).
    + intros i t t' Hi. apply Hf. lia.
    + apply (Hf start s s1); [lia|exact Hs|exact E].
    + exact H.
Qed.

Lemma rows_inv {S : Type} (P : Z -> S -> Prop) (f : Z -> S -> option S) endY :
  forall n y s s',
    (forall y' t t', (y <= y')%Z -> JS.lt (JS.of_Z y') endY = true ->
       P y' t -> f y' t = Some t' -> P (y' + 1)%Z t') ->
    P y s -> foldM f (rows n y endY) s = Some s' ->
    exists y', (y <= y' <= y + Z.of_nat n)%Z /\ P y' s'.
Proof.
  induction n as [|n IH]; intros y s s' Hf Hs H; cbn [rows] in H.
  - injection H as <-. exists y. split; [lia|exact Hs].
  - destruct (JS.lt (JS.of_Z y) endY) eqn:Elt.
    + cbn [foldM] in H. destruct (f y s) as [s1|] eqn:E; [|discriminate].
      destruct (IH (y + 1)%Z s1 s') as (y' & Hy' & HP).
      * intros y' t t' Hy'. apply Hf. lia.
      * apply (Hf y s s1); [lia|exact Elt|exact Hs|exact E].
      * exact H.
      * exists y'. split; [lia|exact HP].
    + injection H as <-. exists y. split; [lia|exact Hs].
Qed.

Lemma lt_min a b c : JS.lt a (JS.min b c) = true -> JS.lt a c = true.
Proof.
  destruct a as [| | |x], b as [| | |y], c as [| | |z]; cbn [JS.min JS.lt];
    try discriminate; try reflexivity; auto;
    try (destruct (JS.Qltb _ _); discriminate).
  destruct (JS.Qltb z y) eqn:E; [auto|].
  intros H. apply Qltb_lt in H. apply Qltb_ge in E.
  apply Qltb_lt. lra.
Qed.

Lemma StronglySorted_snoc {A : Type} (R : A -> A -> Prop) l x :
  StronglySorted R l -> Forall (fun a => R a x) l -> StronglySorted R (l ++ [x]).
Proof.
  induction 1 as [|a l Hs IH Ha]; intros HF; simpl.
  - constructor; constructor.
  - inversion HF; subst. constructor; [now apply IH|].
    apply Forall_app. split; [exact Ha|]. now constructor.
Qed.

Section Cells.

Variable DMC_COLORS : list DMC.t.
Variable imageData : Image.t.
Variable gridSize : nat.
Variable options : Options.t.

Local Abbreviation cell' := (cell DMC_COLORS imageData gridSize options).
Local Abbreviation sweep' := (sweep DMC_COLORS imageData gridSize options).
Local Abbreviation processChunk' := (processChunk DMC_COLORS imageData gridSize options).
Local Abbreviation gridHeight' := (gridHeight imageData gridSize).
Local Abbreviation gridWidth' := (gridWidth gridSize).
Local Abbreviation placed' := (placed imageData gridSize).

(** The two ways a cell can go. *)
Lemma cell_cases y x st st' :
  cell' y x st = Some st' ->
  let idx := cell_index imageData gridSize (Z.of_nat x) y in
  (stitches st' = stitches st /\ colorCounts st' = colorCounts st /\
   workingData st' = workingData st /\
   opaque (workingData st) idx
   && negb (is_background options (pixel (workingData st) idx)) = false)
  \/
  (exists dmc counts,
     opaque (workingData st) idx = true /\
     is_background options (pixel (workingData st) idx) = false /\
     findClosestDMC DMC_COLORS (load (workingData st) idx)
       (load (workingData st) (JS.add idx n1))
       (load (workingData st) (JS.add idx n2)) = Some dmc /\
     tally dmc (colorCounts st) = Some counts /\
     stitches st' = stitches st ++
       [{| Stitch.x := Z.of_nat x; Stitch.y := y; Stitch.color := dmc |}] /\
     colorCounts st' = counts /\
     same_alpha (workingData st') (workingData st) /\
     (Options.useDithering options = false -> workingData st' = workingData st)).
Proof.
  intros H idx. revert H. unfold cell. cbv zeta.
  change (JS.of_nat x) with (JS.of_Z (Z.of_nat x)).
  fold (cell_index imageData gridSize (Z.of_nat x) y). fold idx.
  unfold opaque, is_background, pixel. fold (JS.gt (load (workingData st) (JS.add idx (JS.of_Z 3))) (JS.of_Z 128)).
  destruct (JS.gt _ _) eqn:Ea.
  - destruct (Options.backgroundColor options) as [bg|] eqn:Ebg.
    + destruct (Options.removeBackground options && _) eqn:Es.
      * intros H. injection H as <-. left. simpl. auto.
      * destruct (findClosestDMC _ _ _ _) as [dmc|] eqn:Ed; [|discriminate].
        destruct (tally dmc _) as [counts|] eqn:Et; [|discriminate].
        intros H. injection H as <-. right. exists dmc, counts. simpl.
        do 6 (split; [first [reflexivity|assumption]|]). split.
        -- destruct (Options.useDithering options); [|apply same_alpha_refl].
           apply dither_alpha; apply intlike_floor.
        -- intros ->. reflexivity.
    + destruct (findClosestDMC _ _ _ _) as [dmc|] eqn:Ed; [|discriminate].
      destruct (tally dmc _) as [counts|] eqn:Et; [|discriminate].
      intros H. injection H as <-. right. exists dmc, counts. simpl.
      do 6 (split; [first [reflexivity|assumption]|]). split.
      * destruct (Options.useDithering options); [|apply same_alpha_refl].
        apply dither_alpha; apply intlike_floor.
      * intros ->. reflexivity.
  - intros H. injection H as <-. left. simpl. auto.
Qed.

Lemma placed_later x0 y0 x1 y1 st :
  placed' x0 y0 st ->
  (y0 < y1 \/ y0 = y1 /\ x0 <= x1)%Z ->
  placed' x1 y1 st.
Proof.
  intros [Hs Hin] Hle. split; [exact Hs|].
  intros s Hs0. destruct (Hin s Hs0) as (H1 & H2 & H3 & H4).
  repeat (split; [assumption|]). unfold before in *. simpl in *. lia.
Qed.

Lemma cell_placed y x st st' :
  (0 <= y)%Z -> JS.lt (JS.of_Z y) gridHeight' = true -> (x < gridSize)%nat ->
  placed' (Z.of_nat x) y st -> cell' y x st = Some st' ->
  placed' (Z.of_nat (S x)) y st'.
Proof.
  intros Hy Hlt Hx Hp H.
  destruct (cell_cases _ _ _ _ H) as [(Hst & _)|(dmc & counts & _ & _ & _ & _ & Hst & _)].
  - apply (placed_later (Z.of_nat x) y); [|lia].
    destruct Hp as [Hs Hin]. split; rewrite Hst; assumption.
  - destruct Hp as [Hs Hin]. split.
    + rewrite Hst, map_app. apply StronglySorted_snoc; [exact Hs|].
      apply Forall_map. apply Forall_forall. intros s Hs0.
      now destruct (Hin s Hs0) as (_ & _ & _ & Hb).
    + intros s Hs0. rewrite Hst in Hs0. apply in_app_or in Hs0 as [Hs0|[<-|[]]].
      * destruct (Hin s Hs0) as (H1 & H2 & H3 & H4).
        repeat (split; [assumption|]). unfold before in *. simpl in *. lia.
      * simpl. repeat split; try lia; try assumption.
        unfold before. simpl. lia.
Qed.

Lemma sweep_placed startY endY st st' :
  (0 <= startY)%Z ->
  (forall y, JS.lt (JS.of_Z y) endY = true -> JS.lt (JS.of_Z y) gridHeight' = true) ->
  placed' 0 startY st -> sweep' startY endY st = Some st' ->
  placed' 0 (startY + chunkSize) st'.
Proof.
  intros H0 Hend Hp H. unfold sweep in H.
  assert (Hstep : forall y' t t',
            (startY <= y')%Z -> JS.lt (JS.of_Z y') endY = true ->
            placed' 0 y' t -> foldM (cell' y') (seq 0 gridSize) t = Some t' ->
            placed' 0 (y' + 1) t').
  { intros y' t t' Hy' Hlt Ht Hrow.
    apply (placed_later (Z.of_nat gridSize) y'); [|lia].
    apply (foldM_seq_inv (fun i => placed' (Z.of_nat i) y') (cell' y') gridSize 0 t t');
      [|exact Ht|exact Hrow].
    intros i u u' Hi Hu Hc.
    apply (cell_placed y' i u u'); auto; lia. }
  destruct (rows_inv (placed' 0) (fun y => foldM (cell' y) (seq 0 gridSize)) endY
              _ _ _ _ Hstep Hp H) as (y' & Hy' & HP).
  apply (placed_later 0 y'); [exact HP|].
  change (Z.of_nat (Z.to_nat chunkSize)) with chunkSize in Hy'. lia.
Qed.

Lemma processChunk_placed fuel :
  forall startY st reports p tr,
    (0 <= startY)%Z -> placed' 0 startY st ->
    processChunk' fuel startY st reports = Resolved (p, tr) ->
    exists st' y, placed' 0 y st' /\ p = pattern_of gridWidth' gridHeight' st'.
Proof.
  induction fuel as [|fuel IH]; intros startY st reports p tr H0 Hp H;
    [discriminate|].
  rewrite processChunk_S in H. cbv zeta in H.
  destruct (sweep' startY _ st) as [st'|] eqn:E; [|discriminate].
  pose proof (sweep_placed _ _ _ _ H0 (fun y => lt_min _ _ _) Hp E) as Hp'.
  destruct (JS.lt _ gridHeight').
  - eapply IH; [|exact Hp'|exact H]. unfold chunkSize; lia.
  - injection H as <- <-. exists st', (startY + chunkSize)%Z. split; [exact Hp'|reflexivity].
Qed.

End Cells.

(* ----------------------------------------------------------------- *)
(** ** Stitches and the grid *)

Lemma before_irrefl c : ~ before c c.
Proof. unfold before. lia. Qed.

Lemma sorted_NoDup {A : Type} (R : A -> A -> Prop) (l : list A) :
  (forall a, ~ R a a) -> StronglySorted R l -> NoDup l.
Proof.
  intros Hirr. induction 1 as [|a l Hs IH Ha]; constructor; [|exact IH].
  intros Hin. rewrite Forall_forall in Ha. exact (Hirr a (Ha a Hin)).
Qed.

Lemma tally_from_table DMC_COLORS dmc st counts :
  In dmc DMC_COLORS ->
  (forall k u, Obj.get k (colorCounts st) = Some u ->
     Usage.id u = k /\ In (Usage.color u) DMC_COLORS) ->
  tally dmc (colorCounts st) = Some counts ->
  forall k u, Obj.get k counts = Some u ->
    Usage.id u = k /\ In (Usage.color u) DMC_COLORS.
Proof.
  intros Hin Hc Ht k u Hu. unfold tally in Ht.
  apply modify_spec in Ht as (_ & v & Hv & Hget).
  rewrite get_set_same in Hv. injection Hv as <-.
  rewrite Hget in Hu. destruct (String.eqb_spec k (DMC.id dmc)) as [->|Hne].
  - injection Hu as <-. unfold Usage.incr, Usage.id. cbn [Usage.color].
    destruct (Obj.get (DMC.id dmc) (colorCounts st)) as [u0|] eqn:E.
    + apply Hc in E. exact E.
    + simpl. split; [reflexivity|exact Hin].
  - rewrite get_set in Hu.
    replace (String.eqb k (DMC.id dmc)) with false in Hu
      by (symmetry; now apply String.eqb_neq).
    now apply Hc.
Qed.

Lemma cell_from_table DMC_COLORS imageData gridSize options y x st st' :
  from_table DMC_COLORS st ->
  cell DMC_COLORS imageData gridSize options y x st = Some st' ->
  from_table DMC_COLORS st'.
Proof.
  intros [Hs Hc] H.
  destruct (cell_cases _ _ _ _ _ _ _ _ H)
    as [(Hst & Hcc & _)|(dmc & counts & _ & _ & Hd & Ht & Hst & Hcc & _)].
  - split; [now rewrite Hst|now rewrite Hcc].
  - apply closest_In in Hd. split.
    + intros s Hin. rewrite Hst in Hin. apply in_app_or in Hin as [Hin|[<-|[]]];
        [now apply Hs|exact Hd].
    + rewrite Hcc. now apply (tally_from_table DMC_COLORS dmc st counts).
Qed.


Lemma clamp_of_Z v : JS.to_uint8_clamp (JS.of_Z v) = Z.max 0 (Z.min 255 v).
Proof.
  unfold JS.to_uint8_clamp, JS.of_Z.
  destruct (Qle_bool (inject_Z v) 0) eqn:E0.
  - apply Qle_bool_iff in E0. change 0%Q with (inject_Z 0) in E0.
    rewrite <- Zle_Qle in E0. lia.
  - assert (H0 : (0 < v)%Z).
    { apply Z.nle_gt. intros Hle. apply not_true_iff_false in E0. apply E0.
      apply Qle_bool_iff. change 0%Q with (inject_Z 0). now rewrite <- Zle_Qle. }
    destruct (Qle_bool 255 (inject_Z v)) eqn:E1.
    + apply Qle_bool_iff in E1. change 255%Q with (inject_Z 255) in E1.
      rewrite <- Zle_Qle in E1. lia.
    + assert (H1 : (v < 255)%Z).
      { apply Z.nle_gt. intros Hle. apply not_true_iff_false in E1. apply E1.
        apply Qle_bool_iff. change 255%Q with (inject_Z 255). now rewrite <- Zle_Qle. }
      cbv zeta. rewrite Qfloor_Z.
      replace (inject_Z v - inject_Z v ?= 1 # 2)%Q with Lt; [cbv iota; lia|].
      symmetry. apply (proj1 (Qlt_alt _ _)). lra.
Qed.

(** The alpha test gives the same answer on the working copy as on the
    buffer. *)
Lemma opaque_working (data wd : list Z) (dithering : bool) idx :
  same_alpha wd (if dithering then Uint8ClampedArray_from data else data) ->
  offset4 3 (JS.add idx (JS.of_Z 3)) ->
  opaque wd idx = opaque data idx.
Proof.
  intros Hsa Hidx. unfold opaque. rewrite (load_alpha _ _ _ Hsa Hidx).
  destruct dithering; [|reflexivity].
  unfold load. destruct (JS.to_index _) as [i|]; [|reflexivity].
  unfold Uint8ClampedArray_from. rewrite nth_error_map.
  destruct (nth_error data i) as [v|]; [|reflexivity].
  cbn [option_map]. rewrite clamp_of_Z. unfold JS.gt. rewrite !lt_of_Z.
  destruct (Z.ltb_spec 128 v), (Z.ltb_spec 128 (Z.max 0 (Z.min 255 v)));
    try reflexivity; lia.
Qed.

Lemma cell_index_offset imageData gridSize x y :
  offset4 3 (JS.add (cell_index imageData gridSize x y) (JS.of_Z 3)).
Proof.
  unfold cell_index.
  apply offset4_add, offset4_mul, intlike_add; [apply intlike_mul|];
    auto using intlike_floor, intlike_of_Z.
  apply intlike_of_Z.
Qed.

Lemma opaque_alpha data idx :
  offset4 3 (JS.add idx (JS.of_Z 3)) ->
  alpha_all (fun v => v <= 128)%Z data -> opaque data idx = false.
Proof.
  intros Hidx Ha. unfold opaque, load.
  destruct (JS.to_index _) as [i|] eqn:E; [|reflexivity].
  destruct (nth_error data i) as [v|] eqn:En; [|reflexivity].
  pose proof (offset4_index 3 _ i ltac:(lia) Hidx E) as Hi.
  specialize (Ha i v Hi En). unfold JS.gt. rewrite lt_of_Z.
  apply Z.ltb_ge. exact Ha.
Qed.

Lemma cell_transparent DMC_COLORS imageData gridSize options y x st st' :
  alpha_all (fun v => v <= 128)%Z (Image.data imageData) ->
  same_alpha (workingData st)
    (if Options.useDithering options
     then Uint8ClampedArray_from (Image.data imageData)
     else Image.data imageData) /\
  stitches st = [] /\ colorCounts st = [] ->
  cell DMC_COLORS imageData gridSize options y x st = Some st' ->
  same_alpha (workingData st')
    (if Options.useDithering options
     then Uint8ClampedArray_from (Image.data imageData)
     else Image.data imageData) /\
  stitches st' = [] /\ colorCounts st' = [].
Proof.
  intros Ha (Hsa & Hs & Hc) H.
  destruct (cell_cases _ _ _ _ _ _ _ _ H)
    as [(Hst & Hcc & Hwd & _)|(dmc & counts & Ho & _)].
  - rewrite Hst, Hcc, Hwd. auto.
  - rewrite (opaque_working _ _ _ _ Hsa (cell_index_offset _ _ _ _)) in Ho.
    rewrite (opaque_alpha _ _ (cell_index_offset _ _ _ _) Ha) in Ho. discriminate.
Qed.

(** X8 -- where the stitches are.  In a pattern [convertToPattern]
    resolves with, every stitch lies in the grid: [0 <= x < gridSize],
    [0 <= y < height].  The stitches are listed row after row, from left
    to right in a row, so no two of them share a cell. *)
Theorem stitches_in_grid :
  forall DMC_COLORS imageData gridSize options fuel p reports,
    convertToPattern DMC_COLORS imageData gridSize options fuel
      = Resolved (p, reports) ->
    StronglySorted before (map coords (Pattern.stitches p)) /\
    NoDup (map coords (Pattern.stitches p)) /\
    forall s, In s (Pattern.stitches p) ->
      (0 <= Stitch.x s < Z.of_nat gridSize)%Z /\ (0 <= Stitch.y s)%Z /\
      JS.lt (JS.of_Z (Stitch.y s)) (Pattern.height p) = true.
Proof.
  intros DMC_COLORS imageData gridSize options fuel p reports H.
  unfold convertToPattern in H.
  apply processChunk_placed in H as (st' & y & [Hs Hin] & ->); [|lia|].
  - simpl. split; [exact Hs|]. split.
    + exact (sorted_NoDup before _ before_irrefl Hs).
    + intros s Hs0. destruct (Hin s Hs0) as (H1 & H2 & H3 & _). auto.
  - split; [constructor|]. intros s [].
Qed.

Lemma stitches_in_grid_witness :
  exists p reports,
    convertToPattern sample_palette column_image 1 plain_options 2
      = Resolved (p, reports) /\
    NoDup (map coords (Pattern.stitches p)).
Proof.
  destruct (convertToPattern sample_palette column_image 1 plain_options 2)
    as [[p reports]| |] eqn:E; [|vm_compute in E; discriminate..].
  exists p, reports. split; [reflexivity|].
  exact (proj1 (proj2 (stitches_in_grid _ _ _ _ _ _ _ E))).
Defined.

Lemma convertToPattern_from_table :
  forall DMC_COLORS imageData gridSize options fuel p reports,
    convertToPattern DMC_COLORS imageData gridSize options fuel
      = Resolved (p, reports) ->
    (forall s, In s (Pattern.stitches p) -> In (Stitch.color s) DMC_COLORS) /\
    keyed_by_id (Pattern.colorCounts p) /\
    (forall u, In u (Obj.values (Pattern.colorCounts p)) ->
       In (Usage.color u) DMC_COLORS).
Proof.
  intros DMC_COLORS imageData gridSize options fuel p reports H.
  unfold convertToPattern in H.
  apply (processChunk_inv DMC_COLORS imageData gridSize options
           (fun st => tallied (stitches st) (colorCounts st) /\
                      from_table DMC_COLORS st)) in H.
  - destruct H as (st' & [(Hwf & _) [Hs Hc]] & ->). simpl.
    split; [exact Hs|]. split.
    + intros k u Hin. apply (In_get _ _ _ Hwf) in Hin. now apply Hc in Hin.
    + intros u Hin. unfold Obj.values in Hin.
      apply in_map_iff in Hin as ([k u'] & <- & Hin).
      apply (In_get _ _ _ Hwf) in Hin. now apply Hc in Hin.
  - intros y x st st' [Ht Hf] Hc. split.
    + exact (cell_tallied _ _ _ _ _ _ _ _ Ht Hc).
    + exact (cell_from_table _ _ _ _ _ _ _ _ Hf Hc).
  - split; [apply tallied_empty|]. split; [intros s []|].
    intros k u Hu. discriminate.
Qed.

(** X9 -- the colours of a conversion come from the thread table.  In a
    pattern [convertToPattern] resolves with, the colour of every stitch
    is an entry of [DMC_COLORS], and so is every value of [colorCounts],
    which is stored under its own id. *)
Theorem stitches_use_table :
  forall DMC_COLORS imageData gridSize options fuel p reports,
    convertToPattern DMC_COLORS imageData gridSize options fuel
      = Resolved (p, reports) ->
    (forall s, In s (Pattern.stitches p) -> In (Stitch.color s) DMC_COLORS) /\
    keyed_by_id (Pattern.colorCounts p) /\
    (forall u, In u (Obj.values (Pattern.colorCounts p)) ->
       In (Usage.color u) DMC_COLORS).
Proof. exact convertToPattern_from_table. Qed.

Lemma stitches_use_table_witness :
  exists p reports,
    convertToPattern sample_palette column_image 1 plain_options 2
      = Resolved (p, reports) /\
    forall s, In s (Pattern.stitches p) -> In (Stitch.color s) sample_palette.
Proof.
  destruct (convertToPattern sample_palette column_image 1 plain_options 2)
    as [[p reports]| |] eqn:E; [|vm_compute in E; discriminate..].
  exists p, reports. split; [reflexivity|].
  exact (proj1 (stitches_use_table _ _ _ _ _ _ _ E)).
Defined.

(* ----------------------------------------------------------------- *)
(** ** Coverage of the grid *)

Lemma rows_inv_exact {S : Type} (P : Z -> S -> Prop) (f : Z -> S -> option S) endY :
  forall n y s s',
    (forall y' t t', (y <= y')%Z -> JS.lt (JS.of_Z y') endY = true ->
       P y' t -> f y' t = Some t' -> P (y' + 1)%Z t') ->
    P y s -> foldM f (rows n y endY) s = Some s' ->
    P (y + Z.of_nat (List.length (rows n y endY)))%Z s'.
Proof.
  induction n as [|n IH]; intros y s s' Hf Hs H; cbn [rows] in *.
  - injection H as <-. simpl. now rewrite Z.add_0_r.
  - destruct (JS.lt (JS.of_Z y) endY) eqn:Elt.
    + cbn [foldM] in H. destruct (f y s) as [s1|] eqn:E; [|discriminate].
      cbn [List.length]. rewrite Nat2Z.inj_succ.
      replace (y + Z.succ (Z.of_nat (List.length (rows n (y + 1) endY))))%Z
        with (y + 1 + Z.of_nat (List.length (rows n (y + 1) endY)))%Z by lia.
      apply (IH (y + 1)%Z s1 s').
      * intros y' t t' Hy'. apply Hf. lia.
      * apply (Hf y s s1); [lia|exact Elt|exact Hs|exact E].
      * exact H.
    + injection H as <-. simpl. now rewrite Z.add_0_r.
Qed.

Lemma grid_cells_succ gridSize y :
  (0 <= y)%Z ->
  grid_cells gridSize (y + 1) = grid_cells gridSize y ++ grid_row gridSize y.
Proof.
  intros Hy. unfold grid_cells.
  replace (Z.to_nat (y + 1)) with (S (Z.to_nat y)) by lia.
  rewrite seq_S, flat_map_app. simpl. rewrite app_nil_r.
  now rewrite Z2Nat.id by lia.
Qed.

Lemma grid_cells_length gridSize h :
  List.length (grid_cells gridSize h) = (gridSize * Z.to_nat h)%nat.
Proof.
  unfold grid_cells. generalize 0%nat.
  induction (Z.to_nat h) as [|n IH]; intros k; simpl; [lia|].
  rewrite length_app, IH. unfold grid_row. rewrite length_map, length_seq. lia.
Qed.

Lemma grid_cells_In gridSize h c :
  In c (grid_cells gridSize h) ->
  (0 <= fst c < Z.of_nat gridSize)%Z /\ (0 <= snd c < h)%Z.
Proof.
  unfold grid_cells. intros H. apply in_flat_map in H as (y & Hy & H).
  unfold grid_row in H. apply in_map_iff in H as (x & <- & Hx).
  apply in_seq in Hy, Hx. simpl. lia.
Qed.

Section Coverage.

Variable DMC_COLORS : list DMC.t.
Variable imageData : Image.t.
Variable gridSize : nat.
Variable options : Options.t.

Local Abbreviation cell' := (cell DMC_COLORS imageData gridSize options).
Local Abbreviation sweep' := (sweep DMC_COLORS imageData gridSize options).
Local Abbreviation processChunk' := (processChunk DMC_COLORS imageData gridSize options).
Local Abbreviation gridHeight' := (gridHeight imageData gridSize).
Local Abbreviation gridWidth' := (gridWidth gridSize).
Local Abbreviation working0 :=
  (if Options.useDithering options
   then Uint8ClampedArray_from (Image.data imageData)
   else Image.data imageData).
Local Abbreviation covered' := (covered imageData gridSize options).

Hypothesis Hmode :
  Options.useDithering options = false \/
  forall c, is_background options c = false.

Lemma stitched_working st x y :
  same_alpha (workingData st) working0 ->
  (Options.useDithering options = false ->
   workingData st = Image.data imageData) ->
  let idx := cell_index imageData gridSize x y in
  opaque (workingData st) idx
  && negb (is_background options (pixel (workingData st) idx))
  = stitched imageData gridSize options (x, y).
Proof.
  intros Hsa Hnd idx. subst idx. unfold stitched. cbn [fst snd].
  rewrite (opaque_working _ _ _ _ Hsa (cell_index_offset _ _ _ _)).
  destruct Hmode as [Hd|Hb].
  - now rewrite (Hnd Hd).
  - now rewrite !Hb.
Qed.

Lemma cell_covered y x st st' l :
  covered' l st -> cell' y x st = Some st' ->
  covered' (l ++ [(Z.of_nat x, y)]) st'.
Proof.
  intros (Hsa & Hnd & Hc) H.
  pose proof (stitched_working st (Z.of_nat x) y Hsa Hnd) as Hst. cbv zeta in Hst.
  destruct (cell_cases _ _ _ _ _ _ _ _ H)
    as [(Hs & _ & Hwd & Hno)|(dmc & counts & Ho & Hb & _ & _ & Hs & _ & Hal & Hwd')].
  - rewrite Hno in Hst. unfold covered.
    rewrite Hwd, Hs, filter_app. cbn [filter]. rewrite <- Hst, app_nil_r. auto.
  - rewrite Ho, Hb in Hst. unfold covered.
    rewrite Hs, map_app, filter_app. cbn [filter map]. rewrite <- Hst.
    split; [exact (same_alpha_trans _ _ _ Hal Hsa)|]. split.
    + intros Hd. rewrite (Hwd' Hd). auto.
    + now rewrite Hc.
Qed.

Lemma row_covered y st st' :
  (0 <= y)%Z ->
  covered' (grid_cells gridSize y) st ->
  foldM (cell' y) (seq 0 gridSize) st = Some st' ->
  covered' (grid_cells gridSize (y + 1)) st'.
Proof.
  intros Hy Hc H. rewrite grid_cells_succ by exact Hy. unfold grid_row.
  apply (foldM_seq_inv
           (fun i => covered' (grid_cells gridSize y
                              ++ map (fun x => (Z.of_nat x, y)) (seq 0 i)))
           (cell' y) gridSize 0 st st'); [|now rewrite app_nil_r|exact H].
  intros i t t' _ Ht Hcell. rewrite seq_S, map_app, app_assoc. simpl.
  now apply (cell_covered y i t t').
Qed.

Variable h : Z.
Hypothesis Hgh : gridHeight' = JS.of_Z h.
Hypothesis Hh : (0 <= h)%Z.

Lemma processChunk_covered fuel :
  forall startY st reports p tr,
    (0 <= startY <= h)%Z ->
    covered' (grid_cells gridSize startY) st ->
    processChunk' fuel startY st reports = Resolved (p, tr) ->
    exists st', covered' (grid_cells gridSize h) st' /\
                p = pattern_of gridWidth' gridHeight' st'.
Proof.
  induction fuel as [|fuel IH]; intros startY st reports p tr H0 Hc H;
    [discriminate|].
  rewrite processChunk_S in H. cbv zeta in H.
  rewrite Hgh, min_of_Z in H.
  destruct (sweep' startY _ st) as [st'|] eqn:E; [|discriminate].
  unfold sweep in E.
  apply (rows_inv_exact (fun y => covered' (grid_cells gridSize y))) in E;
    [|intros y' t t' Hy' _; apply row_covered; lia|exact Hc].
  rewrite rows_length in E. unfold chunkSize in *. rewrite lt_of_Z in H.
  destruct (Z.ltb_spec (Z.min (startY + 5) h) h) as [Hlt|Hge].
  - eapply IH; [| |exact H]; [lia|].
    replace (startY + 5)%Z
      with (startY + Z.of_nat (Nat.min (Z.to_nat 5)
                                 (Z.to_nat (Z.min (startY + 5) h - startY))))%Z
      by lia.
    exact E.
  - injection H as <- <-. exists st'. split; [|now rewrite Hgh].
    replace h
      with (startY + Z.of_nat (Nat.min (Z.to_nat 5)
                                 (Z.to_nat (Z.min (startY + 5) h - startY))))%Z
      at 1 by lia.
    exact E.
Qed.

End Coverage.

(** The centre of the [k]-th of [m] cells across [n] samples. *)
Lemma sample_coord k n m :
  (0 < m)%Z ->
  JS.floor (JS.add (JS.mul (JS.of_Z k) (JS.div (JS.of_Z n) (JS.of_Z m)))
                   (JS.div (JS.div (JS.of_Z n) (JS.of_Z m)) n2))
  = JS.of_Z (((2 * k + 1) * n) / (2 * m)).
Proof.
  intros Hm. rewrite div_of_Z by lia.
  unfold JS.fin, JS.mul, JS.add, JS.div, n2, JS.of_Z, JS.fin, JS.floor, JS.of_Z.
  change (Qeq_bool (inject_Z 2) 0) with false. cbv iota.
  do 2 f_equal. rewrite Zdiv_Qdiv. apply Qfloor_comp.
  rewrite !Qred_correct.
  rewrite !inject_Z_mult, inject_Z_plus, !inject_Z_mult.
  change (inject_Z 2) with 2%Q. change (inject_Z 1) with 1%Q.
  field. apply inject_Z_nonzero. lia.
Qed.

Lemma sample_coord_bounds k n m :
  (0 <= k < m)%Z -> (1 <= n)%Z ->
  (0 <= ((2 * k + 1) * n) / (2 * m) < n)%Z.
Proof.
  intros Hk Hn. split.
  - apply Z.div_pos; nia.
  - apply Z.div_lt_upper_bound; nia.
Qed.

(** On a buffer of the declared size the sample of a cell of the grid is
    a pixel of the buffer. *)
Lemma cell_index_value imageData gridSize h x y :
  well_formed imageData ->
  gridHeight imageData gridSize = JS.of_Z h ->
  (0 <= x < Z.of_nat gridSize)%Z -> (0 <= y < h)%Z ->
  exists i,
    (i < Image.width imageData * Image.height imageData)%nat /\
    cell_index imageData gridSize x y = JS.of_Z (4 * Z.of_nat i).
Proof.
  intros (Hw & Hhh & _) Hgh Hx Hy. unfold cell_index, cellWidth, cellHeight.
  rewrite Hgh. unfold width, height, gridWidth, JS.of_nat.
  rewrite !sample_coord by lia.
  set (sx := ((2 * x + 1) * Z.of_nat (Image.width imageData)
              / (2 * Z.of_nat gridSize))%Z).
  set (sy := ((2 * y + 1) * Z.of_nat (Image.height imageData) / (2 * h))%Z).
  assert (Hsx : (0 <= sx < Z.of_nat (Image.width imageData))%Z)
    by (apply sample_coord_bounds; lia).
  assert (Hsy : (0 <= sy < Z.of_nat (Image.height imageData))%Z)
    by (apply sample_coord_bounds; lia).
  exists (Z.to_nat (sy * Z.of_nat (Image.width imageData) + sx)). split.
  - nia.
  - unfold n4. rewrite mul_of_Z, add_of_Z, mul_of_Z. f_equal. nia.
Qed.

Lemma stitched_opaque imageData gridSize options h c :
  well_formed imageData ->
  gridHeight imageData gridSize = JS.of_Z h ->
  alpha_all (fun v => 128 < v)%Z (Image.data imageData) ->
  (forall c, is_background options c = false) ->
  In c (grid_cells gridSize h) ->
  stitched imageData gridSize options c = true.
Proof.
  intros Hwf Hgh Ha Hb Hin. apply grid_cells_In in Hin as [Hx Hy].
  destruct (cell_index_value imageData gridSize h (fst c) (snd c) Hwf Hgh Hx Hy)
    as (i & Hi & Hidx).
  unfold stitched. rewrite Hb, andb_true_r. unfold opaque, load.
  rewrite Hidx, add_of_Z, to_index_of_Z.
  replace (0 <=? 4 * Z.of_nat i + 3)%Z with true by (symmetry; apply Z.leb_le; lia).
  destruct Hwf as (_ & _ & Hlen).
  destruct (nth_error (Image.data imageData) (Z.to_nat (4 * Z.of_nat i + 3)))
    as [v|] eqn:En.
  - unfold JS.gt. rewrite lt_of_Z. apply Z.ltb_lt. apply (Ha _ v) in En; [exact En|].
    replace (Z.to_nat (4 * Z.of_nat i + 3)) with (3 + i * 4)%nat by lia.
    now rewrite Nat.Div0.mod_add.
  - apply nth_error_None in En. lia.
Qed.

(* ----------------------------------------------------------------- *)
(** ** Samples and stitches *)

Lemma keeps_background_spec options :
  keeps_background options -> forall c, is_background options c = false.
Proof.
  unfold is_background. intros [H|H] c; rewrite H; [|reflexivity].
  now destruct (Options.backgroundColor options).
Qed.

Lemma gridHeight_nonneg imageData gridSize :
  (1 <= Image.width imageData)%nat ->
  exists h, (0 <= h)%Z /\ gridHeight imageData gridSize = JS.of_Z h.
Proof.
  intros Hw. eexists. split; [|now apply gridHeight_value].
  apply Z.div_pos; lia.
Qed.

Lemma alpha_all_sample (P : Z -> Prop) (data : list Z) :
  Forall (fun i => (i mod 4 = 3)%nat ->
                   match nth_error data i with Some v => P v | None => True end)
         (seq 0 (List.length data)) ->
  alpha_all P data.
Proof.
  intros HF i v Hi Hv. rewrite Forall_forall in HF.
  specialize (HF i). rewrite Hv in HF. apply HF; [|exact Hi]. apply in_seq.
  assert (i < List.length data)%nat by (apply nth_error_Some; congruence). lia.
Qed.



(** X11 -- an image without an opaque sample gives an empty pattern.  If
    no alpha sample of the buffer is above 128, the pattern
    [convertToPattern] resolves with has no stitch and no colour,
    whatever the options. *)
Theorem transparent_image_no_stitches :
  forall DMC_COLORS imageData gridSize options fuel p reports,
    alpha_all (fun v => v <= 128)%Z (Image.data imageData) ->
    convertToPattern DMC_COLORS imageData gridSize options fuel
      = Resolved (p, reports) ->
    Pattern.stitches p = [] /\ Pattern.colorCounts p = [].
Proof.
  intros DMC_COLORS imageData gridSize options fuel p reports Ha H.
  unfold convertToPattern in H.
  apply (processChunk_inv DMC_COLORS imageData gridSize options
           (fun st =>
              same_alpha (workingData st)
                (if Options.useDithering options
                 then Uint8ClampedArray_from (Image.data imageData)
                 else Image.data imageData) /\
              stitches st = [] /\ colorCounts st = [])) in H.
  - destruct H as (st' & (_ & Hs & Hc) & ->). auto.
  - intros y x st st'. now apply cell_transparent.
  - split; [apply same_alpha_refl|]. auto.
Qed.

Lemma transparent_image_no_stitches_witness :
  exists p reports,
    convertToPattern sample_palette clear_image 1 removal_options 2
      = Resolved (p, reports) /\
    Pattern.stitches p = [] /\ Pattern.colorCounts p = [].
Proof.
  destruct (convertToPattern sample_palette clear_image 1 removal_options 2)
    as [[p reports]| |] eqn:E; [|vm_compute in E; discriminate..].
  exists p, reports. split; [reflexivity|].
  assert (Ha : alpha_all (fun v => v <= 128)%Z (Image.data clear_image)).
  { apply alpha_all_sample. simpl.
    repeat (apply Forall_cons; [simpl; intros; lia|]). apply Forall_nil. }
  exact (transparent_image_no_stitches sample_palette clear_image 1 removal_options
           2 p reports Ha E).
Defined.



(** X13 -- an opaque image fills the grid.  On a buffer of the declared
    size whose alpha samples are all above 128, with background removal
    off, the pattern [convertToPattern] resolves with has one stitch in
    every cell of the grid, dithered or not: [gridSize] times [height]
    stitches, row after row. *)
Theorem opaque_image_full_grid :
  forall DMC_COLORS imageData gridSize options fuel p reports,
    well_formed imageData ->
    alpha_all (fun v => 128 < v)%Z (Image.data imageData) ->
    keeps_background options ->
    convertToPattern DMC_COLORS imageData gridSize options fuel
      = Resolved (p, reports) ->
    exists h,
      (0 <= h)%Z /\ Pattern.height p = JS.of_Z h /\
      map coords (Pattern.stitches p) = grid_cells gridSize h /\
      List.length (Pattern.stitches p) = (gridSize * Z.to_nat h)%nat.
Proof.
  intros DMC_COLORS imageData gridSize options fuel p reports Hwf Ha Hk H.
  destruct (gridHeight_nonneg imageData gridSize (proj1 Hwf)) as (h & Hh & Hgh).
  exists h. split; [exact Hh|].
  unfold convertToPattern in H.
  apply (processChunk_covered DMC_COLORS imageData gridSize options) with (h := h)
    in H.
  - destruct H as (st' & (_ & _ & Hc) & ->). simpl. split; [exact Hgh|].
    assert (Hall : map coords (stitches st') = grid_cells gridSize h).
    { rewrite Hc. apply forallb_filter_id. apply forallb_forall.
      intros c Hin.
      apply (stitched_opaque imageData gridSize options h c Hwf Hgh Ha); [|exact Hin].
      now apply keeps_background_spec. }
    split; [exact Hall|].
    rewrite <- (length_map coords), Hall. apply grid_cells_length.
  - right. now apply keeps_background_spec.
  - exact Hgh.
  - lia.
  - unfold covered, initial. cbn [workingData stitches].
    split; [apply same_alpha_refl|]. split; [|reflexivity].
    intros ->. reflexivity.
Qed.

Lemma opaque_image_full_grid_witness :
  exists p reports,
    convertToPattern sample_palette square_image 2 plain_options 2
      = Resolved (p, reports) /\
    List.length (Pattern.stitches p) = 4%nat.
Proof.
  destruct (convertToPattern sample_palette square_image 2 plain_options 2)
    as [[p reports]| |] eqn:E; [|vm_compute in E; discriminate..].
  destruct (opaque_image_full_grid sample_palette square_image 2 plain_options 2
              p reports) as (h & Hh & Hgh & _ & Hlen).
  - repeat split; simpl; lia.
  - apply alpha_all_sample. simpl.
    repeat (apply Forall_cons; [simpl; intros; lia|]). apply Forall_nil.
  - now left.
  - exact E.
  - exists p, reports. split; [reflexivity|]. rewrite Hlen.
    assert (Hp : Pattern.height p = JS.of_Z 2).
    { assert (Hpat : Resolved (p, reports)
                     = convertToPattern sample_palette square_image 2 plain_options 2)
        by (now rewrite E).
      vm_compute in Hpat. injection Hpat as -> _. reflexivity. }
    rewrite Hp in Hgh. unfold JS.of_Z in Hgh. injection Hgh as Hq.
    subst h. reflexivity.
Defined.

(* ----------------------------------------------------------------- *)
(** ** Error diffusion *)

Lemma clamp_byte a : byte (JS.to_uint8_clamp a).
Proof.
  unfold byte, JS.to_uint8_clamp. destruct a as [| | |q]; try lia.
  destruct (Qle_bool q 0) eqn:E0; [lia|].
  destruct (Qle_bool 255 q) eqn:E1; [lia|].
  assert (H0 : (0 < q)%Q).
  { apply Qnot_le_lt. intros H. apply Qle_bool_iff in H. congruence. }
  assert (H1 : (q < 255)%Q).
  { apply Qnot_le_lt. intros H. apply Qle_bool_iff in H. congruence. }
  assert (Hf0 : (0 <= Qfloor q)%Z).
  { change 0%Z with (Qfloor 0). apply Qfloor_resp_le. lra. }
  assert (Hf1 : (Qfloor q < 255)%Z).
  { apply Z.nle_gt. intros Hge.
    pose proof (Qfloor_le q) as Hq. rewrite Zle_Qle in Hge.
    change (inject_Z 255) with 255%Q in Hge. lra. }
  cbv zeta. destruct (_ ?= _)%Q; [destruct (Z.even _)| |]; lia.
Qed.

Lemma update_byte data i v :
  byte v -> Forall byte data -> Forall byte (update data i v).
Proof.
  intros Hv. revert i. induction data as [|w data IH]; intros i HF; simpl;
    [constructor|].
  inversion HF; subst. destruct i; constructor; auto.
Qed.

Lemma store_spec data idx v :
  List.length (store data idx v) = List.length data /\
  (forall i, JS.to_index idx <> Some i ->
     nth_error (store data idx v) i = nth_error data i) /\
  (Forall byte data -> Forall byte (store data idx v)).
Proof.
  unfold store. destruct (JS.to_index idx) as [j|].
  - split; [apply length_update|]. split.
    + intros i Hne. apply nth_update_other. congruence.
    + apply update_byte, clamp_byte.
  - split; [reflexivity|]. split; [reflexivity|auto].
Qed.

Lemma index_dec (a : JS.num) (i : nat) :
  JS.to_index a = Some i \/ JS.to_index a <> Some i.
Proof.
  destruct (JS.to_index a) as [j|]; [|right; discriminate].
  destruct (Nat.eq_dec j i) as [->|H]; [now left|right; congruence].
Qed.

(** X14 -- what [distributeError] can write.  The buffer keeps its
    length.  A sample that changes is the red, green or blue sample of
    the pixel [(x, y)], and this pixel is inside the image: outside, the
    call does nothing, and an alpha sample never changes.  Samples that
    were bytes are bytes afterwards. *)
Theorem distributeError_writes_one_pixel :
  forall data width height x y errorR errorG errorB factor,
    let data' := distributeError data width height x y errorR errorG errorB factor in
    let idx := ((y * width + x) * n4)%js in
    List.length data' = List.length data /\
    (forall i, nth_error data' i <> nth_error data i ->
       inside_image width height x y = true /\
       (JS.to_index idx = Some i \/ JS.to_index (idx + n1)%js = Some i \/
        JS.to_index (idx + n2)%js = Some i)) /\
    (inside_image width height x y = false -> data' = data) /\
    (Forall byte data -> Forall byte data').
Proof.
  intros data width height x y eR eG eB factor data' idx.
  subst data'. unfold distributeError, inside_image. fold idx.
  destruct (_ || _).
  { split; [reflexivity|]. split; [intros i Hne; now elim Hne|]. auto. }
  set (v0 := JS.max _ _). set (d0 := store data idx v0).
  set (v1 := JS.max n0 (JS.min n255 (JS.add (load d0 (JS.add idx n1)) _))).
  set (d1 := store d0 (JS.add idx n1) v1).
  set (v2 := JS.max n0 (JS.min n255 (JS.add (load d1 (JS.add idx n2)) _))).
  destruct (store_spec data idx v0) as (L0 & C0 & B0).
  destruct (store_spec d0 (JS.add idx n1) v1) as (L1 & C1 & B1).
  destruct (store_spec d1 (JS.add idx n2) v2) as (L2 & C2 & B2).
  fold d0 in L0, C0, B0. fold d1 in L1, C1, B1.
  split; [congruence|]. split; [|split; [discriminate|auto]].
  intros i Hne. split; [reflexivity|].
  destruct (index_dec idx i) as [H0|H0]; [now left|].
  destruct (index_dec (JS.add idx n1) i) as [H1|H1]; [right; now left|].
  destruct (index_dec (JS.add idx n2) i) as [H2|H2]; [right; now right|].
  exfalso. apply Hne. rewrite (C2 i H2). fold d1. rewrite (C1 i H1). fold d0.
  exact (C0 i H0).
Qed.

(* ----------------------------------------------------------------- *)
(** ** Hex strings and similar colours *)

Section HexDigits.

(** The upper-case digit of a value below 16. *)
Local Abbreviation U := (fun d : Z => Str.upper (Str.digit_char d)).

(** What [parseInt] and the regular expression of [hexToRgb] see in a
    hexadecimal digit. *)
Lemma hex_char_facts c :
  is_hex c = true ->
  exists v, (0 <= v < 16)%Z /\ Str.hex_digit c = Some v /\
    Str.is_space c = false /\ Ascii.eqb c "-" = false /\ Ascii.eqb c "+" = false /\
    Ascii.eqb c "x" = false /\ Ascii.eqb c "X" = false /\
    Str.upper c = U v.
Proof.
  destruct c as [[] [] [] [] [] [] [] []]; intros H; vm_compute in H;
    try discriminate H;
    match goal with
    | |- context [Str.hex_digit ?c] =>
        let v := eval vm_compute in (Str.hex_digit c) in
        match v with Some ?z => exists z end
    end; (split; [lia|]); repeat split; vm_compute; reflexivity.
Qed.

Lemma upper_digit d : (0 <= d < 16)%Z -> is_hex (U d) = true /\ Str.hex_digit (U d) = Some d.
Proof.
  intros H.
  assert (C : (d = 0 \/ d = 1 \/ d = 2 \/ d = 3 \/ d = 4 \/ d = 5 \/ d = 6 \/ d = 7 \/
               d = 8 \/ d = 9 \/ d = 10 \/ d = 11 \/ d = 12 \/ d = 13 \/ d = 14 \/
               d = 15)%Z) by lia.
  repeat (destruct C as [->|C]; [split; reflexivity|]). subst d. split; reflexivity.
Qed.

Lemma parse_pair c1 c2 v1 v2 :
  is_hex c1 = true -> is_hex c2 = true ->
  Str.hex_digit c1 = Some v1 -> Str.hex_digit c2 = Some v2 ->
  Str.parseInt16 (String c1 (String c2 EmptyString)) = JS.of_Z (16 * v1 + v2).
Proof.
  intros H1 H2 E1 E2.
  destruct (hex_char_facts c1 H1) as (w1 & _ & _ & Hs & Hm & Hp & _ & _ & _).
  destruct (hex_char_facts c2 H2) as (w2 & _ & _ & _ & _ & _ & Hx & HX & _).
  unfold Str.parseInt16. cbn [Str.trim_start]. rewrite Hs, Hm, Hp, Hx, HX.
  rewrite andb_false_r. cbn [Str.hex_prefix]. rewrite E1, E2. reflexivity.
Qed.

Lemma digits_S fuel radix n acc :
  Str.digits (S fuel) radix n acc =
    if (n / radix =? 0)%Z then String (Str.digit_char (n mod radix)) acc
    else Str.digits fuel radix (n / radix) (String (Str.digit_char (n mod radix)) acc).
Proof. reflexivity. Qed.

Lemma to_int32_small z : (- 2 ^ 31 <= z < 2 ^ 31)%Z -> JS.to_int32 z = z.
Proof.
  intros H. unfold JS.to_int32. rewrite Z.mod_small; lia.
Qed.

Lemma shl_small a k :
  (0 <= k)%Z -> (- 2 ^ 31 <= a < 2 ^ 31)%Z -> (- 2 ^ 31 <= a * 2 ^ k < 2 ^ 31)%Z ->
  JS.shl a k = (a * 2 ^ k)%Z.
Proof.
  intros Hk Ha Hs. unfold JS.shl. rewrite (to_int32_small a Ha).
  rewrite Z.shiftl_mul_pow2 by exact Hk. now apply to_int32_small.
Qed.

(** The seven digits of a number between [16^6] and [2 * 16^6]. *)
Lemma hex7 n :
  (2 ^ 24 <= n < 2 ^ 25)%Z ->
  Str.of_Z 16 n =
    String "1"
      (String (Str.digit_char (n / 2 ^ 20 mod 16))
      (String (Str.digit_char (n / 2 ^ 16 mod 16))
      (String (Str.digit_char (n / 2 ^ 12 mod 16))
      (String (Str.digit_char (n / 2 ^ 8 mod 16))
      (String (Str.digit_char (n / 2 ^ 4 mod 16))
      (String (Str.digit_char (n mod 16)) EmptyString)))))).
Proof.
  intros Hn. unfold Str.of_Z.
  replace (n <? 0)%Z with false by (symmetry; apply Z.ltb_ge; lia).
  replace (Z.log2 n) with 24%Z
    by (symmetry; apply Z.log2_unique; [lia|exact Hn]).
  change (S (Z.to_nat 24)) with 25%nat.
  assert (D : forall m k, (0 < k)%Z -> (16 * k <= m)%Z -> (m / 16 =? 0)%Z = false).
  { intros m k Hk Hm. apply Z.eqb_neq. intros H0.
    pose proof (Z.div_le_mono (16 * k) m 16 ltac:(lia) Hm) as Hd.
    rewrite Z.mul_comm, Z.div_mul in Hd by lia. lia. }
  assert (E : forall k k', (0 <= k)%Z -> (k' = k + 4)%Z ->
            (n / 2 ^ k / 16 = n / 2 ^ k')%Z).
  { intros k k' Hk ->. rewrite Z.div_div by lia. f_equal.
    rewrite Z.pow_add_r by lia. reflexivity. }
  assert (B : forall k, (0 <= k <= 24)%Z -> (2 ^ (24 - k) <= n / 2 ^ k)%Z).
  { intros k Hk. apply Z.div_le_lower_bound; [lia|].
    rewrite <- Z.pow_add_r by lia. replace (k + (24 - k))%Z with 24%Z by lia. lia. }
  rewrite digits_S. rewrite (D n (2 ^ 20)%Z) by lia.
  replace (n / 16)%Z with (n / 2 ^ 4)%Z by reflexivity.
  rewrite digits_S, (D _ (2 ^ 16)%Z) by (try lia; apply (B 4%Z); lia).
  rewrite (E 4 8)%Z by lia.
  rewrite digits_S, (D _ (2 ^ 12)%Z) by (try lia; apply (B 8%Z); lia).
  rewrite (E 8 12)%Z by lia.
  rewrite digits_S, (D _ (2 ^ 8)%Z) by (try lia; apply (B 12%Z); lia).
  rewrite (E 12 16)%Z by lia.
  rewrite digits_S, (D _ (2 ^ 4)%Z) by (try lia; apply (B 16%Z); lia).
  rewrite (E 16 20)%Z by lia.
  rewrite digits_S, (D _ 1%Z) by (try lia; apply (B 20%Z); lia).
  rewrite (E 20 24)%Z by lia.
  rewrite digits_S, (E 24 28)%Z by lia.
  assert (H24 : (n / 2 ^ 24 = 1)%Z).
  { apply Z.le_antisymm; [|apply (B 24%Z); lia].
    apply Z.lt_succ_r. apply Z.div_lt_upper_bound; lia. }
  replace (n / 2 ^ 28)%Z with 0%Z
    by (symmetry; apply Z.div_small; lia).
  rewrite H24. reflexivity.
Qed.

Lemma digits_of rh rl gh gl bh bl :
  (0 <= rh < 16 -> 0 <= rl < 16 -> 0 <= gh < 16 -> 0 <= gl < 16 ->
   0 <= bh < 16 -> 0 <= bl < 16 ->
   let n := 16777216 + (16 * rh + rl) * 65536 + (16 * gh + gl) * 256
            + (16 * bh + bl) in
   n / 1048576 mod 16 = rh /\ n / 65536 mod 16 = rl /\ n / 4096 mod 16 = gh /\
   n / 256 mod 16 = gl /\ n / 16 mod 16 = bh /\ n mod 16 = bl)%Z.
Proof.
  intros. subst n.
  assert (A : forall q d m k, (0 <= m < k -> 0 <= d < 16 ->
            (16 * q * k + d * k + m) / k mod 16 = d)%Z).
  { intros q d m k Hm Hd.
    replace (16 * q * k + d * k + m)%Z with ((16 * q + d) * k + m)%Z by ring.
    rewrite Z.div_add_l by lia. rewrite (Z.div_small m k) by lia.
    rewrite Z.add_0_r, Z.add_comm, Z.mul_comm, Z.mod_add by lia.
    apply Z.mod_small. lia. }
  repeat split.
  - replace (16777216 + (16 * rh + rl) * 65536 + (16 * gh + gl) * 256 + (16 * bh + bl))%Z
      with (16 * 1 * 1048576 + rh * 1048576 + (rl * 65536 + (16 * gh + gl) * 256 + (16 * bh + bl)))%Z by ring.
    apply A; lia.
  - replace (16777216 + (16 * rh + rl) * 65536 + (16 * gh + gl) * 256 + (16 * bh + bl))%Z
      with (16 * (16 + rh) * 65536 + rl * 65536 + ((16 * gh + gl) * 256 + (16 * bh + bl)))%Z by ring.
    apply A; lia.
  - replace (16777216 + (16 * rh + rl) * 65536 + (16 * gh + gl) * 256 + (16 * bh + bl))%Z
      with (16 * (256 + 16 * rh + rl) * 4096 + gh * 4096 + (gl * 256 + (16 * bh + bl)))%Z by ring.
    apply A; lia.
  - replace (16777216 + (16 * rh + rl) * 65536 + (16 * gh + gl) * 256 + (16 * bh + bl))%Z
      with (16 * (4096 + 256 * rh + 16 * rl + gh) * 256 + gl * 256 + (16 * bh + bl))%Z by ring.
    apply A; lia.
  - replace (16777216 + (16 * rh + rl) * 65536 + (16 * gh + gl) * 256 + (16 * bh + bl))%Z
      with (16 * (65536 + 4096 * rh + 256 * rl + 16 * gh + gl) * 16 + bh * 16 + bl)%Z by ring.
    apply A; lia.
  - replace (16777216 + (16 * rh + rl) * 65536 + (16 * gh + gl) * 256 + (16 * bh + bl))%Z
      with (bl + (1048576 + 65536 * rh + 4096 * rl + 256 * gh + 16 * gl + bh) * 16)%Z by ring.
    rewrite Z.mod_add by lia. apply Z.mod_small. lia.
Qed.

Lemma rgbToHex_value r g b :
  byte r -> byte g -> byte b ->
  rgbToHex r g b =
    String "#"
      (String (U (r / 16)%Z) (String (U (r mod 16)%Z)
      (String (U (g / 16)%Z) (String (U (g mod 16)%Z)
      (String (U (b / 16)%Z) (String (U (b mod 16)%Z) EmptyString)))))).
Proof.
  unfold byte. intros Hr Hg Hb. unfold rgbToHex.
  rewrite !shl_small
    by (change (2 ^ 31)%Z with 2147483648%Z; change (2 ^ 24)%Z with 16777216%Z;
        change (2 ^ 16)%Z with 65536%Z; change (2 ^ 8)%Z with 256%Z; lia).
  change (2 ^ 24)%Z with 16777216%Z; change (2 ^ 16)%Z with 65536%Z.
  change (2 ^ 8)%Z with 256%Z.
  rewrite hex7
    by (change (2 ^ 24)%Z with 16777216%Z; change (2 ^ 25)%Z with 33554432%Z; lia).
  change (2 ^ 20)%Z with 1048576%Z. change (2 ^ 16)%Z with 65536%Z.
  change (2 ^ 12)%Z with 4096%Z. change (2 ^ 8)%Z with 256%Z.
  change (2 ^ 4)%Z with 16%Z.
  cbn [Str.tail Str.toUpperCase].
  destruct (digits_of (r / 16) (r mod 16) (g / 16) (g mod 16) (b / 16) (b mod 16))
    as (D1 & D2 & D3 & D4 & D5 & D6);
    try (Z.to_euclidean_division_equations; lia).
  replace (1 * 16777216 + r * 65536 + g * 256 + b)%Z
    with (16777216 + (16 * (r / 16) + r mod 16) * 65536
          + (16 * (g / 16) + g mod 16) * 256 + (16 * (b / 16) + b mod 16))%Z
    by (Z.to_euclidean_division_equations; lia).
  rewrite D1, D2, D3, D4, D5, D6. reflexivity.
Qed.

Lemma nibbles v :
  byte v -> (0 <= v / 16 < 16)%Z /\ (0 <= v mod 16 < 16)%Z.
Proof. unfold byte. intros H. Z.to_euclidean_division_equations. lia. Qed.

Lemma parse_upper v :
  byte v ->
  is_hex (U (v / 16)%Z) = true /\ is_hex (U (v mod 16)%Z) = true /\
  Str.parseInt16 (String (U (v / 16)%Z) (String (U (v mod 16)%Z) EmptyString))
  = JS.of_Z v.
Proof.
  intros Hv. destruct (nibbles v Hv) as [Hh Hl].
  destruct (upper_digit (v / 16)%Z Hh) as [H1 E1].
  destruct (upper_digit (v mod 16)%Z Hl) as [H2 E2].
  split; [exact H1|]. split; [exact H2|].
  rewrite (parse_pair _ _ _ _ H1 H2 E1 E2). f_equal.
  symmetry. apply Z.div_mod. lia.
Qed.

End HexDigits.

(** X15 -- [rgbToHex] then [hexToRgb].  For three integers between 0
    and 255, [rgbToHex] returns a string of seven characters that
    [hexToRgb] reads back as the same three channels; the slices
    [findClosestDMC] parses in a [hex] field give the same channels. *)
Theorem rgb_hex_round_trip :
  forall r g b,
    byte r -> byte g -> byte b ->
    hexToRgb (rgbToHex r g b) = Some (rgb r g b) /\
    String.length (rgbToHex r g b) = 7%nat /\
    channel 1 3 (rgbToHex r g b) = JS.of_Z r /\
    channel 3 5 (rgbToHex r g b) = JS.of_Z g /\
    channel 5 7 (rgbToHex r g b) = JS.of_Z b.
Proof.
  intros r g b Hr Hg Hb. rewrite (rgbToHex_value r g b Hr Hg Hb).
  split; [|split; [reflexivity|]].
  - destruct (parse_upper r Hr) as (R1 & R2 & R3).
    destruct (parse_upper g Hg) as (G1 & G2 & G3).
    destruct (parse_upper b Hb) as (B1 & B2 & B3).
    unfold hexToRgb. change (Ascii.eqb "#" "#") with true. cbv iota.
    cbn [forallb]. rewrite R1, R2, G1, G2, B1, B2. cbn [andb].
    rewrite R3, G3, B3. reflexivity.
  - unfold channel, Str.slice. cbn [Nat.sub substring].
    rewrite (proj2 (proj2 (parse_upper r Hr))), (proj2 (proj2 (parse_upper g Hg))),
            (proj2 (proj2 (parse_upper b Hb))). auto.
Qed.

Lemma rgb_hex_round_trip_witness :
  hexToRgb (rgbToHex 250 5 5) = Some (rgb 250 5 5) /\
  channel 1 3 (rgbToHex 250 5 5) = JS.of_Z 250.
Proof.
  destruct (rgb_hex_round_trip 250 5 5) as (H1 & _ & H2 & _);
    [unfold byte; lia..|].
  split; [exact H1|exact H2].
Defined.

(** X16 -- [hexToRgb] then [rgbToHex].  Whenever [hexToRgb] accepts a
    string, the channels it returns are integers between 0 and 255, and
    [rgbToHex] writes them as the digits of the string in upper case
    after a ["#"]. *)
Theorem hex_rgb_normalises :
  forall hex c,
    hexToRgb hex = Some c ->
    exists r g b,
      byte r /\ byte g /\ byte b /\ c = rgb r g b /\
      rgbToHex r g b = String "#" (Str.toUpperCase (hex_body hex)).
Proof.
  intros hex c. unfold hexToRgb. fold (hex_body hex).
  destruct (hex_body hex) as [|c1 [|c2 [|c3 [|c4 [|c5 [|c6 [|? ?]]]]]]];
    try discriminate.
  destruct (forallb _ _) eqn:E; [|discriminate].
  cbn [forallb] in E. rewrite !andb_true_iff in E.
  destruct E as (H1 & H2 & H3 & H4 & H5 & H6 & _).
  destruct (hex_char_facts c1 H1) as (v1 & B1 & E1 & _ & _ & _ & _ & _ & U1).
  destruct (hex_char_facts c2 H2) as (v2 & B2 & E2 & _ & _ & _ & _ & _ & U2).
  destruct (hex_char_facts c3 H3) as (v3 & B3 & E3 & _ & _ & _ & _ & _ & U3).
  destruct (hex_char_facts c4 H4) as (v4 & B4 & E4 & _ & _ & _ & _ & _ & U4).
  destruct (hex_char_facts c5 H5) as (v5 & B5 & E5 & _ & _ & _ & _ & _ & U5).
  destruct (hex_char_facts c6 H6) as (v6 & B6 & E6 & _ & _ & _ & _ & _ & U6).
  intros H. injection H as <-.
  exists (16 * v1 + v2)%Z, (16 * v3 + v4)%Z, (16 * v5 + v6)%Z.
  assert (Hr : byte (16 * v1 + v2)%Z) by (unfold byte; lia).
  assert (Hg : byte (16 * v3 + v4)%Z) by (unfold byte; lia).
  assert (Hb : byte (16 * v5 + v6)%Z) by (unfold byte; lia).
  split; [exact Hr|]. split; [exact Hg|]. split; [exact Hb|]. split.
  - unfold rgb.
    now rewrite (parse_pair _ _ _ _ H1 H2 E1 E2), (parse_pair _ _ _ _ H3 H4 E3 E4),
                (parse_pair _ _ _ _ H5 H6 E5 E6).
  - rewrite (rgbToHex_value _ _ _ Hr Hg Hb). cbn [Str.toUpperCase].
    rewrite U1, U2, U3, U4, U5, U6.
    replace ((16 * v1 + v2) / 16)%Z with v1
      by (Z.to_euclidean_division_equations; lia).
    replace ((16 * v1 + v2) mod 16)%Z with v2
      by (Z.to_euclidean_division_equations; lia).
    replace ((16 * v3 + v4) / 16)%Z with v3
      by (Z.to_euclidean_division_equations; lia).
    replace ((16 * v3 + v4) mod 16)%Z with v4
      by (Z.to_euclidean_division_equations; lia).
    replace ((16 * v5 + v6) / 16)%Z with v5
      by (Z.to_euclidean_division_equations; lia).
    replace ((16 * v5 + v6) mod 16)%Z with v6
      by (Z.to_euclidean_division_equations; lia).
    reflexivity.
Qed.

Lemma hex_rgb_normalises_witness :
  exists r g b,
    hexToRgb "fa0505" = Some (rgb r g b) /\ rgbToHex r g b = "#FA0505"%string.
Proof.
  destruct (hex_rgb_normalises "fa0505" (rgb 250 5 5) eq_refl)
    as (r & g & b & _ & _ & _ & Hc & Hh).
  exists r, g, b. split; [now rewrite <- Hc|exact Hh].
Defined.

Lemma square_swap (a b : JS.num) :
  JS.mul (JS.sub a b) (JS.sub a b) = JS.mul (JS.sub b a) (JS.sub b a).
Proof.
  destruct a as [| | |x], b as [| | |y]; try reflexivity.
  unfold JS.sub, JS.mul, JS.fin. f_equal. apply Qred_complete.
  rewrite !Qred_correct. ring.
Qed.

Lemma colorDistance_sym c1 c2 : colorDistance c1 c2 = colorDistance c2 c1.
Proof.
  unfold colorDistance, weighted.
  now rewrite (square_swap (RGB.r c1)), (square_swap (RGB.g c1)),
              (square_swap (RGB.b c1)).
Qed.

Lemma root_lt_mono s t t' :
  JS.root_lt s t = true -> JS.le t t' = true -> JS.root_lt s t' = true.
Proof.
  destruct s as [[| | |d]]; try discriminate. cbn [JS.root_lt].
  destruct (JS.Qltb d 0) eqn:Ed; [discriminate|]. apply Qltb_ge in Ed.
  destruct t as [| | |u], t' as [| | |u']; try discriminate; try reflexivity.
  cbn [JS.le]. rewrite !andb_true_iff. intros [H0 H1] Hle.
  apply Qltb_lt in H0, H1. apply Qle_bool_iff in Hle.
  split; apply Qltb_lt; [lra|nra].
Qed.

Lemma root_lt_zero t : JS.root_lt (JS.Sqrt (JS.Fin 0)) t = JS.lt n0 t.
Proof.
  destruct t as [| | |u]; try reflexivity. cbn [JS.root_lt JS.lt n0 JS.of_Z].
  change (JS.Qltb 0 0) with false. cbv iota.
  change (inject_Z 0) with 0%Q.
  destruct (JS.Qltb 0 u) eqn:E; [|reflexivity].
  apply Qltb_lt in E. apply Qltb_lt. nra.
Qed.

Lemma self_distance c : finite_rgb c -> colorDistance c c = JS.Sqrt (JS.Fin 0).
Proof.
  intros ((x & Hx) & (y & Hy) & (z & Hz)).
  unfold colorDistance, weighted. rewrite Hx, Hy, Hz.
  unfold JS.sub, JS.mul, JS.add, JS.fin, n03, n059, n011. do 2 f_equal.
  change 0%Q with (Qred 0). apply Qred_complete.
  rewrite !Qred_correct. ring.
Qed.

(** X17 -- similarity of colours.  [colorDistance] and [isSimilarColor]
    do not depend on the order of the two colours; a colour similar to
    another within a tolerance is similar to it within any larger one;
    and a colour of finite channels is similar to itself exactly when the
    tolerance is positive: with a tolerance of 0, or one that is not a
    number, nothing is similar to anything. *)
Theorem isSimilarColor_symmetric :
  forall color1 color2 tolerance,
    colorDistance color1 color2 = colorDistance color2 color1 /\
    isSimilarColor color1 color2 tolerance = isSimilarColor color2 color1 tolerance /\
    (forall larger, isSimilarColor color1 color2 tolerance = true ->
       JS.le tolerance larger = true ->
       isSimilarColor color1 color2 larger = true) /\
    (finite_rgb color1 ->
     isSimilarColor color1 color1 tolerance = JS.lt n0 tolerance) /\
    (JS.lt n0 tolerance = false -> isSimilarColor color1 color2 tolerance = false).
Proof.
  intros c1 c2 tol. split; [apply colorDistance_sym|]. split; [|split; [|split]].
  - unfold isSimilarColor. now rewrite colorDistance_sym.
  - intros larger. unfold isSimilarColor. apply root_lt_mono.
  - intros Hf. unfold isSimilarColor. rewrite (self_distance c1 Hf).
    apply root_lt_zero.
  - unfold isSimilarColor. destruct (colorDistance c1 c2) as [[| | |d]];
      try reflexivity. cbn [JS.root_lt].
    destruct (JS.Qltb d 0); [reflexivity|].
    destruct tol as [| | |u]; try reflexivity; [discriminate|].
    cbn [JS.lt n0 JS.of_Z]. change (inject_Z 0) with 0%Q. now intros ->.
Qed.

(* ----------------------------------------------------------------- *)
(** ** Background detection *)

(** The head of a list sorted by [sort_desc] is the first element of
    greatest key of the list. *)
Lemma sort_desc_head {A : Type} (key : A -> Z) (l : list A) :
  l <> [] ->
  exists pre g post rest,
    l = pre ++ g :: post /\ sort_desc key l = g :: rest /\ first_max key pre g post.
Proof.
  induction l as [|a l IH]; intros Hne; [congruence|]. simpl.
  destruct l as [|b l'].
  - exists [], a, [], []. simpl. repeat split; intros e [].
  - destruct IH as (pre & g & post & rest & Hl & Hs & Hpre & Hpost); [discriminate|].
    rewrite Hs. simpl. destruct (Z.ltb_spec (key a) (key g)) as [Hlt|Hge].
    + exists (a :: pre), g, post, (insert_desc key a rest).
      split; [now rewrite Hl|]. split; [reflexivity|]. split; [|exact Hpost].
      intros e [<-|He]; [exact Hlt|now apply Hpre].
    + exists [], a, (b :: l'), (g :: rest).
      split; [reflexivity|]. split; [reflexivity|]. split; [intros e []|].
      intros e He. rewrite Hl in He. apply in_app_or in He as [He|[<-|He]].
      * apply Hpre in He. lia.
      * lia.
      * apply Hpost in He. lia.
Qed.

Lemma vote_spec sample tol groups groups' :
  vote sample tol groups = Some groups' ->
  map Vote.color groups' = map Vote.color groups /\
  fold_right Z.add 0%Z (map Vote.count groups')
  = (fold_right Z.add 0%Z (map Vote.count groups) + 1)%Z.
Proof.
  revert groups'. induction groups as [|g groups IH]; intros groups' H; simpl in H;
    [discriminate|].
  destruct (isSimilarColor _ _ _).
  - injection H as <-. simpl. split; [reflexivity|lia].
  - destruct (vote _ _ groups) as [g2|]; [|discriminate].
    injection H as <-. destruct (IH _ eq_refl) as [H1 H2]. simpl.
    rewrite H1, H2. split; [reflexivity|lia].
Qed.

(** The groups after the samples [l] were counted. *)
Lemma count_samples_spec tol l :
  forall groups,
    let groups' := fold_left (count_sample tol) l groups in
    incl (map Vote.color groups') (map Vote.color groups ++ l) /\
    fold_right Z.add 0%Z (map Vote.count groups')
    = (fold_right Z.add 0%Z (map Vote.count groups) + Z.of_nat (List.length l))%Z /\
    (groups <> [] \/ l <> [] -> groups' <> []).
Proof.
  induction l as [|s l IH]; intros groups; simpl.
  - split; [rewrite app_nil_r; apply incl_refl|]. split; [lia|]. intros [H|H]; auto.
  - destruct (IH (count_sample tol groups s)) as (H1 & H2 & H3).
    unfold count_sample in *. destruct (vote s tol groups) as [g|] eqn:E.
    + apply vote_spec in E as [Ec Es]. rewrite Ec, Es in *. split; [|split].
      * intros c Hc. apply H1 in Hc. apply in_app_or in Hc as [Hc|Hc];
          apply in_or_app; [now left|right; now right].
      * rewrite H2. lia.
      * intros _. apply H3. left. intros ->. destruct groups; discriminate.
    + rewrite !map_app, sum_app in *. simpl in *. split; [|split].
      * intros c Hc. apply H1 in Hc. rewrite <- app_assoc in Hc. exact Hc.
      * rewrite H2. lia.
      * intros _. apply H3. left. now destruct groups.
Qed.

Lemma count_samples_uniform tol c n :
  isSimilarColor c c tol = true ->
  forall k,
    fold_left (count_sample tol) (repeat c n) [{| Vote.color := c; Vote.count := k |}]
    = [{| Vote.color := c; Vote.count := k + Z.of_nat n |}].
Proof.
  intros Hs. induction n as [|n IH]; intros k.
  - simpl. now rewrite Z.add_0_r.
  - cbn [repeat fold_left]. unfold count_sample at 2. cbn [vote Vote.color Vote.count].
    rewrite Hs, IH. do 2 f_equal. lia.
Qed.

Lemma floor_div a b :
  (0 < b)%Z -> JS.floor (JS.div (JS.of_Z a) (JS.of_Z b)) = JS.of_Z (a / b).
Proof.
  intros Hb. rewrite div_of_Z by lia. unfold JS.fin, JS.floor, JS.of_Z.
  do 2 f_equal. rewrite Zdiv_Qdiv. apply Qfloor_comp. apply Qred_correct.
Qed.

Lemma floor_mul_div w i d :
  (0 < d)%Z ->
  JS.floor (JS.mul (JS.of_Z w) (JS.div (JS.of_Z i) (JS.of_Z d)))
  = JS.of_Z ((w * i) / d).
Proof.
  intros Hd. rewrite div_of_Z by lia. unfold JS.fin, JS.mul, JS.floor, JS.of_Z, JS.fin.
  do 2 f_equal. rewrite Zdiv_Qdiv. apply Qfloor_comp.
  rewrite !Qred_correct, inject_Z_mult. field. apply inject_Z_nonzero. lia.
Qed.

Lemma border_point_intro imageData (x y : Z) :
  (0 <= x < Z.of_nat (Image.width imageData))%Z ->
  (0 <= y < Z.of_nat (Image.height imageData))%Z ->
  (x = 0 \/ x = Z.of_nat (Image.width imageData) - 1 \/
   y = 0 \/ y = Z.of_nat (Image.height imageData) - 1)%Z ->
  border_point imageData {| Point.x := JS.of_Z x; Point.y := JS.of_Z y |}.
Proof.
  intros Hx Hy Hb. exists (Z.to_nat x), (Z.to_nat y). split.
  - unfold on_border. lia.
  - unfold JS.of_nat. now rewrite !Z2Nat.id by lia.
Qed.

Lemma positions_border imageData :
  well_formed imageData -> Forall (border_point imageData) (positions imageData).
Proof.
  intros (Hw & Hh & _). unfold positions, tenths. cbn [flat_map app].
  unfold width, height, n0, n1, n2, JS.of_nat.
  rewrite !sub_of_Z, !floor_div, !floor_mul_div by lia.
  repeat (apply Forall_cons;
          [apply border_point_intro; Z.to_euclidean_division_equations; lia|]).
  apply Forall_nil.
Qed.

Lemma border_sample imageData pos :
  well_formed imageData -> border_point imageData pos ->
  exists x y,
    on_border imageData x y /\ sample_at imageData pos = pixel_at imageData x y /\
    finite_rgb (pixel_at imageData x y).
Proof.
  intros (Hw & Hh & Hlen) (x & y & Hb & ->). exists x, y.
  split; [exact Hb|]. unfold sample_at, pixel_at, pixel. cbn [Point.x Point.y].
  unfold width, n4, n1, n2, JS.of_nat. rewrite mul_of_Z, add_of_Z, mul_of_Z.
  replace (Z.of_nat (4 * (y * Image.width imageData + x)))
    with ((Z.of_nat y * Z.of_nat (Image.width imageData) + Z.of_nat x) * 4)%Z by lia.
  split; [reflexivity|].
  set (i := ((Z.of_nat y * Z.of_nat (Image.width imageData) + Z.of_nat x) * 4)%Z).
  assert (Hi : (0 <= i /\ i + 3 < Z.of_nat (List.length (Image.data imageData)))%Z).
  { unfold i. destruct Hb as (Hx & Hy & _). rewrite Hlen. nia. }
  assert (L : forall c, (0 <= c <= 3)%Z ->
            exists v, load (Image.data imageData) (JS.of_Z (i + c)) = JS.of_Z v).
  { intros c Hc. unfold load. rewrite to_index_of_Z.
    replace (0 <=? i + c)%Z with true by (symmetry; apply Z.leb_le; lia).
    destruct (nth_error (Image.data imageData) (Z.to_nat (i + c))) as [v|] eqn:E;
      [eauto|]. apply nth_error_None in E. lia. }
  rewrite !add_of_Z. cbn [RGB.r RGB.g RGB.b].
  destruct (L 0%Z ltac:(lia)) as [v0 E0]. rewrite Z.add_0_r in E0.
  destruct (L 1%Z ltac:(lia)) as [v1 E1]. destruct (L 2%Z ltac:(lia)) as [v2 E2].
  unfold finite_rgb. cbn [RGB.r RGB.g RGB.b]. rewrite E0, E1, E2.
  unfold JS.of_Z. repeat split; eexists; reflexivity.
Qed.

Lemma Forall_repeat {A : Type} (c : A) (l : list A) :
  Forall (fun a => a = c) l -> l = repeat c (List.length l).
Proof.
  induction 1 as [|a l Ha Hl IH]; simpl; [reflexivity|]. now rewrite Ha, <- IH.
Qed.

Lemma samples_length imageData : List.length (samples imageData) = 44%nat.
Proof. reflexivity. Qed.

Lemma edge_groups_winner imageData :
  exists pre group post,
    edge_groups imageData = pre ++ group :: post /\
    first_max Vote.count pre group post /\
    detectBackgroundColor imageData = Some (Vote.color group) /\
    In (Vote.color group) (samples imageData) /\
    fold_right Z.add 0%Z (map Vote.count (edge_groups imageData)) = 44%Z.
Proof.
  pose proof (count_samples_spec (JS.of_Z 20) (samples imageData) []) as H.
  cbv zeta in H. destruct H as (Hin & Hsum & Hne).
  unfold detectBackgroundColor, edge_groups.
  set (groups := fold_left (count_sample (JS.of_Z 20)) (samples imageData) []) in *.
  destruct (sort_desc_head Vote.count groups)
    as (pre & g & post & rest & Hl & Hs & Hmax).
  { apply Hne. right. intros H. apply (f_equal (@List.length _)) in H.
    rewrite samples_length in H. discriminate H. }
  exists pre, g, post. split; [exact Hl|]. split; [exact Hmax|].
  split; [now rewrite Hs|]. split.
  - apply (Hin (Vote.color g)). rewrite Hl, map_app. apply in_or_app. right. now left.
  - rewrite Hsum, samples_length. reflexivity.
Qed.

(** X18 -- the most common edge colour.  [detectBackgroundColor] always
    returns a colour, and never throws.  The 44 samples are put in groups
    whose counts add up to 44; the colour returned is the one of the group
    of greatest count, the earliest such group on a tie, and it is one of
    the samples. *)
Theorem detectBackgroundColor_most_common :
  forall imageData,
    exists pre group post,
      edge_groups imageData = pre ++ group :: post /\
      first_max Vote.count pre group post /\
      detectBackgroundColor imageData = Some (Vote.color group) /\
      In (Vote.color group) (samples imageData) /\
      fold_right Z.add 0%Z (map Vote.count (edge_groups imageData)) = 44%Z.
Proof. exact edge_groups_winner. Qed.

(** X19 -- the background colour is the colour of a border pixel.  On a
    buffer of the declared size, every sample position is a pixel of the
    border of the image, so the colour [detectBackgroundColor] returns is
    the red, green and blue of a pixel of the first or last row or
    column, and none of its channels is undefined. *)
Theorem detectBackgroundColor_border_pixel :
  forall imageData,
    well_formed imageData ->
    exists x y,
      on_border imageData x y /\
      finite_rgb (pixel_at imageData x y) /\
      detectBackgroundColor imageData = Some (pixel_at imageData x y).
Proof.
  intros imageData Hwf.
  destruct (edge_groups_winner imageData)
    as (pre & g & post & _ & _ & Hres & Hin & _).
  unfold samples in Hin. apply in_map_iff in Hin as (pos & Hpos & Hin).
  pose proof (positions_border imageData Hwf) as HF. rewrite Forall_forall in HF.
  destruct (border_sample imageData pos Hwf (HF pos Hin)) as (x & y & Hb & Hs & Hf).
  exists x, y. split; [exact Hb|]. split; [exact Hf|]. now rewrite Hres, <- Hpos, Hs.
Qed.

Lemma detectBackgroundColor_border_pixel_witness :
  exists x y,
    on_border square_image x y /\
    detectBackgroundColor square_image = Some (pixel_at square_image x y).
Proof.
  destruct (detectBackgroundColor_border_pixel square_image)
    as (x & y & Hb & _ & Hr); [repeat split; simpl; lia|].
  exists x, y. split; [exact Hb|exact Hr].
Defined.

Lemma samples_uniform imageData c :
  well_formed imageData ->
  (forall x y, on_border imageData x y -> pixel_at imageData x y = c) ->
  samples imageData = repeat c 44 /\ finite_rgb c.
Proof.
  intros Hwf Hall. pose proof (positions_border imageData Hwf) as HF. split.
  - rewrite <- (samples_length imageData). apply Forall_repeat.
    unfold samples. apply Forall_map.
    eapply Forall_impl; [|exact HF].
    intros pos Hpos. cbv beta.
    destruct (border_sample imageData pos Hwf Hpos) as (x & y & Hb & -> & _).
    now apply Hall.
  - unfold positions in HF. apply Forall_inv in HF.
    destruct (border_sample imageData _ Hwf HF) as (x & y & Hb & _ & Hfin).
    now rewrite (Hall x y Hb) in Hfin.
Qed.

Lemma uniform_groups tol c n :
  isSimilarColor c c tol = true ->
  fold_left (count_sample tol) (repeat c (S n)) []
  = [{| Vote.color := c; Vote.count := 1 + Z.of_nat n |}].
Proof.
  intros Hsim. cbn [repeat fold_left]. unfold count_sample at 2. cbn [vote app].
  now apply count_samples_uniform.
Qed.

(** X20 -- a border of one colour.  On a buffer of the declared size
    whose border pixels all have the same red, green and blue,
    [detectBackgroundColor] returns that colour. *)
Theorem detectBackgroundColor_uniform_border :
  forall imageData c,
    well_formed imageData ->
    (forall x y, on_border imageData x y -> pixel_at imageData x y = c) ->
    detectBackgroundColor imageData = Some c.
Proof.
  intros imageData c Hwf Hall.
  destruct (samples_uniform imageData c Hwf Hall) as [Hs Hf].
  assert (Hsim : isSimilarColor c c (JS.of_Z 20) = true).
  { unfold isSimilarColor. rewrite (self_distance c Hf), root_lt_zero. reflexivity. }
  unfold detectBackgroundColor, edge_groups. rewrite Hs.
  rewrite (uniform_groups (JS.of_Z 20) c 43 Hsim). reflexivity.
Qed.

Lemma detectBackgroundColor_uniform_border_witness :
  detectBackgroundColor plain_image = Some (rgb 10 20 30).
Proof.
  apply (detectBackgroundColor_uniform_border plain_image (rgb 10 20 30)).
  - repeat split; simpl; lia.
  - intros x y (Hx & Hy & _). simpl in Hx, Hy.
    destruct y as [|y]; [|lia]. destruct x as [|[|x]]; [reflexivity|reflexivity|lia].
Defined.

(* ----------------------------------------------------------------- *)
(** ** Statistics *)

(** X21 -- the difficulty rating.  Whatever the two arguments are, not
    numbers included, the score [calculatePatternStats] computes is an
    integer between 1 and 7; so the rating is ['Beginner'], ['Easy'],
    ['Intermediate'] or ['Advanced'], and never ['Expert']. *)
Theorem difficulty_never_expert :
  forall stitchCount colorCount,
    exists score,
      (1 <= score <= 7)%Z /\
      difficultyScore stitchCount colorCount = JS.of_Z score /\
      Stats.difficulty (calculatePatternStats stitchCount colorCount)
      = (if (score <=? 2)%Z then "Beginner"
         else if (score <=? 4)%Z then "Easy"
         else if (score <=? 6)%Z then "Intermediate"
         else "Advanced")%string /\
      Stats.difficulty (calculatePatternStats stitchCount colorCount)
      <> "Expert"%string.
Proof.
  intros s c. unfold calculatePatternStats. cbn [Stats.difficulty].
  unfold difficulty, difficultyScore.
  destruct (JS.lt s (JS.of_Z 2000));
    [|destruct (JS.lt s (JS.of_Z 5000));
      [|destruct (JS.lt s (JS.of_Z 10000));
        [|destruct (JS.lt s (JS.of_Z 20000))]]];
    (destruct (JS.gt c (JS.of_Z 30)); [|destruct (JS.gt c (JS.of_Z 20))]);
    match goal with
    | |- context [JS.le ?e n2] =>
        let v := eval vm_compute in e in
        match v with
        | JS.Fin (?z # 1) => exists z
        end
    end;
    (split; [lia|]); (split; [vm_compute; reflexivity|]);
    (split; [vm_compute; reflexivity|vm_compute; discriminate]).
Qed.

(** X22 -- the rating is monotone.  For integer arguments, a pattern
    with at least as many stitches and at least as many colours as
    another one has a score and a rating that are at least as high. *)
Theorem difficulty_monotone :
  forall s s' c c' : Z,
    (s <= s')%Z -> (c <= c')%Z ->
    JS.le (difficultyScore (JS.of_Z s) (JS.of_Z c))
          (difficultyScore (JS.of_Z s') (JS.of_Z c')) = true /\
    (difficulty_rank (Stats.difficulty (calculatePatternStats (JS.of_Z s) (JS.of_Z c)))
     <= difficulty_rank
          (Stats.difficulty (calculatePatternStats (JS.of_Z s') (JS.of_Z c'))))%Z.
Proof.
  intros s s' c c' Hs Hc. unfold calculatePatternStats. cbn [Stats.difficulty].
  unfold difficulty, difficultyScore, JS.gt. rewrite !lt_of_Z.
  destruct (Z.ltb_spec s 2000), (Z.ltb_spec s 5000), (Z.ltb_spec s 10000),
    (Z.ltb_spec s 20000); try lia;
    destruct (Z.ltb_spec s' 2000), (Z.ltb_spec s' 5000), (Z.ltb_spec s' 10000),
      (Z.ltb_spec s' 20000); try lia;
    destruct (Z.ltb_spec 30 c), (Z.ltb_spec 20 c); try lia;
    destruct (Z.ltb_spec 30 c'), (Z.ltb_spec 20 c'); try lia;
    (split; [vm_compute; reflexivity|vm_compute; discriminate]).
Qed.

Lemma difficulty_monotone_witness :
  (difficulty_rank (Stats.difficulty (calculatePatternStats (JS.of_Z 100) (JS.of_Z 5)))
   <= difficulty_rank
        (Stats.difficulty (calculatePatternStats (JS.of_Z 30000) (JS.of_Z 42))))%Z.
Proof.
  apply (difficulty_monotone 100 30000 5 42); lia.
Defined.

Lemma eq_of_Z a b : JS.eq (JS.of_Z a) (JS.of_Z b) = (a =? b)%Z.
Proof.
  unfold JS.eq, JS.of_Z. destruct (Z.eqb_spec a b) as [->|Hne].
  - apply Qeq_bool_iff. reflexivity.
  - apply not_true_is_false. rewrite Qeq_bool_iff. unfold Qeq. simpl. lia.
Qed.

Lemma of_num_of_Z z : Str.of_num (JS.of_Z z) = Str.of_Z 10 z.
Proof. unfold Str.of_num, JS.of_Z. now rewrite Qfloor_Z. Qed.

Section Hours.

Variable n : Z.
Hypothesis Hn : (2500 <= n)%Z.

Lemma hours_value : estimatedHours (JS.of_Z n) = JS.fin (inject_Z n / inject_Z 250).
Proof. unfold estimatedHours, stitchesPerHour. now rewrite div_of_Z. Qed.

Lemma hours_large :
  JS.lt (estimatedHours (JS.of_Z n)) n1 = false /\
  JS.lt (estimatedHours (JS.of_Z n)) (JS.of_Z 10) = false.
Proof.
  rewrite hours_value. unfold JS.fin, JS.lt, n1, JS.of_Z.
  assert (H : (10 <= inject_Z n / inject_Z 250)%Q).
  { apply Qle_shift_div_l; [reflexivity|].
    change (10 * inject_Z 250)%Q with (inject_Z 2500). now rewrite <- Zle_Qle. }
  split; apply Qltb_ge; rewrite Qred_correct;
    [change (inject_Z 1) with 1%Q|change (inject_Z 10) with 10%Q]; lra.
Qed.

Lemma days_value :
  JS.floor (JS.div (estimatedHours (JS.of_Z n)) (JS.of_Z 8)) = JS.of_Z (n / 2000).
Proof.
  rewrite hours_value. unfold JS.fin, JS.div, JS.floor, JS.of_Z, JS.fin.
  change (Qeq_bool (inject_Z 8) 0) with false. cbv iota. do 2 f_equal.
  change 2000%Z with (250 * 8)%Z. rewrite Zdiv_Qdiv. apply Qfloor_comp.
  rewrite !Qred_correct, inject_Z_mult. field.
Qed.

Lemma remaining_value :
  JS.round (JS.rem (estimatedHours (JS.of_Z n)) (JS.of_Z 8))
  = JS.of_Z (nearest (n mod 2000) 250).
Proof.
  rewrite hours_value. unfold JS.fin, JS.rem, JS.round, JS.of_Z, JS.fin.
  change (Qeq_bool (inject_Z 8) 0) with false. cbv iota.
  assert (Hq : (0 <= inject_Z n / inject_Z 250)%Q).
  { apply Qle_shift_div_l; [reflexivity|]. rewrite Qmult_0_l.
    change 0%Q with (inject_Z 0). rewrite <- Zle_Qle. lia. }
  assert (Ht : JS.trunc (Qred (inject_Z n / inject_Z 250) / inject_Z 8)
               = (n / 2000)%Z).
  { unfold JS.trunc.
    replace (JS.Qltb _ 0) with false.
    - change 2000%Z with (250 * 8)%Z. rewrite Zdiv_Qdiv. apply Qfloor_comp.
      rewrite Qred_correct, inject_Z_mult. field.
    - symmetry. apply Qltb_ge. rewrite Qred_correct.
      apply Qle_shift_div_l; [reflexivity|]. rewrite Qmult_0_l. exact Hq. }
  rewrite Ht. do 2 f_equal. unfold nearest.
  change (2 * 250)%Z with 500%Z.
  rewrite (Zdiv_Qdiv (2 * (n mod 2000) + 250) 500). apply Qfloor_comp.
  rewrite !Qred_correct.
  rewrite inject_Z_plus, inject_Z_mult.
  rewrite (Z.mod_eq n 2000) by lia. unfold Z.sub.
  rewrite inject_Z_plus, inject_Z_opp, inject_Z_mult.
  change (inject_Z 2000) with 2000%Q. change (inject_Z 250) with 250%Q.
  change (inject_Z 500) with 500%Q. change (inject_Z 8) with 8%Q.
  change (inject_Z 2) with 2%Q. field.
Qed.

End Hours.

(** X23 -- the time estimate of a long pattern.  From 2500 stitches on,
    that is from ten hours on, and for a number of stitches that the
    length of an array can be, the estimate counts days of eight hours:
    the number of days is [stitchCount / 2000] and is at least 1, so the
    branch for zero days is never taken; the remaining hours are the
    remainder over 250, rounded, which is 8 from 1875 remaining stitches
    on: the estimate then reads [N days, 8 hrs], not one more day. *)
Theorem timeEstimate_in_days :
  forall n colorCount,
    (2500 <= n < 2 ^ 32)%Z ->
    let days := (n / 2000)%Z in
    let hrs := nearest (n mod 2000) 250 in
    (1 <= days)%Z /\ (0 <= hrs <= 8)%Z /\
    ((1875 <= n mod 2000)%Z -> hrs = 8%Z) /\
    Stats.timeEstimate (calculatePatternStats (JS.of_Z n) colorCount)
    = (Str.of_Z 10 days ++ " " ++ (if (days =? 1)%Z then "day" else "days")
       ++ (if (hrs =? 0)%Z then ""
           else ", " ++ Str.of_Z 10 hrs ++ " hrs"))%string.
Proof.
  intros n colorCount [Hn _] days hrs.
  assert (Hd : (1 <= days)%Z)
    by (unfold days; Z.to_euclidean_division_equations; lia).
  assert (Hh : (0 <= hrs <= 8)%Z)
    by (unfold hrs, nearest; Z.to_euclidean_division_equations; lia).
  split; [exact Hd|]. split; [exact Hh|]. split.
  { unfold hrs, nearest. intros H. Z.to_euclidean_division_equations. lia. }
  unfold calculatePatternStats. cbn [Stats.timeEstimate]. unfold timeEstimate.
  destruct (hours_large n Hn) as [-> ->].
  rewrite (days_value n), (remaining_value n Hn). fold days. fold hrs.
  unfold n0, n1. rewrite !eq_of_Z, !of_num_of_Z.
  replace (days =? 0)%Z with false by (symmetry; apply Z.eqb_neq; lia).
  destruct (hrs =? 0)%Z; [|reflexivity].
  destruct (days =? 1)%Z; reflexivity.
Qed.

Lemma timeEstimate_in_days_witness :
  Stats.timeEstimate (calculatePatternStats (JS.of_Z 3900) (JS.of_Z 12))
  = "1 day, 8 hrs"%string.
Proof.
  exact (proj2 (proj2 (proj2
           (timeEstimate_in_days 3900 (JS.of_Z 12) ltac:(simpl; lia))))).
Defined.

(* ----------------------------------------------------------------- *)
(** ** Shopping list and symbols *)

Section SortDesc.

Context {A : Type}.
Variable key : A -> Z.

Lemma insert_desc_perm a l : Permutation (insert_desc key a l) (a :: l).
Proof.
  induction l as [|b l IH]; simpl; [reflexivity|].
  destruct (_ <? _)%Z; [|reflexivity].
  rewrite IH. apply perm_swap.
Qed.

Lemma sort_desc_perm l : Permutation (sort_desc key l) l.
Proof.
  induction l as [|a l IH]; simpl; [reflexivity|].
  rewrite insert_desc_perm. now constructor.
Qed.

Lemma insert_desc_sorted a l :
  StronglySorted (fun x y => (key y <= key x)%Z) l ->
  StronglySorted (fun x y => (key y <= key x)%Z) (insert_desc key a l).
Proof.
  induction l as [|b l IH]; intros Hs; simpl.
  - constructor; constructor.
  - inversion Hs as [|? ? Hs' Hb]; subst.
    destruct (Z.ltb_spec (key a) (key b)) as [Hlt|Hge].
    + constructor; [now apply IH|].
      apply (Permutation_Forall (Permutation_sym (insert_desc_perm a l))).
      constructor; [lia|exact Hb].
    + constructor; [exact Hs|]. constructor; [exact Hge|].
      eapply Forall_impl; [|exact Hb]. cbv beta. intros; lia.
Qed.

Lemma sort_desc_sorted l :
  StronglySorted (fun x y => (key y <= key x)%Z) (sort_desc key l).
Proof.
  induction l as [|a l IH]; simpl; [constructor|].
  now apply insert_desc_sorted.
Qed.

End SortDesc.

Lemma sum_perm (l1 l2 : list Z) :
  Permutation l1 l2 -> fold_right Z.add 0%Z l1 = fold_right Z.add 0%Z l2.
Proof. induction 1; simpl; lia. Qed.

Lemma ceil_div a b :
  (0 < b)%Z ->
  JS.ceil (JS.div (JS.of_Z a) (JS.of_Z b)) = JS.of_Z (- ((- a) / b)).
Proof.
  intros Hb. rewrite div_of_Z by lia. unfold JS.fin, JS.ceil, JS.of_Z.
  do 2 f_equal. unfold Qceiling. f_equal. rewrite Zdiv_Qdiv. apply Qfloor_comp.
  rewrite Qred_correct, inject_Z_opp. field. apply inject_Z_nonzero. lia.
Qed.

(** X24 -- the shopping list.  [generateThreadShoppingList] returns one
    entry per colour of [colorCounts], with the id, name, hex and count of
    that colour, sorted by decreasing number of stitches.  The number of
    skeins of an entry is the least integer [k] with
    [stitches <= 1600 * k]. *)
Theorem shopping_list_sorted :
  forall colorCounts,
    let list := generateThreadShoppingList colorCounts in
    Permutation list (map shopping_item (Obj.values colorCounts)) /\
    List.length list = List.length (Obj.keys colorCounts) /\
    StronglySorted (fun a b => (Item.stitches b <= Item.stitches a)%Z) list /\
    forall item, In item list ->
      exists k,
        Item.skeinsNeeded item = JS.of_Z k /\
        (1600 * (k - 1) < Item.stitches item <= 1600 * k)%Z.
Proof.
  intros colorCounts list. subst list. unfold generateThreadShoppingList.
  pose proof (sort_desc_perm Item.stitches (map shopping_item (Obj.values colorCounts)))
    as Hperm.
  split; [exact Hperm|]. split; [|split].
  - rewrite (Permutation_length Hperm). unfold Obj.values, Obj.keys.
    now rewrite !length_map.
  - apply sort_desc_sorted.
  - intros item Hin. apply (Permutation_in _ Hperm) in Hin.
    apply in_map_iff in Hin as (color & <- & _).
    unfold shopping_item, stitchesPerSkein. cbn [Item.skeinsNeeded Item.stitches].
    rewrite ceil_div by lia. eexists. split; [reflexivity|].
    Z.to_euclidean_division_equations. lia.
Qed.

(** X25 -- the shopping list of a pattern.  For a pattern that satisfies
    the palette invariant, the stitches of the entries of the shopping
    list add up to the number of stitches of the pattern, and no entry
    has a negative number of stitches or of skeins. *)
Theorem shopping_list_total :
  forall p,
    Obj.wf (Pattern.colorCounts p) -> palette_coverage p ->
    let list := generateThreadShoppingList (Pattern.colorCounts p) in
    fold_right Z.add 0%Z (map Item.stitches list)
    = Z.of_nat (List.length (Pattern.stitches p)) /\
    forall item, In item list ->
      (0 <= Item.stitches item)%Z /\
      exists k, (0 <= k)%Z /\ Item.skeinsNeeded item = JS.of_Z k.
Proof.
  intros p Hwf (_ & Hcnt & Hsum) list. subst list.
  unfold generateThreadShoppingList.
  pose proof (sort_desc_perm Item.stitches
                (map shopping_item (Obj.values (Pattern.colorCounts p)))) as Hperm.
  split.
  - rewrite (sum_perm _ _ (Permutation_map Item.stitches Hperm)).
    rewrite map_map. exact Hsum.
  - intros item Hin. apply (Permutation_in _ Hperm) in Hin.
    apply in_map_iff in Hin as (color & <- & Hin).
    unfold Obj.values in Hin. apply in_map_iff in Hin as ([k u] & <- & Hin).
    apply (In_get _ _ _ Hwf) in Hin. apply Hcnt in Hin.
    pose proof (count_id_nonneg k (Pattern.stitches p)) as H0.
    unfold shopping_item, stitchesPerSkein. cbn [Item.skeinsNeeded Item.stitches snd].
    split; [lia|]. rewrite ceil_div by lia. eexists. split; [|reflexivity].
    Z.to_euclidean_division_equations. lia.
Qed.

Lemma shopping_list_total_witness :
  fold_right Z.add 0%Z
    (map Item.stitches (generateThreadShoppingList (Pattern.colorCounts sample_pattern)))
  = 6%Z.
Proof.
  destruct sample_pattern_sound as (Hwf & _ & Hcov).
  exact (proj1 (shopping_list_total sample_pattern Hwf Hcov)).
Defined.

Lemma distinct_NoDup l : distinct l = true -> NoDup l.
Proof.
  induction l as [|a l IH]; simpl; intros H; constructor;
    apply andb_true_iff in H as [Ha Hl].
  - intros Hin. apply negb_true_iff in Ha.
    assert (existsb (N.eqb a) l = true); [|congruence].
    apply existsb_exists. exists a. split; [exact Hin|apply N.eqb_refl].
  - now apply IH.
Qed.

Lemma symbols_distinct : NoDup STITCH_SYMBOLS.
Proof. apply distinct_NoDup. vm_compute. reflexivity. Qed.

Lemma symbol_at_inj i j :
  (i < 80)%nat -> (j < 80)%nat -> symbol_at i = symbol_at j -> i = j.
Proof.
  intros Hi Hj. unfold symbol_at.
  change (List.length STITCH_SYMBOLS) with 80%nat.
  rewrite !Nat.mod_small by assumption.
  apply (proj1 (NoDup_nth STITCH_SYMBOLS 0%N) symbols_distinct); assumption.
Qed.

Lemma assign_other key l :
  forall m k,
    ~ In key (map Usage.id l) ->
    Obj.get key (fst (fold_left assign_symbol l (m, k))) = Obj.get key m.
Proof.
  induction l as [|c l IH]; intros m k Hnot; simpl; [reflexivity|].
  unfold assign_symbol at 2. cbn [fst snd]. rewrite IH by (simpl in Hnot; tauto).
  rewrite get_set. destruct (String.eqb_spec key (Usage.id c)) as [->|Hne];
    [|reflexivity].
  elim Hnot. now left.
Qed.

Lemma assign_nth l :
  forall m k i u,
    NoDup (map Usage.id l) -> nth_error l i = Some u ->
    Obj.get (Usage.id u) (fst (fold_left assign_symbol l (m, k)))
    = Some (symbol_at (k + i)).
Proof.
  induction l as [|c l IH]; intros m k i u Hnd Hi; [destruct i; discriminate|].
  simpl in Hnd. inversion Hnd as [|? ? Hc Hnd']; subst.
  simpl. unfold assign_symbol at 2. cbn [fst snd].
  destruct i as [|i]; simpl in Hi.
  - injection Hi as <-. rewrite assign_other by exact Hc.
    rewrite get_set_same, Nat.add_0_r. reflexivity.
  - rewrite (IH _ (S k) i u Hnd' Hi). f_equal. f_equal. lia.
Qed.

Lemma assign_keys l :
  forall m k key,
    Obj.has key (fst (fold_left assign_symbol l (m, k))) = true <->
    Obj.has key m = true \/ In key (map Usage.id l).
Proof.
  induction l as [|c l IH]; intros m k key; simpl; [tauto|].
  unfold assign_symbol at 2. cbn [fst snd]. rewrite IH.
  rewrite !has_In, In_keys_set. intuition auto.
Qed.

(** X26 -- the symbols of the colours.  With the colours sorted by
    decreasing count, the colour of rank [i] gets the symbol of index
    [i mod 80] of [STITCH_SYMBOLS], and the colours that get a symbol are
    those of [colorCounts].  With at most 80 colours no two colours share
    a symbol; beyond, the colours of ranks [i] and [i + 80] do. *)
Theorem symbols_by_rank :
  forall colorCounts,
    Obj.wf colorCounts -> keyed_by_id colorCounts ->
    let symbolMap := assignSymbolsToColors colorCounts in
    let sortedColors := sort_by_count (Obj.values colorCounts) in
    (forall i color, nth_error sortedColors i = Some color ->
       Obj.get (Usage.id color) symbolMap = Some (symbol_at i)) /\
    (forall id, Obj.has id symbolMap = true <-> Obj.has id colorCounts = true) /\
    ((List.length colorCounts <= 80)%nat ->
     forall id1 id2 symbol,
       Obj.get id1 symbolMap = Some symbol -> Obj.get id2 symbolMap = Some symbol ->
       id1 = id2) /\
    (forall i color1 color2,
       nth_error sortedColors i = Some color1 ->
       nth_error sortedColors (i + 80) = Some color2 ->
       Obj.get (Usage.id color1) symbolMap = Obj.get (Usage.id color2) symbolMap).
Proof.
  intros colorCounts Hwf Hkey symbolMap sortedColors.
  assert (Hperm : Permutation (map Usage.id sortedColors) (Obj.keys colorCounts)).
  { unfold sortedColors. rewrite <- (keyed_ids _ Hkey).
    apply Permutation_map, sort_by_count_perm. }
  assert (Hnd : NoDup (map Usage.id sortedColors)).
  { apply (Permutation_NoDup (Permutation_sym Hperm)). exact Hwf. }
  assert (Hrank : forall i color, nth_error sortedColors i = Some color ->
            Obj.get (Usage.id color) symbolMap = Some (symbol_at i)).
  { intros i color Hi. unfold symbolMap, assignSymbolsToColors.
    fold sortedColors. now rewrite (assign_nth _ Obj.empty 0 i color Hnd Hi). }
  assert (Hhas : forall id, Obj.has id symbolMap = true <->
                            Obj.has id colorCounts = true).
  { intros id. unfold symbolMap, assignSymbolsToColors. fold sortedColors.
    rewrite assign_keys, has_In. split.
    - intros [H|H]; [elim H|]. apply has_In. now apply (Permutation_in _ Hperm).
    - intros H. right. apply has_In in H.
      now apply (Permutation_in _ (Permutation_sym Hperm)). }
  assert (Hfind : forall id symbol, Obj.get id symbolMap = Some symbol ->
            exists i, (i < List.length colorCounts)%nat /\ symbol = symbol_at i /\
                      exists color, nth_error sortedColors i = Some color /\
                                    Usage.id color = id).
  { intros id symbol Hg.
    assert (Hin : In id (map Usage.id sortedColors)).
    { apply (Permutation_in _ (Permutation_sym Hperm)). apply has_In, Hhas.
      unfold Obj.has. now rewrite Hg. }
    apply in_map_iff in Hin as (color & Hid & Hin).
    apply In_nth_error in Hin as [i Hi]. exists i.
    assert (Hlt : (i < List.length sortedColors)%nat)
      by (apply nth_error_Some; congruence).
    unfold sortedColors in Hlt at 1.
    rewrite (Permutation_length (sort_by_count_perm _)) in Hlt.
    unfold Obj.values in Hlt. rewrite length_map in Hlt.
    split; [exact Hlt|]. split; [|eauto].
    apply Hrank in Hi. rewrite Hid in Hi. congruence. }
  split; [exact Hrank|]. split; [exact Hhas|]. split.
  - intros Hlen id1 id2 symbol H1 H2.
    destruct (Hfind _ _ H1) as (i & Hi & Es1 & c1 & Hc1 & <-).
    destruct (Hfind _ _ H2) as (j & Hj & Es2 & c2 & Hc2 & <-).
    assert (i = j) by (apply symbol_at_inj; [lia|lia|congruence]).
    subst j. congruence.
  - intros i c1 c2 H1 H2. rewrite (Hrank _ _ H1), (Hrank _ _ H2). f_equal.
    unfold symbol_at. change (List.length STITCH_SYMBOLS) with 80%nat.
    f_equal. rewrite <- (Nat.Div0.mod_add i 1 80). reflexivity.
Qed.

Lemma symbols_by_rank_witness :
  Obj.get "666" (assignSymbolsToColors (Pattern.colorCounts sample_pattern))
  = Some 0x2022%N.
Proof.
  destruct sample_pattern_sound as (Hwf & Hkey & _).
  exact (proj1 (symbols_by_rank (Pattern.colorCounts sample_pattern) Hwf Hkey)
           0%nat (snd (used rose 3)) eq_refl).
Defined.

(* ----------------------------------------------------------------- *)
(** ** Colours of the table *)

Lemma weighted_distance_Z hex r g b :
  (weighted_distance hex r g b * 100 ==
   inject_Z (30 * ((channel_value 1 3 hex - r) * (channel_value 1 3 hex - r))
             + 59 * ((channel_value 3 5 hex - g) * (channel_value 3 5 hex - g))
             + 11 * ((channel_value 5 7 hex - b) * (channel_value 5 7 hex - b))))%Q.
Proof.
  unfold weighted_distance. cbv zeta.
  rewrite !inject_Z_plus, !inject_Z_mult.
  change (inject_Z 30) with 30%Q. change (inject_Z 59) with 59%Q.
  change (inject_Z 11) with 11%Q. field.
Qed.

Lemma weighted_distance_nonneg hex r g b :
  (0 <= weighted_distance hex r g b)%Q.
Proof.
  pose proof (weighted_distance_Z hex r g b) as E.
  set (dr := (channel_value 1 3 hex - r)%Z) in *.
  set (dg := (channel_value 3 5 hex - g)%Z) in *.
  set (db := (channel_value 5 7 hex - b)%Z) in *.
  assert (H0 : (inject_Z 0
                <= inject_Z (30 * (dr * dr) + 59 * (dg * dg) + 11 * (db * db)))%Q).
  { rewrite <- Zle_Qle. nia. }
  rewrite <- E in H0. change (inject_Z 0) with 0%Q in H0. lra.
Qed.

Lemma weighted_distance_zero hex r g b :
  (weighted_distance hex r g b <= 0)%Q <->
  channel_value 1 3 hex = r /\ channel_value 3 5 hex = g /\ channel_value 5 7 hex = b.
Proof.
  pose proof (weighted_distance_Z hex r g b) as E.
  set (dr := (channel_value 1 3 hex - r)%Z) in *.
  set (dg := (channel_value 3 5 hex - g)%Z) in *.
  set (db := (channel_value 5 7 hex - b)%Z) in *.
  split.
  - intros H.
    assert (H0 : (inject_Z (30 * (dr * dr) + 59 * (dg * dg) + 11 * (db * db))
                  <= inject_Z 0)%Q).
    { rewrite <- E. change (inject_Z 0) with 0%Q. lra. }
    rewrite <- Zle_Qle in H0.
    assert (dr = 0%Z /\ dg = 0%Z /\ db = 0%Z) as (Hr & Hg & Hb) by nia.
    unfold dr, dg, db in *. lia.
  - intros (Hr & Hg & Hb).
    assert (Hz : (inject_Z (30 * (dr * dr) + 59 * (dg * dg) + 11 * (db * db)) == 0)%Q).
    { replace dr with 0%Z by (unfold dr; lia). replace dg with 0%Z by (unfold dg; lia).
      replace db with 0%Z by (unfold db; lia). reflexivity. }
    rewrite Hz in E. lra.
Qed.

(** X27 -- a colour of the table is its own nearest thread.  Asked for
    the three channels of an entry of a well-formed table,
    [findClosestDMC] returns the first entry of the table with those
    channels: the entry itself, unless an earlier one has the same
    colour. *)
Theorem findClosestDMC_table_colour :
  forall DMC_COLORS d,
    forallb (fun c => valid_hex (DMC.hex c)) DMC_COLORS = true ->
    In d DMC_COLORS ->
    exists pre res post,
      DMC_COLORS = pre ++ res :: post /\
      findClosestDMC DMC_COLORS
        (JS.of_Z (channel_value 1 3 (DMC.hex d)))
        (JS.of_Z (channel_value 3 5 (DMC.hex d)))
        (JS.of_Z (channel_value 5 7 (DMC.hex d))) = Some res /\
      same_channels res d /\
      (forall c, In c pre -> ~ same_channels c d).
Proof.
  intros T d Hvalid Hd.
  destruct (findClosestDMC_first_min T
              (channel_value 1 3 (DMC.hex d)) (channel_value 3 5 (DMC.hex d))
              (channel_value 5 7 (DMC.hex d)))
    as (pre & res & post & Hsplit & Hres & Hmin & Hpre).
  - intros ->. elim Hd.
  - exact Hvalid.
  - exists pre, res, post. split; [exact Hsplit|]. split; [exact Hres|].
    assert (Hself : (weighted_distance (DMC.hex d) (channel_value 1 3 (DMC.hex d))
                       (channel_value 3 5 (DMC.hex d)) (channel_value 5 7 (DMC.hex d))
                     <= 0)%Q).
    { apply weighted_distance_zero. auto. }
    assert (Hzero : (weighted_distance (DMC.hex res) (channel_value 1 3 (DMC.hex d))
                       (channel_value 3 5 (DMC.hex d)) (channel_value 5 7 (DMC.hex d))
                     <= 0)%Q).
    { eapply Qle_trans; [apply Hmin; exact Hd|exact Hself]. }
    split.
    + apply weighted_distance_zero in Hzero. exact Hzero.
    + intros c Hc Hsame. specialize (Hpre c Hc).
      assert (Hc0 : (weighted_distance (DMC.hex c) (channel_value 1 3 (DMC.hex d))
                       (channel_value 3 5 (DMC.hex d)) (channel_value 5 7 (DMC.hex d))
                     <= 0)%Q).
      { apply weighted_distance_zero. exact Hsame. }
      pose proof (weighted_distance_nonneg (DMC.hex res) (channel_value 1 3 (DMC.hex d))
                    (channel_value 3 5 (DMC.hex d)) (channel_value 5 7 (DMC.hex d))) as Hr0.
      lra.
Qed.

Lemma findClosestDMC_table_colour_witness :
  findClosestDMC sample_palette (JS.of_Z 255) (JS.of_Z 0) (JS.of_Z 0) = Some red.
Proof.
  destruct (findClosestDMC_table_colour sample_palette red)
    as (pre & res & post & Hsplit & Hres & Hsame & Hfirst).
  - vm_compute. reflexivity.
  - vm_compute. auto.
  - assert (Hred : res = red).
    { vm_compute in Hres. now injection Hres as <-. }
    subst res. exact Hres.
Defined.

(* ----------------------------------------------------------------- *)
(** ** From the image to the displayed pattern *)

(** X28 -- a conversion is always displayed.  Whatever the settings, the
    callback of [App] computes a [finalResult] from the pattern
    [convertToPattern] resolves with, without a TypeError in
    [limitColors], [mergeColors] or [applyShapeMask]; that pattern has
    the width and height of the conversion, no more stitches and no more
    colours, and its colour counts describe its stitches. *)
Theorem conversion_always_displayed :
  forall DMC_COLORS M settings imageData gridSize options fuel p reports,
    convertToPattern DMC_COLORS imageData gridSize options fuel
      = Resolved (p, reports) ->
    exists final,
      finalResult M settings p = Some final /\
      palette_coverage final /\
      (List.length (Pattern.stitches final)
       <= List.length (Pattern.stitches p))%nat /\
      (List.length (Obj.keys (Pattern.colorCounts final))
       <= List.length (Obj.keys (Pattern.colorCounts p)))%nat /\
      Pattern.width final = Pattern.width p /\
      Pattern.height final = Pattern.height p.
Proof.
  intros T M settings imageData gridSize options fuel p reports H.
  destruct (convertToPattern_coverage _ _ _ _ _ _ _ H) as [Hwf Hcov].
  destruct (convertToPattern_from_table _ _ _ _ _ _ _ H) as (_ & Hkey & _).
  destruct (finalResult_spec M settings p Hwf Hkey Hcov)
    as (final & Hrun & _ & Hc & Hlen & Hw & Hh & Hk & _).
  exists final. auto 7.
Qed.

Lemma conversion_always_displayed_witness :
  exists p reports final,
    convertToPattern sample_palette column_image 1 plain_options 2
      = Resolved (p, reports) /\
    finalResult flat_math
      {| Settings.useMaxColors := true; Settings.maxColors := 1;
         Settings.useMergeColors := true; Settings.mergeTolerance := JS.of_Z 10;
         Settings.patternShape := "heart" |} p = Some final /\
    palette_coverage final.
Proof.
  destruct (convertToPattern sample_palette column_image 1 plain_options 2)
    as [[p reports]| |] eqn:E; try (vm_compute in E; discriminate).
  destruct (conversion_always_displayed sample_palette flat_math
              {| Settings.useMaxColors := true; Settings.maxColors := 1;
                 Settings.useMergeColors := true;
                 Settings.mergeTolerance := JS.of_Z 10;
                 Settings.patternShape := "heart" |}
              column_image 1 plain_options 2 p reports E)
    as (final & Hrun & Hc & _).
  exists p, reports, final. auto.
Defined.
